(** * CAST-2: cross-modal fusion transformer and composition engine

    A shallow embedding of the parts of the repository that its
    specification makes checkable statements about:

    - [models/audio_cast.py] and [models/beats_Bsquare.py]: the fp16
      [LayerNorm] subclass, the per-layer gating of the cross-modal cells,
      the class-token handling of the directed cross-attentions, the tensor
      shapes that flow through a B-CAST cell, the prologue of
      [forward_features] and the classification heads of [forward];
    - [engine_for_both_prompt.py] and [engine_for_prompt_OV.py]: the
      composite-accuracy evaluator [action_accuracy], the per-verb decoding
      branch of [final_test], the batched prototype selection and the
      cosine-similarity logits.

    Tensors are modelled at the level each statement needs: by their dtype,
    by their shape (a list of naturals, with PyTorch's broadcasting and the
    einops patterns written out), by their rows, or by their values over the
    rationals or the reals.  Python exceptions are [None] (or an explicit
    error constructor). *)

From Stdlib Require Import Ascii String.
From Stdlib Require Import List Arith ZArith QArith Bool Lia.
From Stdlib Require Import Reals Lra.
Import ListNotations.
Close Scope Q_scope.
Close Scope R_scope.
Open Scope nat_scope.

Set Implicit Arguments.

(** A small option monad for the code paths that can raise. *)
Definition obind {A B : Type} (o : option A) (k : A -> option B) : option B :=
  match o with
  | Some a => k a
  | None => None
  end.

Notation "x <- e ;; k" := (obind e (fun x => k))
  (at level 61, e at next level, right associativity).

(** A check that raises when it fails. *)
Definition guard (b : bool) : option unit := if b then Some tt else None.

Fixpoint omap {A B : Type} (f : A -> option B) (l : list A) : option (list B) :=
  match l with
  | [] => Some []
  | a :: l' => b <- f a ;; bs <- omap f l' ;; Some (b :: bs)
  end.


Lemma omap_map_pointwise {A B C : Type} (f : B -> option C) (h : A -> B)
    (g : A -> C) (l : list A) :
  Forall (fun a => f (h a) = Some (g a)) l -> omap f (map h l) = Some (map g l).
Proof.
  induction 1 as [| a l Ha _ IH]; simpl; [reflexivity |].
  now rewrite Ha, IH.
Qed.

(* ------------------------------------------------------------------ *)
(** * [LayerNorm]: the fp16-handling subclass (both model files) *)

Module LayerNormFp16.

(** The dtypes a tensor reaching the model can have. *)
Inductive dtype : Type :=
| float16 | float32 | bfloat16 | float64 | int32 | int64 | uint8 | bool_.

Definition dtype_eqb (a b : dtype) : bool :=
  match a, b with
  | float16, float16 | float32, float32 | bfloat16, bfloat16
  | float64, float64 | int32, int32 | int64, int64 | uint8, uint8
  | bool_, bool_ => true
  | _, _ => false
  end.

(** The exception [forward] can raise: [ret] is read before any branch
    assigned it. *)
Inductive error : Type :=
| UnboundLocalError (var : string).

Section Forward.
(** The payload of a tensor, the value conversion done by [x.type(t)],
    and the normalisation [nn.LayerNorm.forward] computes on a payload of
    a given dtype. *)
Variable Data : Type.
Variable convert : dtype -> dtype -> Data -> Data.
Variable nn_layer_norm : dtype -> Data -> Data.

Record Tensor : Type := mkTensor { t_dtype : dtype; t_data : Data }.

(** [x.type(t)]: the tensor itself when it already has dtype [t]. *)
Definition type_ (x : Tensor) (t : dtype) : Tensor :=
  if dtype_eqb (t_dtype x) t then x
  else mkTensor t (convert (t_dtype x) t (t_data x)).

(** [super().forward(x)]: [nn.LayerNorm] keeps the dtype of its input. *)
Definition super_forward (x : Tensor) : Tensor :=
  mkTensor (t_dtype x) (nn_layer_norm (t_dtype x) (t_data x)).

(** [LayerNorm.forward]:
<<
    orig_type = x.dtype
    if orig_type == torch.float16:
        ret = super().forward(x)
    elif orig_type == torch.float32:
        ret = super().forward(x.type(torch.float32))
    return ret.type(orig_type)
>> *)
Definition forward (x : Tensor) : error + Tensor :=
  let orig_type := t_dtype x in
  match orig_type with
  | float16 => inr (type_ (super_forward x) orig_type)
  | float32 => inr (type_ (super_forward (type_ x float32)) orig_type)
  | _ => inl (UnboundLocalError "ret"%string)
  end.

Lemma dtype_eqb_refl (d : dtype) : dtype_eqb d d = true.
Proof. destruct d; reflexivity. Qed.

Lemma type_same (x : Tensor) : type_ x (t_dtype x) = x.
Proof. unfold type_. now rewrite dtype_eqb_refl. Qed.

Lemma type_dtype (x : Tensor) (t : dtype) : t_dtype (type_ x t) = t.
Proof.
  unfold type_. destruct (dtype_eqb (t_dtype x) t) eqn:E; [| reflexivity].
  destruct (t_dtype x), t; simpl in E; congruence.
Qed.

(** C10.  [forward] is total exactly on float16 and float32 inputs: on
    those it returns the normalised tensor, cast back to (and so carrying)
    the dtype of the input; on every other dtype no branch assigns [ret]
    and the final [return] raises. *)
Theorem layer_norm_total_only_on_fp16_fp32 (x : Tensor) :
  (t_dtype x = float16 \/ t_dtype x = float32 ->
     forward x = inr (type_ (super_forward x) (t_dtype x))
     /\ t_dtype (type_ (super_forward x) (t_dtype x)) = t_dtype x)
  /\ (t_dtype x <> float16 /\ t_dtype x <> float32 ->
     forward x = inl (UnboundLocalError "ret"%string)).
Proof.
  split.
  - intros Hd. split; [| apply type_dtype].
    unfold forward.
    destruct Hd as [Hd | Hd]; rewrite Hd; [reflexivity |].
    rewrite <- Hd at 1. now rewrite type_same.
  - intros [H16 H32]. unfold forward.
    destruct (t_dtype x); congruence.
Qed.
End Forward.

(** The two halves at concrete tensors: a float16 and a bfloat16 input over
    integer payloads. *)
Example forward_float16 :
  forward (fun _ _ d => d) (fun _ d => map Z.succ d) (mkTensor float16 [1%Z; 2%Z])
  = inr (mkTensor float16 [2%Z; 3%Z]).
Proof. reflexivity. Qed.

Example forward_bfloat16 :
  forward (fun _ _ d => d) (fun _ d => map Z.succ d) (mkTensor bfloat16 [1%Z; 2%Z])
  = inl (UnboundLocalError "ret"%string).
Proof. reflexivity. Qed.

End LayerNormFp16.

Lemma layer_norm_total_only_on_fp16_fp32_witness :
  LayerNormFp16.forward (fun _ _ d => d) (fun _ d => map Z.succ d)
    (LayerNormFp16.mkTensor LayerNormFp16.float32 [1%Z; 2%Z])
  = inr (LayerNormFp16.mkTensor LayerNormFp16.float32 [2%Z; 3%Z])
  /\ LayerNormFp16.forward (fun _ _ d => d) (fun _ d => map Z.succ d)
    (LayerNormFp16.mkTensor LayerNormFp16.float64 [1%Z; 2%Z])
  = inl (LayerNormFp16.UnboundLocalError "ret"%string).
Proof.
  split.
  - apply (proj1 (LayerNormFp16.layer_norm_total_only_on_fp16_fp32
                    (fun _ _ d => d) (fun _ d => map Z.succ d)
                    (LayerNormFp16.mkTensor LayerNormFp16.float32 [1%Z; 2%Z]))).
    right. reflexivity.
  - apply (proj2 (LayerNormFp16.layer_norm_total_only_on_fp16_fp32
                    (fun _ _ d => d) (fun _ d => map Z.succ d)
                    (LayerNormFp16.mkTensor LayerNormFp16.float64 [1%Z; 2%Z]))).
    split; discriminate.
Defined.

(* ------------------------------------------------------------------ *)
(** * Layer gating of the cross-modal cells ([Block.__init__], [Block.forward]) *)

Module Gating.

(** The cells a layer can own. *)
Inductive cell : Type :=
| CrossST        (* audio_cast: the inline spatial-temporal cross stage *)
| S_T_B_CAST     (* beats_Bsquare: self.s_t_b_cast *)
| S_TEXT_B_CAST  (* beats_Bsquare: self.s_text_b_cast *)
| T_TEXT_B_CAST. (* beats_Bsquare: self.t_text_b_cast *)

(** Reading an attribute [__init__] never set. *)
Inductive error : Type :=
| AttributeError (c : cell).

Section Cells.
(** A token stream, and what each cell computes from the two streams it
    couples. *)
Variable Stream : Type.
Variable cross_st : Stream -> Stream -> Stream * Stream.
Variable s_t_b_cast : Stream -> Stream -> Stream * Stream.
Variable s_text_b_cast : Stream -> Stream -> Stream * Stream.
Variable t_text_b_cast : Stream -> Stream -> Stream * Stream.

(** ** audio_cast.Block *)

Record ac_config : Type := mkAcConfig {
  ac_CA : nat;
  ac_late_fusion : nat
}.

(** The submodules [__init__] creates for layer [num_layer]:
    [if num_layer >= self.CA and num_layer >= late_fusion: ...]. *)
Record ac_block : Type := mkAcBlock {
  ac_num_layer : nat;
  ac_cfg : ac_config;
  ac_cross : option (Stream -> Stream -> Stream * Stream)
}.

Definition ac_guard (cfg : ac_config) (num_layer : nat) : bool :=
  (ac_CA cfg <=? num_layer) && (ac_late_fusion cfg <=? num_layer).

Definition ac_init (cfg : ac_config) (num_layer : nat) : ac_block :=
  mkAcBlock num_layer cfg
    (if ac_guard cfg num_layer then Some cross_st else None).

(** The "Cross Forward" stage of [forward], with the list of cells it
    invoked. *)
Definition ac_cross_forward (blk : ac_block) (s_x t_x : Stream)
  : error + (Stream * Stream * list cell) :=
  if ac_guard (ac_cfg blk) (ac_num_layer blk) then
    match ac_cross blk with
    | Some f => let '(s', t') := f s_x t_x in inr (s', t', [CrossST])
    | None => inl (AttributeError CrossST)
    end
  else inr (s_x, t_x, []).

(** ** beats_Bsquare.Block *)

Record bb_config : Type := mkBbConfig {
  bb_CA : list nat;
  bb_CA_eq : bool
}.

Record bb_block : Type := mkBbBlock {
  bb_num_layer : nat;
  bb_cfg : bb_config;
  bb_s_t : option (Stream -> Stream -> Stream * Stream);
  bb_s_text : option (Stream -> Stream -> Stream * Stream);
  bb_t_text : option (Stream -> Stream -> Stream * Stream)
}.

(** [self.num_layer in self.CA] *)
Definition in_CA (cfg : bb_config) (num_layer : nat) : bool :=
  existsb (Nat.eqb num_layer) (bb_CA cfg).

(** [not self.CA_eq or self.num_layer in self.CA] *)
Definition bb_guard_st (cfg : bb_config) (num_layer : nat) : bool :=
  negb (bb_CA_eq cfg) || in_CA cfg num_layer.

Definition bb_init (cfg : bb_config) (num_layer : nat) : bb_block :=
  mkBbBlock num_layer cfg
    (if bb_guard_st cfg num_layer then Some s_t_b_cast else None)
    (if in_CA cfg num_layer then Some s_text_b_cast else None)
    (if in_CA cfg num_layer then Some t_text_b_cast else None).

Definition bb_stage_st (blk : bb_block) (s_x t_x : Stream)
  : error + (Stream * Stream * list cell) :=
  if bb_guard_st (bb_cfg blk) (bb_num_layer blk) then
    match bb_s_t blk with
    | Some f => let '(s', t') := f s_x t_x in inr (s', t', [S_T_B_CAST])
    | None => inl (AttributeError S_T_B_CAST)
    end
  else inr (s_x, t_x, []).

Definition bb_stage_audio (blk : bb_block) (s_x t_x text : Stream)
  : error + (Stream * Stream * Stream * list cell) :=
  if in_CA (bb_cfg blk) (bb_num_layer blk) then
    match bb_s_text blk, bb_t_text blk with
    | Some f, Some g =>
        let '(s', text') := f s_x text in
        let '(t', text'') := g t_x text' in
        inr (s', t', text'', [S_TEXT_B_CAST; T_TEXT_B_CAST])
    | None, _ => inl (AttributeError S_TEXT_B_CAST)
    | _, None => inl (AttributeError T_TEXT_B_CAST)
    end
  else inr (s_x, t_x, text, []).

(** The "Cross Forward" stage of [forward]:
<<
    if not self.CA_eq or self.num_layer in self.CA:
        s_x, t_x = self.s_t_b_cast(s_x, t_x)
    if self.num_layer in self.CA:
        s_x, text = self.s_text_b_cast(s_x, text)
        t_x, text = self.t_text_b_cast(t_x, text)
>> *)
Definition bb_cross_forward (blk : bb_block) (s_x t_x text : Stream)
  : error + (Stream * Stream * Stream * list cell) :=
  match bb_stage_st blk s_x t_x with
  | inl e => inl e
  | inr (s1, t1, fired1) =>
      match bb_stage_audio blk s1 t1 text with
      | inl e => inl e
      | inr (s2, t2, text2, fired2) => inr (s2, t2, text2, fired1 ++ fired2)
      end
  end.

Lemma in_CA_In (cfg : bb_config) (i : nat) :
  in_CA cfg i = true <-> In i (bb_CA cfg).
Proof.
  unfold in_CA. rewrite existsb_exists. split.
  - intros [x [Hin Heq]]. apply Nat.eqb_eq in Heq. now subst.
  - intros Hin. exists i. split; [assumption | apply Nat.eqb_refl].
Qed.

Lemma ac_guard_spec (cfg : ac_config) (i : nat) :
  ac_guard cfg i = true <-> ac_CA cfg <= i /\ ac_late_fusion cfg <= i.
Proof.
  unfold ac_guard. now rewrite andb_true_iff, !Nat.leb_le.
Qed.

Lemma bb_guard_st_spec (cfg : bb_config) (i : nat) :
  bb_guard_st cfg i = true <-> bb_CA_eq cfg = false \/ In i (bb_CA cfg).
Proof.
  unfold bb_guard_st. now rewrite orb_true_iff, negb_true_iff, in_CA_In.
Qed.

(** The spatial-temporal stage of a constructed beats_Bsquare block. *)
Lemma bb_stage_st_init (cfg : bb_config) (i : nat) (s_x t_x : Stream) :
  bb_stage_st (bb_init cfg i) s_x t_x
  = inr (if bb_guard_st cfg i
         then (fst (s_t_b_cast s_x t_x), snd (s_t_b_cast s_x t_x), [S_T_B_CAST])
         else (s_x, t_x, [])).
Proof.
  unfold bb_stage_st, bb_init; simpl.
  destruct (bb_guard_st cfg i); [| reflexivity].
  now destruct (s_t_b_cast s_x t_x).
Qed.

(** The two audio cells of a constructed beats_Bsquare block. *)
Lemma bb_stage_audio_init (cfg : bb_config) (i : nat) (s_x t_x text : Stream) :
  bb_stage_audio (bb_init cfg i) s_x t_x text
  = inr (if in_CA cfg i
         then (fst (s_text_b_cast s_x text),
               fst (t_text_b_cast t_x (snd (s_text_b_cast s_x text))),
               snd (t_text_b_cast t_x (snd (s_text_b_cast s_x text))),
               [S_TEXT_B_CAST; T_TEXT_B_CAST])
         else (s_x, t_x, text, [])).
Proof.
  unfold bb_stage_audio, bb_init; simpl.
  destruct (in_CA cfg i); [| reflexivity].
  destruct (s_text_b_cast s_x text) as [s2 text1]; simpl.
  now destruct (t_text_b_cast t_x text1).
Qed.

(** C7.  For every layer index [i] of a constructed model the cells of
    layer [i] are invoked exactly when [i] satisfies the static
    configuration (audio_cast: [i >= CA] and [i >= late_fusion];
    beats_Bsquare: the spatial-temporal cell at every layer when [CA_eq] is
    false and only at the layers of [CA] when it is true; the two audio
    cells only at the layers of [CA]); the stage never fails on a
    constructed block, and where the cell of a pair does not fire both
    streams of the pair leave the stage as they entered it. *)
Theorem cells_fire_iff_layer_config :
  (forall (cfg : ac_config) (i : nat) (s_x t_x : Stream),
      exists s' t' fired,
        ac_cross_forward (ac_init cfg i) s_x t_x = inr (s', t', fired)
        /\ (In CrossST fired <-> ac_CA cfg <= i /\ ac_late_fusion cfg <= i)
        /\ (In CrossST fired -> (s', t') = cross_st s_x t_x)
        /\ (~ In CrossST fired -> s' = s_x /\ t' = t_x))
  /\ (forall (cfg : bb_config) (i : nat) (s_x t_x text : Stream),
      exists s1 t1 fired1 s2 t2 text2 fired2,
        bb_stage_st (bb_init cfg i) s_x t_x = inr (s1, t1, fired1)
        /\ bb_stage_audio (bb_init cfg i) s1 t1 text = inr (s2, t2, text2, fired2)
        /\ bb_cross_forward (bb_init cfg i) s_x t_x text
           = inr (s2, t2, text2, fired1 ++ fired2)
        /\ (In S_T_B_CAST (fired1 ++ fired2)
            <-> (if bb_CA_eq cfg then In i (bb_CA cfg) else True))
        /\ (In S_TEXT_B_CAST (fired1 ++ fired2) <-> In i (bb_CA cfg))
        /\ (In T_TEXT_B_CAST (fired1 ++ fired2) <-> In i (bb_CA cfg))
        /\ (In S_T_B_CAST (fired1 ++ fired2) -> (s1, t1) = s_t_b_cast s_x t_x)
        /\ (~ In S_T_B_CAST (fired1 ++ fired2) -> s1 = s_x /\ t1 = t_x)
        /\ (In S_TEXT_B_CAST (fired1 ++ fired2) ->
            (s2, snd (s_text_b_cast s1 text)) = s_text_b_cast s1 text
            /\ (t2, text2) = t_text_b_cast t1 (snd (s_text_b_cast s1 text)))
        /\ (~ In S_TEXT_B_CAST (fired1 ++ fired2) ->
            s2 = s1 /\ t2 = t1 /\ text2 = text)).
Proof.
  split.
  - intros cfg i s_x t_x.
    unfold ac_cross_forward, ac_init; simpl.
    pose proof (ac_guard_spec cfg i) as Hg.
    destruct (ac_guard cfg i).
    + destruct (cross_st s_x t_x) as [s' t'].
      exists s', t', [CrossST]. simpl. intuition auto.
    + exists s_x, t_x, []. simpl. intuition (auto; discriminate).
  - intros cfg i s_x t_x text.
    unfold bb_cross_forward.
    rewrite bb_stage_st_init.
    pose proof (bb_guard_st_spec cfg i) as Hst.
    pose proof (in_CA_In cfg i) as Hin.
    destruct (bb_guard_st cfg i) eqn:Eg;
      destruct (in_CA cfg i) eqn:Ei;
      do 7 eexists;
      (split; [reflexivity |]);
      (split; [rewrite bb_stage_audio_init, Ei; reflexivity |]);
      (split; [rewrite bb_stage_audio_init, Ei; reflexivity |]); simpl;
      destruct (bb_CA_eq cfg);
      repeat match goal with
             | |- context [s_t_b_cast ?a ?b] => destruct (s_t_b_cast a b); simpl
             | |- context [s_text_b_cast ?a ?b] => destruct (s_text_b_cast a b); simpl
             | |- context [t_text_b_cast ?a ?b] => destruct (t_text_b_cast a b); simpl
             end;
      intuition (auto; try discriminate; try congruence).
Qed.
End Cells.

(** A 12-layer beats_Bsquare stack built as [STCrossTransformer] does with
    [CA=9] (so [CA = [9; 10; 11]]), over integer streams, with cells that
    visibly change their streams. *)
Definition demo_cell (k : Z) (l r : Z) : Z * Z := ((l + k)%Z, (r + k)%Z).

Example beats_layer_3_CA_eq :
  bb_cross_forward (bb_init (demo_cell 1) (demo_cell 10) (demo_cell 100)
                      (mkBbConfig [9; 10; 11] true) 3) 0%Z 0%Z 0%Z
  = inr (0%Z, 0%Z, 0%Z, []).
Proof. reflexivity. Qed.

Example beats_layer_3_not_CA_eq :
  bb_cross_forward (bb_init (demo_cell 1) (demo_cell 10) (demo_cell 100)
                      (mkBbConfig [9; 10; 11] false) 3) 0%Z 0%Z 0%Z
  = inr (1%Z, 1%Z, 0%Z, [S_T_B_CAST]).
Proof. reflexivity. Qed.

Example beats_layer_9 :
  bb_cross_forward (bb_init (demo_cell 1) (demo_cell 10) (demo_cell 100)
                      (mkBbConfig [9; 10; 11] true) 9) 0%Z 0%Z 0%Z
  = inr (11%Z, 101%Z, 110%Z, [S_T_B_CAST; S_TEXT_B_CAST; T_TEXT_B_CAST]).
Proof. reflexivity. Qed.

Example audio_cast_layer_2_late_fusion_4 :
  ac_cross_forward (ac_init (demo_cell 1) (mkAcConfig 0 4) 2) 0%Z 0%Z
  = inr (0%Z, 0%Z, []).
Proof. reflexivity. Qed.

(** The audio_cast half of the theorem at layer 5 of a model with
    [late_fusion = 4]. *)
Lemma cells_fire_iff_layer_config_witness :
  exists s' t' fired,
    ac_cross_forward (ac_init (demo_cell 1) (mkAcConfig 0 4) 5) 0%Z 0%Z
    = inr (s', t', fired)
    /\ (In CrossST fired <-> 0 <= 5 /\ 4 <= 5)
    /\ (In CrossST fired -> (s', t') = demo_cell 1 0%Z 0%Z)
    /\ (~ In CrossST fired -> s' = 0%Z /\ t' = 0%Z).
Proof.
  exact (proj1 (cells_fire_iff_layer_config (demo_cell 1) (demo_cell 10)
                  (demo_cell 100) (demo_cell 1000))
               (mkAcConfig 0 4) 5 0%Z 0%Z).
Defined.

End Gating.

(* ------------------------------------------------------------------ *)
(** * The composite-accuracy evaluator ([action_accuracy], [compute_video]) *)

Module ActionAccuracy.

(** A Python float result: tensor division by a zero batch size is [nan],
    not an exception. *)
Inductive float : Type :=
| Num (q : Q)
| NaN.

Definition Qltb (a b : Q) : bool := negb (Qle_bool b a).

(** ** [Tensor.topk(k, 1, True, True)]: indices of the [k] largest entries
    of a row, largest first.  PyTorch leaves the order of equal entries
    open; here the lower index comes first. *)
Fixpoint insert_desc (x : Q * nat) (l : list (Q * nat)) : list (Q * nat) :=
  match l with
  | [] => [x]
  | y :: l' => if Qltb (fst x) (fst y) then y :: insert_desc x l' else x :: l
  end.

Definition sort_desc (l : list (Q * nat)) : list (Q * nat) :=
  fold_right insert_desc [] l.

Definition argsort_desc (row : list Q) : list nat :=
  map snd (sort_desc (combine row (seq 0 (length row)))).

(** [None]: "selected index k out of range". *)
Definition topk (k : nat) (row : list Q) : option (list nat) :=
  if k <=? length row then Some (firstn k (argsort_desc row)) else None.

(** ** Broadcasting of the batch axis by an elementwise operation on two
    [B, k] tensors: equal sizes, or one of them 1. *)
Fixpoint zip_with {A B C : Type} (f : A -> B -> C) (l1 : list A) (l2 : list B)
  : list C :=
  match l1, l2 with
  | a :: l1', b :: l2' => f a b :: zip_with f l1' l2'
  | _, _ => []
  end.

Definition bcast2 {A B C : Type} (f : A -> B -> C) (l1 : list A) (l2 : list B)
  : option (list C) :=
  if length l1 =? length l2 then Some (zip_with f l1 l2)
  else match l1, l2 with
       | [a], _ => Some (map (f a) l2)
       | _, [b] => Some (map (fun a => f a b) l1)
       | _, _ => None
       end.

(** [t.reshape(1, -1).expand_as(pred)] (or [t.reshape(-1, 1)...]) along the
    batch axis of a prediction with [n] examples: the sizes agree, or the
    target has a single entry. *)
Definition expand_to {A : Type} (l : list A) (n : nat) : option (list A) :=
  if length l =? n then Some l
  else match l with
       | [a] => Some (repeat a n)
       | _ => None
       end.

(** [x.t()] of a [B, k] tensor given by its rows. *)
Definition transpose (k : nat) (rows : list (list nat)) : list (list nat) :=
  map (fun j => map (fun r => nth j r 0) rows) (seq 0 k).

(** [max(topk)]; [None]: [ValueError] on an empty tuple. *)
Definition max_of (topk : list nat) : option nat :=
  match topk with
  | [] => None
  | k :: ks => Some (fold_left Nat.max ks k)
  end.

Definition count_true (l : list bool) : nat := length (filter (fun b => b) l).

(** [n * 100. / batch_size] *)
Definition percent (n batch_size : nat) : float :=
  if batch_size =? 0 then NaN
  else Num (Qred (inject_Z (Z.of_nat n * 100) / inject_Z (Z.of_nat batch_size))).

(** [action_accuracy]:
<<
    maxk = max(topk)
    batch_size = target.size(0)
    _, pred_noun = output_noun.topk(maxk, 1, True, True)
    _, pred_verb = output_verb.topk(maxk, 1, True, True)
    pred = (pred_verb * 1000) + pred_noun
    pred = pred.t()
    correct = pred.eq(target.reshape(1, -1).expand_as(pred))
    return [correct[:k].reshape(-1).float().sum(0) * 100. / batch_size for k in topk]
>>
    The sum of two [B, maxk] index tensors is elementwise: entry [j] of a
    row of [pred] pairs the verb of rank [j] with the noun of rank [j]. *)
Definition action_accuracy (output_noun output_verb : list (list Q))
    (target : list nat) (topk_ : list nat) : option (list float) :=
  maxk <- max_of topk_ ;;
  let batch_size := length target in
  pred_noun <- omap (topk maxk) output_noun ;;
  pred_verb <- omap (topk maxk) output_verb ;;
  pred <- bcast2 (zip_with (fun v n => v * 1000 + n)) pred_verb pred_noun ;;
  let pred_t := transpose maxk pred in
  target' <- expand_to target (length pred) ;;
  let correct := map (fun row => zip_with Nat.eqb row target') pred_t in
  Some (map (fun k => percent (count_true (concat (firstn k correct))) batch_size)
            topk_).

(** ** The procedure as the specification words it: every verb of rank below
    [k] combined with every noun of rank below [k] is a candidate, and a row
    counts when its target is one of the [k * k] candidates. *)
Definition cartesian_candidates (k : nat) (verb_top noun_top : list nat) : list nat :=
  flat_map (fun v => map (fun n => v * 1000 + n) (firstn k noun_top))
           (firstn k verb_top).

Definition row_hit_cartesian (k : nat) (verb_top noun_top : list nat) (t : nat) : bool :=
  existsb (Nat.eqb t) (cartesian_candidates k verb_top noun_top).

Definition action_accuracy_cartesian (output_noun output_verb : list (list Q))
    (target : list nat) (topk_ : list nat) : option (list float) :=
  maxk <- max_of topk_ ;;
  pred_noun <- omap (topk maxk) output_noun ;;
  pred_verb <- omap (topk maxk) output_verb ;;
  Some (map (fun k =>
               percent (count_true
                          (zip_with (fun vn t => row_hit_cartesian k (fst vn) (snd vn) t)
                                    (combine pred_verb pred_noun) target))
                       (length target))
            topk_).

(** ** The sibling path, [compute_video], on one averaged score vector per
    head:
<<
    top5_action = (int(label_noun) in np.argsort(-feat_noun)[:5]
                   and int(label_verb) in np.argsort(-feat_verb)[:5]) * 1.0
>> *)
Definition compute_video_top5_action (feat_noun feat_verb : list Q)
    (label_noun label_verb : nat) : bool :=
  existsb (Nat.eqb label_noun) (firstn 5 (argsort_desc feat_noun))
  && existsb (Nat.eqb label_verb) (firstn 5 (argsort_desc feat_verb)).

(** A batch of one clip with five nouns and five verbs: the noun of the
    target is ranked first, its verb second. *)
Definition demo_noun : list (list Q) := [[1#10; 9#10; 5#10; 3#10; 2#10]%Q].
Definition demo_verb : list (list Q) := [[9#10; 1#10; 5#10; 3#10; 2#10]%Q].
Definition demo_target : list nat := [2 * 1000 + 1].

Example demo_topk_noun : omap (topk 5) demo_noun = Some [[1; 2; 3; 4; 0]].
Proof. reflexivity. Qed.

Example demo_topk_verb : omap (topk 5) demo_verb = Some [[0; 2; 3; 4; 1]].
Proof. reflexivity. Qed.

(** The example of the specification: target 5003, noun ranks [3,1,2,4,5],
    verb ranks [5,0,1,2,3]; top-1 and top-5 are both 100. *)
Example spec_example_5003 :
  action_accuracy
    [[0; 4#1; 3#1; 5#1; 2#1; 1#1]%Q] [[4#1; 3#1; 2#1; 1#1; 0; 5#1]%Q]
    [5 * 1000 + 3] [1; 5]
  = Some [Num (100#1); Num (100#1)].
Proof. reflexivity. Qed.

(** C1.  On a clip whose target verb is ranked second and whose target noun
    is ranked first, [action_accuracy] reports 0 for top-5: its candidates
    are the five equal-rank pairs only.  The candidates the specification describes
    (all 25 combinations) contain the target and give 100, and so does the
    top-5 rule of [compute_video] on the same scores. *)
Theorem action_accuracy_pairs_equal_ranks_only :
  action_accuracy demo_noun demo_verb demo_target [1; 5]
    = Some [Num 0; Num 0]
  /\ action_accuracy_cartesian demo_noun demo_verb demo_target [1; 5]
    = Some [Num 0; Num (100#1)]
  /\ compute_video_top5_action (hd [] demo_noun) (hd [] demo_verb) 1 2 = true.
Proof. repeat split; reflexivity. Qed.

End ActionAccuracy.

(* ------------------------------------------------------------------ *)
(** * The per-verb decoding branch of [final_test] (engine_for_both_prompt) *)

Module FinalTest.
Import ActionAccuracy.

(** [x.shape[-1]] of a two-dimensional tensor given by its rows. *)
Definition width {A : Type} (rows : list (list A)) : nat :=
  match rows with
  | [] => 0
  | r :: _ => length r
  end.

(** One example of the branch [len(nounlist) != noun_logits.shape[-1]]:
<<
    _, pred_actions = noun_logits.topk(1,1,True,True)
    pred_nouns = pred_actions % 300
    verb_target = (pred_actions // 300)
    pred_verbs = pred_verb[torch.arange(pred_verb.size(0)), verb_target.squeeze(1)].unsqueeze(1)
    pred_actions = (pred_verbs * 300) + pred_nouns
>>
    [pred_verb_row] is the example's row of [pred_verb], the top-1 index of
    the verb logits; reading it at column [verb_target] is an [IndexError]
    past its end.  The result is [(pred_nouns, pred_verbs, pred_actions)]. *)
Definition decode_row (noun_row : list Q) (pred_verb_row : list nat)
  : option (nat * nat * nat) :=
  top <- topk 1 noun_row ;;
  let pred_actions := hd 0 top in
  let pred_nouns := pred_actions mod 300 in
  let verb_target := pred_actions / 300 in
  pred_verbs <- nth_error pred_verb_row verb_target ;;
  Some (pred_nouns, pred_verbs, pred_verbs * 300 + pred_nouns).


Record metrics : Type := mkMetrics {
  acc1_action : float;
  acc1_noun : float;
  acc1_verb : float;
  acc5_noun : float;
  acc5_verb : float
}.

Inductive outcome : Type :=
| Decoded (m : metrics)
  (* the branch above *)
| Composed (acc_action : list float).
  (* the [else] branch: [action_accuracy(noun_logits, outputs_verb,
     action_target, topk=(1,5))]; its two calls of timm's [accuracy] are
     outside the repository *)



(** A noun row of width 300 whose largest entry sits at index [p]. *)
Definition peak_row (p : nat) : list Q :=
  map (fun i => if i =? p then 1%Q else 0%Q) (seq 0 300).

Example decode_peak_5 : decode_row (peak_row 5) [7] = Some (5, 7, 2105).
Proof. vm_compute. reflexivity. Qed.

(** ** Facts about [topk] *)

Lemma insert_desc_In (x y : Q * nat) (l : list (Q * nat)) :
  In y (insert_desc x l) <-> y = x \/ In y l.
Proof.
  induction l as [| z l IH]; simpl.
  - intuition auto.
  - destruct (Qltb (fst x) (fst z)); simpl; rewrite ?IH; intuition auto.
Qed.

Lemma sort_desc_In (y : Q * nat) (l : list (Q * nat)) :
  In y (sort_desc l) <-> In y l.
Proof.
  induction l as [| x l IH]; simpl; [tauto |].
  rewrite insert_desc_In, IH. intuition auto.
Qed.

Lemma insert_desc_length (x : Q * nat) (l : list (Q * nat)) :
  length (insert_desc x l) = S (length l).
Proof.
  induction l as [| z l IH]; simpl; [reflexivity |].
  destruct (Qltb (fst x) (fst z)); simpl; now rewrite ?IH.
Qed.

Lemma sort_desc_length (l : list (Q * nat)) : length (sort_desc l) = length l.
Proof.
  induction l as [| x l IH]; simpl; [reflexivity |].
  now rewrite insert_desc_length, IH.
Qed.

Lemma argsort_desc_length (row : list Q) :
  length (argsort_desc row) = length row.
Proof.
  unfold argsort_desc.
  rewrite length_map, sort_desc_length, length_combine, length_seq.
  apply Nat.min_id.
Qed.

Lemma argsort_desc_bound (row : list Q) (p : nat) :
  In p (argsort_desc row) -> p < length row.
Proof.
  unfold argsort_desc. rewrite in_map_iff.
  intros [[q i] [Hp Hin]]. simpl in Hp. subst i.
  rewrite sort_desc_In in Hin. apply in_combine_r in Hin.
  apply in_seq in Hin. lia.
Qed.

(** The top-1 index of a non-empty row exists and lies inside the row. *)
Lemma topk_1_index (row : list Q) :
  0 < length row -> exists p, topk 1 row = Some [p] /\ p < length row.
Proof.
  intros Hlen. unfold topk.
  destruct (1 <=? length row) eqn:E; [| apply Nat.leb_gt in E; lia].
  pose proof (argsort_desc_length row) as Hl.
  pose proof (argsort_desc_bound row) as Hb.
  destruct (argsort_desc row) as [| p rest]; [simpl in Hl; lia |].
  exists p. split; [reflexivity |]. apply Hb. now left.
Qed.

(** The index [topk(1, ...)] selects. *)
Definition top1 (row : list Q) : nat := hd 0 (argsort_desc row).

Lemma topk_1_top1 (row : list Q) :
  0 < length row -> topk 1 row = Some [top1 row] /\ top1 row < length row.
Proof.
  intros Hlen. unfold topk, top1.
  destruct (1 <=? length row) eqn:E; [| apply Nat.leb_gt in E; lia].
  pose proof (argsort_desc_length row) as Hl.
  pose proof (argsort_desc_bound row) as Hb.
  destruct (argsort_desc row) as [| p rest]; [simpl in Hl; lia |].
  split; [reflexivity |]. apply Hb. now left.
Qed.




(** Reading the verb column past the single entry of the row fails. *)
Lemma decode_row_index_error (noun_row : list Q) (v : nat) :
  0 < length noun_row -> 300 <= top1 noun_row -> decode_row noun_row [v] = None.
Proof.
  intros Hlen Hp.
  destruct (topk_1_top1 noun_row) as [Htop _]; [assumption |].
  unfold decode_row. rewrite Htop. unfold obind at 1. cbn [hd].
  assert (Hq : 1 <= top1 noun_row / 300).
  { apply Nat.div_le_lower_bound; lia. }
  destruct (top1 noun_row / 300) as [| k]; [lia |].
  now destruct k.
Qed.







End FinalTest.

(* ------------------------------------------------------------------ *)
(** * Batched prototype selection ([composition_train_class_batch],
      [validation_one_epoch] of engine_for_both_prompt) *)

Module Prototypes.

(** ** [torch.unique(x, sorted=True, return_inverse=True)] *)
Fixpoint insert_uniq (v : nat) (l : list nat) : list nat :=
  match l with
  | [] => [v]
  | y :: l' =>
      if v <? y then v :: l
      else if v =? y then l
      else y :: insert_uniq v l'
  end.

Definition unique_sorted (l : list nat) : list nat :=
  fold_right insert_uniq [] l.

Fixpoint index_of (v : nat) (l : list nat) : nat :=
  match l with
  | [] => 0
  | y :: l' => if v =? y then 0 else S (index_of v l')
  end.

Definition unique (x : list nat) : list nat * list nat :=
  let uniq := unique_sorted x in
  (uniq, map (fun v => index_of v uniq) x).

(** ** [Tensor.view]: regrouping of the flattened elements *)
Fixpoint chunks_fuel {X : Type} (fuel n : nat) (l : list X) : list (list X) :=
  match fuel with
  | 0 => []
  | S fuel' =>
      match l with
      | [] => []
      | _ :: _ => firstn n l :: chunks_fuel fuel' n (skipn n l)
      end
  end.

Definition chunks {X : Type} (n : nat) (l : list X) : list (list X) :=
  chunks_fuel (length l) n l.

(** [t.view(-1, 300, 512)] of a two-dimensional tensor given by its rows.
    [None]: the element count is zero (the [-1] is ambiguous) or is not a
    multiple of [300 * 512]. *)
Definition view_300_512 {X : Type} (rows : list (list X))
  : option (list (list (list X))) :=
  let flat := concat rows in
  if length flat =? 0 then None
  else if length flat mod (300 * 512) =? 0
       then Some (chunks 300 (chunks 512 flat))
       else None.

Section Selection.
(** The scalars of an embedding, the external text encoder
    ([model.text_encoder(names, opt='action')], one row per name) and the
    list of action names, 300 per verb. *)
Variable X : Type.
Variable text_encoder : list string -> list (list X).
Variable actionlist : list string.

(** [actionlist[verb*300 : (verb+1)*300]]: a Python slice stops at the end
    of the list. *)
Definition slice (verb : nat) : list string :=
  firstn ((verb + 1) * 300 - verb * 300) (skipn (verb * 300) actionlist).

(** The shared part of the three call sites:
<<
    uniqverb, verb_targets = torch.unique(verbs, sorted=True, return_inverse=True)
    action_list = []
    for verb in uniqverb:
        action_list += actionlist[verb*300 : (verb+1)*300]
    nounFeature = model.text_encoder(action_list, opt='action')
    nounFeature = nounFeature.view(-1, 300, 512)
>> *)
Definition action_list_of (uniqverb : list nat) : list string :=
  flat_map slice uniqverb.

Definition prototype_groups (verbs : list nat)
  : option (list (list (list X)) * list nat) :=
  let '(uniqverb, verb_targets) := unique verbs in
  let action_list := action_list_of uniqverb in
  let nounFeature := text_encoder action_list in
  groups <- view_300_512 nounFeature ;;
  Some (groups, verb_targets).

(** Training: [nounFeature.view(-1, 300, 512)[verb_targets]] with
    [verbs = target_verb] of shape [B]; one [300 x 512] matrix per
    example. *)
Definition train_prototypes (target_verb : list nat)
  : option (list (list (list X))) :=
  r <- prototype_groups target_verb ;;
  omap (fun i => nth_error (fst r) i) (snd r).

(** Evaluation: [pred_verb] has shape [B, 1] (in general [B, k]);
    [torch.unique] flattens it and [verb_targets] keeps its shape, so the
    indexing gives [B, k, 300, 512] and [.view(batch_size, -1, 512)] joins
    the [k] groups of an example. *)
Fixpoint reshape_like {Y Z : Type} (shape : list (list Y)) (flat : list Z)
  : list (list Z) :=
  match shape with
  | [] => []
  | row :: shape' =>
      firstn (length row) flat :: reshape_like shape' (skipn (length row) flat)
  end.

Definition eval_prototypes (pred_verb : list (list nat))
  : option (list (list (list X))) :=
  r <- prototype_groups (concat pred_verb) ;;
  let verb_targets := reshape_like pred_verb (snd r) in
  omap (fun row => gs <- omap (fun i => nth_error (fst r) i) row ;;
                   Some (concat gs))
       verb_targets.

(** ** The direct computation the batched one stands for: embed the slice
    of each example's verb on its own. *)
Definition direct_prototype (verb : nat) : list (list X) :=
  text_encoder (slice verb).

Definition direct_prototypes (verbs : list nat) : list (list (list X)) :=
  map direct_prototype verbs.
End Selection.

(** ** Facts about [unique] *)

Lemma insert_uniq_In (v x : nat) (l : list nat) :
  In x (insert_uniq v l) <-> x = v \/ In x l.
Proof.
  induction l as [| y l IH]; simpl; [intuition auto |].
  destruct (v <? y); simpl; [intuition auto |].
  destruct (v =? y) eqn:E; simpl.
  - apply Nat.eqb_eq in E. subst. intuition auto.
  - rewrite IH. intuition auto.
Qed.

Lemma unique_sorted_In (x : nat) (l : list nat) :
  In x (unique_sorted l) <-> In x l.
Proof.
  induction l as [| v l IH]; simpl; [tauto |].
  rewrite insert_uniq_In, IH. intuition auto.
Qed.

(** Strictly increasing lists. *)
Fixpoint increasing (l : list nat) : Prop :=
  match l with
  | [] => True
  | x :: l' => (forall y, In y l' -> x < y) /\ increasing l'
  end.

Lemma insert_uniq_increasing (v : nat) (l : list nat) :
  increasing l -> increasing (insert_uniq v l).
Proof.
  induction l as [| y l IH]; simpl; [intuition auto |].
  intros [Hy Hl].
  destruct (v <? y) eqn:Elt; simpl.
  - apply Nat.ltb_lt in Elt. repeat split; auto.
    intros z [-> | Hz]; [assumption |]. specialize (Hy z Hz). lia.
  - apply Nat.ltb_ge in Elt.
    destruct (v =? y) eqn:Eeq; simpl; [auto |].
    apply Nat.eqb_neq in Eeq. split; [| auto].
    intros z Hz. apply insert_uniq_In in Hz.
    destruct Hz as [-> | Hz]; [lia | auto].
Qed.

Lemma unique_sorted_increasing (l : list nat) : increasing (unique_sorted l).
Proof.
  induction l as [| v l IH]; simpl; [exact I |].
  now apply insert_uniq_increasing.
Qed.

Lemma increasing_NoDup (l : list nat) : increasing l -> NoDup l.
Proof.
  induction l as [| x l IH]; simpl; [constructor |].
  intros [Hx Hl]. constructor; [| auto].
  intros Hin. specialize (Hx x Hin). lia.
Qed.

Lemma nth_error_index_of (v : nat) (l : list nat) :
  In v l -> nth_error l (index_of v l) = Some v.
Proof.
  induction l as [| y l IH]; simpl; [tauto |].
  destruct (v =? y) eqn:E.
  - apply Nat.eqb_eq in E. now subst.
  - apply Nat.eqb_neq in E. intros [H | H]; [congruence | auto].
Qed.

(** ** Facts about [chunks] *)

Lemma chunks_fuel_concat {X : Type} (n : nat) (gs : list (list X)) (fuel : nat) :
  0 < n -> Forall (fun g => length g = n) gs -> length gs <= fuel ->
  chunks_fuel fuel n (concat gs) = gs.
Proof.
  intros Hn. revert fuel.
  induction gs as [| g gs IH]; intros fuel Hall Hfuel; simpl.
  - now destruct fuel.
  - inversion Hall as [| ? ? Hg Hgs]; subst.
    destruct fuel as [| fuel]; [simpl in Hfuel; lia |].
    simpl in Hfuel. simpl.
    destruct (g ++ concat gs) as [| x rest] eqn:E.
    + apply (f_equal (@length X)) in E. rewrite length_app in E.
      simpl in E. lia.
    + rewrite <- E.
      rewrite firstn_app, Nat.sub_diag, firstn_all. simpl.
      rewrite app_nil_r.
      rewrite skipn_app, Nat.sub_diag, skipn_all. simpl.
      rewrite IH by (auto; lia). reflexivity.
Qed.

Lemma length_concat_uniform {X : Type} (n : nat) (gs : list (list X)) :
  Forall (fun g => length g = n) gs -> length (concat gs) = n * length gs.
Proof.
  induction 1 as [| g gs Hg _ IH]; simpl; [lia |].
  rewrite length_app, IH, Hg. lia.
Qed.

Lemma chunks_concat {X : Type} (n : nat) (gs : list (list X)) :
  0 < n -> Forall (fun g => length g = n) gs -> chunks n (concat gs) = gs.
Proof.
  intros Hn Hall. unfold chunks. apply chunks_fuel_concat; auto.
  rewrite (length_concat_uniform Hall). nia.
Qed.

Section SelectionFacts.
Variable X : Type.
Variable text_encoder : list string -> list (list X).
Variable actionlist : list string.

(** The contract of the text encoder: one row of width 512 per name, each
    row a function of its name alone. *)
Hypothesis encoder_rows :
  forall names, length (text_encoder names) = length names.
Hypothesis encoder_width :
  forall names, Forall (fun r => length r = 512) (text_encoder names).
Hypothesis encoder_rowwise :
  forall l1 l2, text_encoder (l1 ++ l2) = text_encoder l1 ++ text_encoder l2.

Let in_range (v : nat) : Prop := (v + 1) * 300 <= length actionlist.
Let direct := direct_prototype text_encoder actionlist.

Lemma text_encoder_nil : text_encoder [] = [].
Proof.
  specialize (encoder_rows []). simpl in encoder_rows.
  now destruct (text_encoder []).
Qed.

Lemma slice_length (v : nat) :
  in_range v -> length (slice actionlist v) = 300.
Proof.
  unfold in_range, slice. intros Hv.
  rewrite length_firstn, length_skipn. lia.
Qed.

Lemma direct_rows (v : nat) : in_range v -> length (direct v) = 300.
Proof.
  intros Hv. unfold direct, direct_prototype.
  rewrite encoder_rows. now apply slice_length.
Qed.

Lemma encoder_action_list (us : list nat) :
  text_encoder (action_list_of actionlist us) = concat (map direct us).
Proof.
  unfold action_list_of.
  induction us as [| u us IH]; simpl; [apply text_encoder_nil |].
  now rewrite encoder_rowwise, IH.
Qed.

Lemma concat_width (us : list nat) :
  Forall (fun r => length r = 512) (concat (map direct us)).
Proof.
  induction us as [| u us IH]; simpl; [constructor |].
  apply Forall_app. split; [apply encoder_width | assumption].
Qed.

Lemma view_groups (us : list nat) :
  us <> [] -> Forall in_range us ->
  view_300_512 (text_encoder (action_list_of actionlist us))
  = Some (map direct us).
Proof.
  intros Hne Hr. rewrite encoder_action_list. unfold view_300_512.
  assert (Hg : Forall (fun g => length g = 300) (map direct us)).
  { apply Forall_map. eapply Forall_impl; [| exact Hr].
    intros v Hv. now apply direct_rows. }
  pose proof (concat_width us) as Hw.
  rewrite (length_concat_uniform Hw), (length_concat_uniform Hg), length_map.
  assert (Hlen : 0 < length us) by (destruct us; [congruence | simpl; lia]).
  destruct (512 * (300 * length us) =? 0) eqn:E0;
    [apply Nat.eqb_eq in E0; lia |].
  replace (512 * (300 * length us)) with (length us * (300 * 512)) by lia.
  rewrite Nat.Div0.mod_mul, Nat.eqb_refl.
  rewrite (chunks_concat (n := 512)) by (auto; lia).
  rewrite (chunks_concat (n := 300)) by (auto; lia).
  reflexivity.
Qed.

Lemma prototype_groups_ok (verbs : list nat) :
  verbs <> [] -> Forall in_range verbs ->
  prototype_groups text_encoder actionlist verbs
  = Some (map direct (unique_sorted verbs),
          map (fun v => index_of v (unique_sorted verbs)) verbs).
Proof.
  intros Hne Hr. unfold prototype_groups, unique.
  rewrite view_groups; [reflexivity | |].
  - destruct verbs as [| v vs]; [congruence |].
    intros Hnil.
    assert (Hin : In v (unique_sorted (v :: vs)))
      by (apply unique_sorted_In; now left).
    rewrite Hnil in Hin. contradiction.
  - rewrite Forall_forall in *. intros v Hv.
    apply Hr. now apply unique_sorted_In.
Qed.

Lemma lookup_group (verbs : list nat) (v : nat) :
  In v verbs ->
  nth_error (map direct (unique_sorted verbs)) (index_of v (unique_sorted verbs))
  = Some (direct v).
Proof.
  intros Hin. rewrite nth_error_map, nth_error_index_of; [reflexivity |].
  now apply unique_sorted_In.
Qed.

Lemma action_list_length (us : list nat) :
  Forall in_range us -> length (action_list_of actionlist us) = 300 * length us.
Proof.
  unfold action_list_of.
  induction 1 as [| u us Hu _ IH]; simpl; [reflexivity |].
  rewrite length_app, IH, slice_length by assumption. lia.
Qed.

Lemma reshape_like_singletons {Z : Type} (verbs : list nat) (f : nat -> Z) :
  reshape_like (map (fun v => [v]) verbs) (map f verbs)
  = map (fun v => [f v]) verbs.
Proof.
  induction verbs as [| v vs IH]; simpl; [reflexivity |].
  now rewrite IH.
Qed.

Lemma concat_singletons (verbs : list nat) :
  concat (map (fun v => [v]) verbs) = verbs.
Proof.
  induction verbs as [| v vs IH]; simpl; [reflexivity |]. now rewrite IH.
Qed.

(** C3.  For every batch of verb ids (the targets in training, the
    [B, 1] top-1 predictions in evaluation) whose 300-name slices lie
    inside [actionlist], the per-example prototype matrices obtained from
    the sorted unique verbs, one embedding call on their joined slices and
    the unique-inverse lookup are the matrices obtained by embedding the
    slice of each example's verb on its own; the names sent to the encoder
    are 300 per distinct verb of the batch, whatever the repetitions. *)
Theorem batched_prototypes_equal_direct (verbs : list nat) :
  verbs <> [] ->
  Forall (fun v => (v + 1) * 300 <= length actionlist) verbs ->
  train_prototypes text_encoder actionlist verbs
    = Some (direct_prototypes text_encoder actionlist verbs)
  /\ eval_prototypes text_encoder actionlist (map (fun v => [v]) verbs)
    = Some (direct_prototypes text_encoder actionlist verbs)
  /\ NoDup (fst (unique verbs))
  /\ (forall v, In v (fst (unique verbs)) <-> In v verbs)
  /\ length (action_list_of actionlist (fst (unique verbs)))
     = 300 * length (fst (unique verbs)).
Proof.
  intros Hne Hr.
  assert (Hlook : Forall (fun v =>
            nth_error (map direct (unique_sorted verbs))
                      (index_of v (unique_sorted verbs)) = Some (direct v)) verbs).
  { apply Forall_forall. intros v Hv. now apply lookup_group. }
  repeat split.
  - unfold train_prototypes. rewrite prototype_groups_ok by assumption.
    simpl. now apply omap_map_pointwise.
  - unfold eval_prototypes. rewrite concat_singletons.
    rewrite prototype_groups_ok by assumption. simpl.
    rewrite reshape_like_singletons.
    apply omap_map_pointwise.
    eapply Forall_impl; [| exact Hlook].
    intros v Hv. simpl. rewrite Hv. simpl. now rewrite app_nil_r.
  - simpl. apply increasing_NoDup, unique_sorted_increasing.
  - simpl. apply unique_sorted_In.
  - simpl. apply unique_sorted_In.
  - simpl. apply action_list_length.
    rewrite Forall_forall in *. intros v Hv.
    apply Hr. now apply unique_sorted_In.
Qed.
End SelectionFacts.

(** A batch with a repeated verb over a two-verb action list; the encoder
    maps a name to 512 copies of its length. *)
Definition demo_encoder (names : list string) : list (list nat) :=
  map (fun name => repeat (String.length name) 512) names.

Definition demo_actionlist : list string :=
  map (fun i => if i <? 300 then "open"%string else "close x"%string) (seq 0 600).

Lemma batched_prototypes_equal_direct_witness :
  train_prototypes demo_encoder demo_actionlist [1; 0; 1]
    = Some (direct_prototypes demo_encoder demo_actionlist [1; 0; 1])
  /\ eval_prototypes demo_encoder demo_actionlist (map (fun v => [v]) [1; 0; 1])
    = Some (direct_prototypes demo_encoder demo_actionlist [1; 0; 1])
  /\ NoDup (fst (unique [1; 0; 1]))
  /\ (forall v, In v (fst (unique [1; 0; 1])) <-> In v [1; 0; 1])
  /\ length (action_list_of demo_actionlist (fst (unique [1; 0; 1])))
     = 300 * length (fst (unique [1; 0; 1])).
Proof.
  apply (@batched_prototypes_equal_direct nat demo_encoder demo_actionlist).
  - intros names. unfold demo_encoder. apply length_map.
  - intros names. unfold demo_encoder. apply Forall_map, Forall_forall.
    intros name _. apply repeat_length.
  - intros l1 l2. unfold demo_encoder. apply map_app.
  - discriminate.
  - repeat constructor; vm_compute; lia.
Defined.

End Prototypes.

(* ------------------------------------------------------------------ *)
(** * Cosine-similarity logits ([composition_train_class_batch] of both
      engines), over the real numbers *)

Module CosineLogits.
Local Open Scope R_scope.

Fixpoint dot (x y : list R) : R :=
  match x, y with
  | a :: x', b :: y' => a * b + dot x' y'
  | _, _ => 0
  end.

(** [x.norm(dim=-1, keepdim=True)] *)
Definition norm (x : list R) : R := sqrt (dot x x).

(** [x / x.norm(dim=-1, keepdim=True)] on one row *)
Definition normalize (x : list R) : list R := map (fun a => a / norm x) x.

Definition scale (c : R) (x : list R) : list R := map (fun a => c * a) x.

Definition temperature : R := 7 / 100.

(** One row of [outputs_noun @ nounFeature.t() / 0.07], both operands
    normalised: the branch for a two-dimensional [nounFeature]. *)
Definition logits_matmul (feature : list R) (prototypes : list (list R)) : list R :=
  let outputs_noun := normalize feature in
  let nounFeature := map normalize prototypes in
  map (fun p => dot outputs_noun p / temperature) nounFeature.

(** One example of
    [torch.bmm(nounFeature, outputs_noun.unsqueeze(-1)).squeeze(-1) / 0.07]:
    the branch for a per-example prototype matrix. *)
Definition logits_bmm (feature : list R) (prototypes : list (list R)) : list R :=
  let outputs_noun := normalize feature in
  let nounFeature := map normalize prototypes in
  map (fun p => dot p outputs_noun / temperature) nounFeature.

(** The prototypes reaching the logits: one table for the batch
    ([nounFeature.dim() == 2]) or one matrix per example. *)
Inductive prototype_tensor : Type :=
| Shared (table : list (list R))
| PerExample (matrices : list (list (list R))).

Fixpoint zip_rows (xs : list (list R)) (ms : list (list (list R))) : list (list R) :=
  match xs, ms with
  | x :: xs', m :: ms' => logits_bmm x m :: zip_rows xs' ms'
  | _, _ => []
  end.

Definition noun_logits (outputs_noun : list (list R)) (nounFeature : prototype_tensor)
  : list (list R) :=
  match nounFeature with
  | Shared table => map (fun x => logits_matmul x table) outputs_noun
  | PerExample matrices => zip_rows outputs_noun matrices
  end.

Lemma dot_scale (c : R) (x y : list R) :
  dot (scale c x) (scale c y) = c * c * dot x y.
Proof.
  revert y. induction x as [| a x IH]; intros [| b y]; simpl; try ring.
  fold (scale c x) (scale c y). rewrite IH. ring.
Qed.

Lemma dot_self_nonneg (x : list R) : 0 <= dot x x.
Proof.
  induction x as [| a x IH]; simpl; [lra |].
  pose proof (Rle_0_sqr a) as Ha. unfold Rsqr in Ha. lra.
Qed.

Lemma norm_scale (c : R) (x : list R) : 0 < c -> norm (scale c x) = c * norm x.
Proof.
  intros Hc. unfold norm. rewrite dot_scale.
  rewrite sqrt_mult; [| nra | apply dot_self_nonneg].
  fold (Rsqr c). rewrite sqrt_Rsqr; lra.
Qed.

Lemma normalize_scale (c : R) (x : list R) :
  0 < c -> norm x <> 0 -> normalize (scale c x) = normalize x.
Proof.
  intros Hc Hn. unfold normalize. rewrite norm_scale by assumption.
  unfold scale. rewrite map_map. apply map_ext.
  intros a. field. split; lra.
Qed.


(** The same for a whole batch scaled by one positive factor. *)
Corollary noun_logits_invariant (c : R) (outputs_noun : list (list R))
    (nounFeature : prototype_tensor) :
  0 < c -> Forall (fun x => norm x <> 0) outputs_noun ->
  noun_logits (map (scale c) outputs_noun) nounFeature
  = noun_logits outputs_noun nounFeature.
Proof.
  intros Hc Hall. destruct nounFeature as [table | matrices]; simpl.
  - rewrite map_map. apply map_ext_Forall.
    eapply Forall_impl; [| exact Hall].
    intros x Hx. simpl. unfold logits_matmul.
    now rewrite normalize_scale.
  - revert matrices.
    induction Hall as [| x xs Hx _ IH]; intros [| m ms]; simpl; try reflexivity.
    rewrite IH. unfold logits_bmm. now rewrite normalize_scale.
Qed.



End CosineLogits.

(* ------------------------------------------------------------------ *)
(** * The heads of [STCrossTransformer.forward] (audio_cast) *)

Module Heads.

Record config : Type := mkConfig {
  composition : bool;
  audio_enabled : bool;
  time_encoding : bool;       (* as passed to [__init__] *)
  pre_time_encoding : bool
}.

(** [self.time_encoding = time_encoding if not self.pre_time_encoding else False] *)
Definition self_time_encoding (cfg : config) : bool :=
  if pre_time_encoding cfg then false else time_encoding cfg.

Inductive error : Type :=
| AttributeError.  (* [idx.reshape] with [idx=None] *)

Section Forward.
(** Pooled features and logits [T]; the inputs; the submodules of the model
    (its parameters), each as the function it computes.  Both constructions
    create the same submodules: [audio_enabled] only selects the branch of
    [forward] ([if audio_enabled is not None] holds for [True] and [False]
    alike). *)
Variables T Video Spec Idx TimeEnc : Type.
Variable add : T -> T -> T.
Variable div2 : T -> T.
Variable forward_features : Video -> option Spec -> option TimeEnc -> T * T.
Variable time_encodings_of : Video -> Idx -> TimeEnc.
Variable noun_last_Adapter verb_last_Adapter : T -> T.
Variable head head_noun head_verb : T -> T.
Variable head_dropout head_noun_dropout head_verb_dropout : T -> T.

(** What [forward] returns when [output_attentions] is [None]. *)
Inductive output : Type :=
| Single (x : T)
| NounVerb (s_x t_x : T).

(** [forward(x, caption=None, spec=None, idx=None, output_attentions=None)]:
<<
    time_encodings=None
    if self.time_encoding or self.pre_time_encoding:
        ...                                  # from idx
        time_encodings = [s, t]
    if self.composition:
        if self.audio_enabled:
            s_x, t_x, _ = self.forward_features(x, spec, time_encodings, ...)
            x = self.noun_last_Adapter(s_x) + self.verb_last_Adapter(t_x)
            s_x = self.head_noun(self.head_noun_dropout(x))
            t_x = self.head_verb(self.head_verb_dropout(x))
            return s_x, t_x
        else:
            s_x, t_x, _ = self.forward_features(x, spec, ...)
            s_x = self.head_noun(self.head_noun_dropout(s_x))
            t_x = self.head_verb(self.head_verb_dropout(t_x))
            return s_x, t_x
    else:
        if self.audio_enabled:
            s_x, t_x, _ = self.forward_features(x, spec, time_encodings, ...)
            x = self.noun_last_Adapter(s_x) + self.verb_last_Adapter(t_x)
            return self.head(self.head_dropout(x))
        else:
            s_x, t_x, _ = self.forward_features(x, ...)
            x = (self.noun_last_Adapter(s_x) + self.verb_last_Adapter(t_x))/2
            return self.head(self.head_dropout(x))
>> *)
Definition forward (cfg : config) (x : Video) (spec : option Spec)
    (idx : option Idx) : error + output :=
  let time_encodings : error + option TimeEnc :=
    if self_time_encoding cfg || pre_time_encoding cfg then
      match idx with
      | Some i => inr (Some (time_encodings_of x i))
      | None => inl AttributeError
      end
    else inr None in
  match time_encodings with
  | inl e => inl e
  | inr time_encodings =>
      if composition cfg then
        if audio_enabled cfg then
          let '(s_x, t_x) := forward_features x spec time_encodings in
          let x' := add (noun_last_Adapter s_x) (verb_last_Adapter t_x) in
          inr (NounVerb (head_noun (head_noun_dropout x'))
                        (head_verb (head_verb_dropout x')))
        else
          let '(s_x, t_x) := forward_features x spec None in
          inr (NounVerb (head_noun (head_noun_dropout s_x))
                        (head_verb (head_verb_dropout t_x)))
      else
        if audio_enabled cfg then
          let '(s_x, t_x) := forward_features x spec time_encodings in
          let x' := add (noun_last_Adapter s_x) (verb_last_Adapter t_x) in
          inr (Single (head (head_dropout x')))
        else
          let '(s_x, t_x) := forward_features x None None in
          let x' := div2 (add (noun_last_Adapter s_x) (verb_last_Adapter t_x)) in
          inr (Single (head (head_dropout x')))
  end.


End Forward.




End Heads.

(* ------------------------------------------------------------------ *)
(** * The prologue of [STCrossTransformer.forward_features] (audio_cast),
      on tensor shapes, with the operations it performs *)

Module ForwardFeatures.

Definition shape : Type := list nat.

(** The tensor operations of [forward_features], in the order of the
    source. *)
Inductive event : Type :=
| EvPickFrames        (* x[:, :, 1::2, :, :] or the slice/unsqueeze of spec *)
| EvRearrange         (* 'b c t h w -> (b t) c h w' *)
| EvClipConv1         (* self.clip_conv1(s_x) *)
| EvReshape           (* s_x.reshape(s_x.shape[0], s_x.shape[1], -1) *)
| EvPermute           (* s_x.permute(0, 2, 1) *)
| EvCatClass          (* torch.cat([class_embedding + zeros, s_x], dim=1) *)
| EvAddPositional     (* s_x + self.clip_text_positional_embedding *)
| EvClipLnPre         (* self.clip_ln_pre(s_x) *)
| EvPatchEmbedProj    (* self.proj(x).flatten(2).transpose(1, 2) *)
| EvAddPosEmbed       (* t_x + self.pos_embed.expand(B, -1, -1) *)
| EvPosDrop           (* self.pos_drop(t_x) *)
| EvPermuteTokens     (* s_x.permute(1,0,2) *)
| EvPreTimeEncoding   (* the two in-place additions under pre_time_encoding *)
| EvBlock (i : nat)   (* blk(s_x, t_x, time_encodings, ...) for layer i *)
| EvPool.             (* the class-token and patch averages with their norms *)

Inductive error : Type :=
| AssertionError      (* PatchEmbed.forward: "Input image size ... doesn't match model" *)
| ValueError          (* B, C, T, H, W = x.shape with another rank *)
| IndexError          (* too many indices for the tensor *)
| EinopsError         (* rearrange on a tensor of another rank *)
| RuntimeError        (* a size PyTorch rejects: conv, reshape, broadcast *)
| TypeError           (* subscripting time_encodings = None *)
| BlockError (i : nat).

(** A run: the operations performed so far, and an error or a value. *)
Definition M (A : Type) : Type := list event * (error + A).

Definition ret {A : Type} (a : A) : M A := ([], inr a).
Definition raise {A : Type} (e : error) : M A := ([], inl e).
Definition did (ev : event) : M unit := ([ev], inr tt).

Definition bind {A B : Type} (m : M A) (k : A -> M B) : M B :=
  match m with
  | (tr, inl e) => (tr, inl e)
  | (tr, inr a) => let '(tr', r) := k a in (tr ++ tr', r)
  end.

Notation "x <~ e ;; k" := (bind e (fun x => k))
  (at level 61, e at next level, right associativity).
Notation "e ;;; k" := (bind e (fun _ => k))
  (at level 61, right associativity).

(** An operation that computes [r] when it succeeds. *)
Definition op {A : Type} (ev : event) (r : option A) (e : error) : M A :=
  match r with
  | Some a => did ev ;;; ret a
  | None => raise e
  end.

Record config : Type := mkConfig {
  img_size : nat;
  patch_size : nat;
  in_chans : nat;
  embed_dim : nat;
  all_frames : nat;
  tubelet_size : nat;
  audio_patch : nat;
  depth : nat;
  pre_time_encoding : bool
}.

(** [PatchEmbed.num_patches] *)
Definition num_patches (cfg : config) : nat :=
  (img_size cfg / patch_size cfg) * (img_size cfg / patch_size cfg)
  * (all_frames cfg / tubelet_size cfg).

(** Broadcasting of one axis. *)
Definition bcast_dim (a b : nat) : option nat :=
  if a =? b then Some a
  else if a =? 1 then Some b
  else if b =? 1 then Some a
  else None.

(** A strided convolution along one axis, kernel = stride = [k], no padding:
    the input must hold one kernel; a partial last window is dropped. *)
Definition conv_dim (n k : nat) : option nat :=
  if (k =? 0) || (n <? k) then None else Some (n / k).

(** [x[:, :, 1::2, :, :]] (or, for a spectrogram, the same slice of a
    5-dimensional [spec] and [spec.unsqueeze(2)] otherwise). *)
Definition pick_frames (x : shape) (spec : option shape) : option shape :=
  match spec with
  | Some [b; c; t; h; w] => Some [b; c; t / 2; h; w]
  | Some sp =>
      match sp with
      | d0 :: d1 :: rest => Some (d0 :: d1 :: 1 :: rest)
      | _ => None
      end
  | None =>
      match x with
      | b :: c :: t :: h :: w :: rest => Some (b :: c :: t / 2 :: h :: w :: rest)
      | _ => None
      end
  end.

Definition rearrange_bt (s : shape) : option shape :=
  match s with
  | [b; c; t; h; w] => Some [b * t; c; h; w]
  | _ => None
  end.

(** [nn.Conv2d(3, embed_dim, kernel_size=patch_size, stride=patch_size)] *)
Definition clip_conv1 (cfg : config) (s : shape) : option shape :=
  match s with
  | [n; c; h; w] =>
      if c =? 3 then
        gh <- conv_dim h (patch_size cfg) ;;
        gw <- conv_dim w (patch_size cfg) ;;
        Some [n; embed_dim cfg; gh; gw]
      else None
  | _ => None
  end.

(** [s_x.reshape(s_x.shape[0], s_x.shape[1], -1)]: the [-1] cannot be
    inferred when the two leading sizes multiply to zero. *)
Definition reshape_grid (s : shape) : option shape :=
  match s with
  | [n; d; gh; gw] => if n * d =? 0 then None else Some [n; d; gh * gw]
  | _ => None
  end.

Definition add_positional (cfg : config) (s : shape) : option shape :=
  match s with
  | [n; g; d] =>
      g' <- bcast_dim g (audio_patch cfg + 1) ;;
      d' <- bcast_dim d (embed_dim cfg) ;;
      Some [n; g'; d']
  | _ => None
  end.

Definition layer_norm (width : nat) (s : shape) : option shape :=
  match rev s with
  | d :: _ => if d =? width then Some s else None
  | [] => None
  end.

(** [PatchEmbed.forward]: the unpacking, the assertion, then the
    convolution. *)
Definition patch_embed (cfg : config) (x : shape) : M shape :=
  match x with
  | [B; C; T; H; W] =>
      if (H =? img_size cfg) && (W =? img_size cfg) then
        op EvPatchEmbedProj
           (if C =? in_chans cfg then
              t <- conv_dim T (tubelet_size cfg) ;;
              gh <- conv_dim H (patch_size cfg) ;;
              gw <- conv_dim W (patch_size cfg) ;;
              Some [B; t * (gh * gw); embed_dim cfg]
            else None)
           RuntimeError
      else raise AssertionError
  | _ => raise ValueError
  end.

Definition add_pos_embed (cfg : config) (B : nat) (s : shape) : option shape :=
  match s with
  | [b; n; d] =>
      b' <- bcast_dim b B ;;
      n' <- bcast_dim n (num_patches cfg) ;;
      d' <- bcast_dim d (embed_dim cfg) ;;
      Some [b'; n'; d']
  | _ => None
  end.

Section Blocks.
(** The shapes layer [i] returns for the two streams, or its failure. *)
Variable block : nat -> shape -> shape -> option (shape * shape).

Fixpoint run_blocks (n i : nat) (s_x t_x : shape) : M (shape * shape) :=
  match n with
  | 0 => ret (s_x, t_x)
  | S n' =>
      st <~ op (EvBlock i) (block i s_x t_x) (BlockError i) ;;
      run_blocks n' (S i) (fst st) (snd st)
  end.

(** The pooling after the stack. *)
Definition pool (cfg : config) (B : nat) (s_x t_x : shape) : option (shape * shape) :=
  match s_x, t_x with
  | [n; bt; d], [b; m; d'] =>
      if (B =? 0) || negb (bt mod B =? 0) || (n =? 0) then None
      else if (d =? embed_dim cfg) && (d' =? embed_dim cfg)
           then Some ([B; d], [b; d'])
           else None
  | _, _ => None
  end.

(** The "AIM spatial path" of [forward_features]. *)
Definition spatial_path (cfg : config) (x : shape) (spec : option shape) : M shape :=
  s_x <~ op EvPickFrames (pick_frames x spec) IndexError ;;
  s_x <~ op EvRearrange (rearrange_bt s_x) EinopsError ;;
  s_x <~ op EvClipConv1 (clip_conv1 cfg s_x) RuntimeError ;;
  s_x <~ op EvReshape (reshape_grid s_x) RuntimeError ;;
  s_x <~ op EvPermute
           (match s_x with [n; d; g] => Some [n; g; d] | _ => None end)
           RuntimeError ;;
  s_x <~ op EvCatClass
           (match s_x with [n; g; d] => Some [n; g + 1; d] | _ => None end)
           RuntimeError ;;
  s_x <~ op EvAddPositional (add_positional cfg s_x) RuntimeError ;;
  op EvClipLnPre (layer_norm (embed_dim cfg) s_x) RuntimeError.

(** [forward_features(x, spec, time_encodings)]; [time_encodings] matters
    here only by being present. *)
Definition forward_features (cfg : config) (x : shape) (spec : option shape)
    (time_encodings : bool) : M (shape * shape) :=
  B <~ match x with
       | b :: _ => ret b
       | [] => raise IndexError
       end ;;
  s_x <~ spatial_path cfg x spec ;;
  t_x <~ patch_embed cfg x ;;
  t_x <~ op EvAddPosEmbed (add_pos_embed cfg B t_x) RuntimeError ;;
  did EvPosDrop ;;;
  s_x <~ op EvPermuteTokens
           (match s_x with [n; g; d] => Some [g; n; d] | _ => None end)
           RuntimeError ;;
  (if pre_time_encoding cfg
   then if time_encodings then did EvPreTimeEncoding else raise TypeError
   else ret tt) ;;;
  st <~ run_blocks (depth cfg) 0 s_x t_x ;;
  op EvPool (pool cfg B (fst st) (snd st)) RuntimeError.
End Blocks.

(** The base model: 224 x 224 clips, 16 x 16 patches, 16 frames, 12 layers
    that keep their shapes. *)
Definition base : config := mkConfig 224 16 3 768 16 2 196 12 false.
Definition keep (i : nat) (s t : shape) : option (shape * shape) := Some (s, t).

Example base_forward :
  forward_features keep base [2; 3; 16; 224; 224] None false
  = ([EvPickFrames; EvRearrange; EvClipConv1; EvReshape; EvPermute; EvCatClass;
      EvAddPositional; EvClipLnPre; EvPatchEmbedProj; EvAddPosEmbed; EvPosDrop;
      EvPermuteTokens]
     ++ map EvBlock (seq 0 12) ++ [EvPool],
     inr ([2; 768], [2; 768])).
Proof. reflexivity. Qed.

(** ** Which operations a run performed *)

(** The operations of the spatial path. *)
Definition spatial_event (ev : event) : Prop :=
  In ev [EvPickFrames; EvRearrange; EvClipConv1; EvReshape; EvPermute;
         EvCatClass; EvAddPositional; EvClipLnPre].

Definition only {A : Type} (P : event -> Prop) (m : M A) : Prop := Forall P (fst m).

Lemma only_ret {A : Type} (P : event -> Prop) (a : A) : only P (ret a).
Proof. constructor. Qed.

Lemma only_raise {A : Type} (P : event -> Prop) (e : error) : only P (@raise A e).
Proof. constructor. Qed.

Lemma only_bind {A B : Type} (P : event -> Prop) (m : M A) (k : A -> M B) :
  only P m -> (forall a, only P (k a)) -> only P (bind m k).
Proof.
  unfold only, bind. intros Hm Hk.
  destruct m as [tr [e | a]]; simpl in *; [assumption |].
  specialize (Hk a). destruct (k a) as [tr' r]; simpl in *.
  apply Forall_app. now split.
Qed.

Lemma only_op {A : Type} (P : event -> Prop) (ev : event) (r : option A) (e : error) :
  P ev -> only P (op ev r e).
Proof.
  intros Hev. unfold op. destruct r; [| apply only_raise].
  unfold only. simpl. now repeat constructor.
Qed.

Lemma spatial_path_only (cfg : config) (x : shape) (spec : option shape) :
  only spatial_event (spatial_path cfg x spec).
Proof.
  unfold spatial_path.
  repeat (apply only_bind; [| intros ?]);
    apply only_op; unfold spatial_event; simpl; tauto.
Qed.

(** C9 (as amended).  A clip whose height or width differs from the
    configured image size makes [forward_features] fail, with the
    [AssertionError] of [PatchEmbed.forward] or with an earlier error of the
    spatial path; no layer runs, nothing is pooled and the 3-D patch
    projection is never applied, so no output is produced from the
    mismatched clip.  The operations performed before the failure are those
    of the spatial path only. *)
Theorem size_mismatch_fails_before_any_layer
    (block : nat -> shape -> shape -> option (shape * shape))
    (cfg : config) (B C T H W : nat) (spec : option shape) (time_encodings : bool) :
  H <> img_size cfg \/ W <> img_size cfg ->
  exists tr e,
    forward_features block cfg [B; C; T; H; W] spec time_encodings = (tr, inl e)
    /\ Forall spatial_event tr
    /\ (forall i, ~ In (EvBlock i) tr)
    /\ ~ In EvPatchEmbedProj tr
    /\ ~ In EvPool tr
    /\ (spatial_path cfg [B; C; T; H; W] spec = (tr, inl e)
        \/ (e = AssertionError
            /\ exists s_x, spatial_path cfg [B; C; T; H; W] spec = (tr, inr s_x))).
Proof.
  intros Hsize.
  assert (Hpe : patch_embed cfg [B; C; T; H; W] = ([], inl AssertionError)).
  { unfold patch_embed.
    destruct ((H =? img_size cfg) && (W =? img_size cfg)) eqn:E; [| reflexivity].
    apply andb_true_iff in E. destruct E as [E1 E2].
    apply Nat.eqb_eq in E1, E2. tauto. }
  pose proof (spatial_path_only cfg [B; C; T; H; W] spec) as Honly.
  unfold forward_features. unfold ret at 1. unfold bind at 1.
  change ([] ++ ?l) with l.
  unfold only in Honly.
  destruct (spatial_path cfg [B; C; T; H; W] spec) as [tr [e | s_x]] eqn:Esp;
    simpl in Honly.
  - exists tr, e. simpl.
    assert (Hno : forall ev, ~ spatial_event ev -> ~ In ev tr).
    { intros ev Hev Hin. rewrite Forall_forall in Honly. auto. }
    repeat split; try assumption.
    + intros i. apply Hno. unfold spatial_event; simpl.
      intuition discriminate.
    + apply Hno. unfold spatial_event; simpl. intuition discriminate.
    + apply Hno. unfold spatial_event; simpl. intuition discriminate.
    + now left.
  - exists tr, AssertionError. unfold bind at 1. rewrite Hpe.
    unfold bind at 1. simpl. rewrite app_nil_r.
    assert (Hno : forall ev, ~ spatial_event ev -> ~ In ev tr).
    { intros ev Hev Hin. rewrite Forall_forall in Honly. auto. }
    repeat split; try assumption.
    + intros i. apply Hno. unfold spatial_event; simpl.
      intuition discriminate.
    + apply Hno. unfold spatial_event; simpl. intuition discriminate.
    + apply Hno. unfold spatial_event; simpl. intuition discriminate.
    + right. split; [reflexivity | now exists s_x].
Qed.

(** A 112 x 448 clip has the 196 patches of the configured grid: the whole
    spatial path, strided convolution first, is computed on it before the
    assertion of [PatchEmbed.forward] fails.  So the failure does not come
    before any compute. *)
Lemma size_mismatch_is_detected_after_the_spatial_path :
  forward_features keep base [1; 3; 16; 112; 448] None false
  = ([EvPickFrames; EvRearrange; EvClipConv1; EvReshape; EvPermute; EvCatClass;
      EvAddPositional; EvClipLnPre], inl AssertionError).
Proof. reflexivity. Qed.

(** A 112 x 112 clip fails in the spatial path itself: its 50 tokens do not
    broadcast against the 197 positional rows. *)
Example size_mismatch_small_clip :
  forward_features keep base [1; 3; 16; 112; 112] None false
  = ([EvPickFrames; EvRearrange; EvClipConv1; EvReshape; EvPermute; EvCatClass],
     inl RuntimeError).
Proof. reflexivity. Qed.

Lemma size_mismatch_fails_before_any_layer_witness :
  exists tr e,
    forward_features keep base [1; 3; 16; 112; 448] None false = (tr, inl e)
    /\ Forall spatial_event tr
    /\ (forall i, ~ In (EvBlock i) tr)
    /\ ~ In EvPatchEmbedProj tr
    /\ ~ In EvPool tr
    /\ (spatial_path base [1; 3; 16; 112; 448] None = (tr, inl e)
        \/ (e = AssertionError
            /\ exists s_x, spatial_path base [1; 3; 16; 112; 448] None = (tr, inr s_x))).
Proof.
  apply (@size_mismatch_fails_before_any_layer keep base 1 3 16 112 448 None false).
  left. discriminate.
Defined.

End ForwardFeatures.

(* ------------------------------------------------------------------ *)
(** * The class token in the directed cross-attentions (both model files) *)

Module ClassToken.

Section CrossAttention.
(** A spatial stream [s_x] of shape [n, (b t), d] is its size along axis 1
    and its rows along axis 0: the class token first, then the patches.
    [Other] is the stream on the other side (temporal tokens or audio). *)
Variable Row : Type.
Variable Other : Type.
Variable shape0 : Other -> nat.

Record spatial : Type := mkSpatial { dim1 : nat; tokens : list Row }.

(** [s_x[1:, :, :]] *)
Definition patches (s_x : spatial) : spatial :=
  mkSpatial (dim1 s_x) (tl (tokens s_x)).

(** [torch.cat([cls, s_x_pat], dim=0)]: the sizes along the other axes must
    agree. *)
Definition cat (bt : nat) (cls : list Row) (s_x_pat : spatial) : option spatial :=
  if dim1 s_x_pat =? bt then Some (mkSpatial bt (cls ++ tokens s_x_pat)) else None.

(** What each method computes between the split and the concatenation
    (positional biases, projections, attention, output projection and the
    rearrangement back), from the patch rows and the other stream; [None]
    when a shape does not fit.  The beats_Bsquare spatial-temporal pair also
    reads [t = s_x.shape[1] // t_x.shape[0]]. *)
Variable ac_t2s_attend : spatial -> Other -> option spatial.
Variable ac_s2t_attend : spatial -> Other -> option Other.
Variable bb_audio2s_attend : spatial -> Other -> option spatial.
Variable bb_s2audio_attend : spatial -> Other -> option Other.
Variable bb_t2s_attend : nat -> spatial -> Other -> option spatial.
Variable bb_s2t_attend : nat -> spatial -> Other -> option Other.

(** audio_cast [CrossAttentionT2S.t2s_cross_attn]:
<<
    s_x_cls, s_x_pat = s_x[0, :, :], s_x[1:, :, :]
    ...
    s_x = torch.cat([s_x_cls.unsqueeze(0), s_x_pat], dim=0)
>> *)
Definition ac_t2s_cross_attn (s_x : spatial) (t_x : Other) : option spatial :=
  s_x_cls <- hd_error (tokens s_x) ;;
  s_x_pat <- ac_t2s_attend (patches s_x) t_x ;;
  cat (dim1 s_x) [s_x_cls] s_x_pat.

(** audio_cast [CrossAttentionS2T.s2t_cross_attn]: [s_x_pat = s_x[1:, :, :]]
    is all it reads of [s_x]. *)
Definition ac_s2t_cross_attn (s_x : spatial) (t_x : Other) : option Other :=
  ac_s2t_attend (patches s_x) t_x.

(** beats_Bsquare [CrossAttentionAudio2S.audio2s_cross_attn]:
<<
    s_x_cls, s_x_pat = s_x[:1,:,:], s_x[1:, :, :]
    audio_pat = audio
    ...
    s_x = torch.cat([s_x_cls, x_pat], dim=0)
>> *)
Definition bb_audio2s_cross_attn (s_x : spatial) (audio : Other) : option spatial :=
  let s_x_cls := firstn 1 (tokens s_x) in
  x_pat <- bb_audio2s_attend (patches s_x) audio ;;
  cat (dim1 s_x) s_x_cls x_pat.

(** beats_Bsquare [CrossAttentionS2Audio.s2audio_cross_attn] *)
Definition bb_s2audio_cross_attn (s_x : spatial) (audio : Other) : option Other :=
  bb_s2audio_attend (patches s_x) audio.

(** [s_x.shape[1] // t_x.shape[0]] *)
Definition frames (s_x : spatial) (t_x : Other) : option nat :=
  if shape0 t_x =? 0 then None else Some (dim1 s_x / shape0 t_x).

(** beats_Bsquare [CrossAttentionT2S.t2s_cross_attn] *)
Definition bb_t2s_cross_attn (s_x : spatial) (t_x : Other) : option spatial :=
  t <- frames s_x t_x ;;
  s_x_cls <- hd_error (tokens s_x) ;;
  s_x_pat <- bb_t2s_attend t (patches s_x) t_x ;;
  cat (dim1 s_x) [s_x_cls] s_x_pat.

(** beats_Bsquare [CrossAttentionS2T.s2t_cross_attn] *)
Definition bb_s2t_cross_attn (s_x : spatial) (t_x : Other) : option Other :=
  t <- frames s_x t_x ;;
  bb_s2t_attend t (patches s_x) t_x.

Lemma cat_Some (bt : nat) (cls : list Row) (p out : spatial) :
  cat bt cls p = Some out <->
  dim1 p = bt /\ out = mkSpatial bt (cls ++ tokens p).
Proof.
  unfold cat. destruct (dim1 p =? bt) eqn:E.
  - apply Nat.eqb_eq in E. split.
    + intros H. injection H as <-. now split.
    + intros [_ ->]. reflexivity.
  - apply Nat.eqb_neq in E. split; [discriminate | tauto].
Qed.

(** The concatenation succeeds exactly on patch rows of the size of the
    stream. *)
Lemma cat_rows (bt : nat) (cls : list Row) (p out : spatial) :
  cat bt cls p = Some out <->
  exists rows, p = mkSpatial bt rows /\ out = mkSpatial bt (cls ++ rows).
Proof.
  rewrite cat_Some. destruct p as [d rows]. simpl. split.
  - intros [-> ->]. now exists rows.
  - intros [rows' [[= -> ->] ->]]. now split.
Qed.

(** What a method that writes into the spatial stream returns for a stream
    with the class row [c] and the patch rows [ps], in terms of what
    attention returns for [ps] alone. *)
Lemma ac_t2s_rows (bt : nat) (c : Row) (ps : list Row) (other : Other)
    (out : spatial) :
  ac_t2s_cross_attn (mkSpatial bt (c :: ps)) other = Some out <->
  exists rows,
    ac_t2s_attend (mkSpatial bt ps) other = Some (mkSpatial bt rows)
    /\ out = mkSpatial bt (c :: rows).
Proof.
  unfold ac_t2s_cross_attn, patches. simpl.
  destruct (ac_t2s_attend (mkSpatial bt ps) other) as [p |]; simpl.
  - rewrite cat_rows. split.
    + intros [rows [-> ->]]. now exists rows.
    + intros [rows [[= ->] ->]]. now exists rows.
  - split; [discriminate | intros [rows [H _]]; discriminate].
Qed.

Lemma bb_audio2s_rows (bt : nat) (c : Row) (ps : list Row) (audio : Other)
    (out : spatial) :
  bb_audio2s_cross_attn (mkSpatial bt (c :: ps)) audio = Some out <->
  exists rows,
    bb_audio2s_attend (mkSpatial bt ps) audio = Some (mkSpatial bt rows)
    /\ out = mkSpatial bt (c :: rows).
Proof.
  unfold bb_audio2s_cross_attn, patches. simpl.
  destruct (bb_audio2s_attend (mkSpatial bt ps) audio) as [p |]; simpl.
  - rewrite cat_rows. split.
    + intros [rows [-> ->]]. now exists rows.
    + intros [rows [[= ->] ->]]. now exists rows.
  - split; [discriminate | intros [rows [H _]]; discriminate].
Qed.

Lemma bb_t2s_rows (bt : nat) (c : Row) (ps : list Row) (t_x : Other)
    (out : spatial) :
  bb_t2s_cross_attn (mkSpatial bt (c :: ps)) t_x = Some out <->
  exists t rows,
    shape0 t_x <> 0 /\ t = bt / shape0 t_x
    /\ bb_t2s_attend t (mkSpatial bt ps) t_x = Some (mkSpatial bt rows)
    /\ out = mkSpatial bt (c :: rows).
Proof.
  unfold bb_t2s_cross_attn, frames, patches. simpl.
  destruct (shape0 t_x =? 0) eqn:E0; simpl.
  - apply Nat.eqb_eq in E0. split; [discriminate |].
    intros [t [rows [H _]]]. contradiction.
  - apply Nat.eqb_neq in E0.
    destruct (bb_t2s_attend (bt / shape0 t_x) (mkSpatial bt ps) t_x) as [p |] eqn:Ea;
      simpl.
    + rewrite cat_rows. split.
      * intros [rows [-> ->]]. now exists (bt / shape0 t_x), rows.
      * intros [t [rows [_ [-> [Hp ->]]]]]. rewrite Ea in Hp.
        injection Hp as ->. now exists rows.
    + split; [discriminate |].
      intros [t [rows [_ [-> [Hp _]]]]]. rewrite Ea in Hp. discriminate.
Qed.

(** The rows behind the first one. *)
Definition rest (o : option spatial) : option (list Row) :=
  option_map (fun s => tl (tokens s)) o.

(** C6.  Of a spatial stream with the class row [c] in front of the patch
    rows [ps], every directed cross-attention that writes into the stream
    hands attention the rows [ps] alone, with the whole other stream, and
    returns [c] itself in front of the rows attention computed; so another
    class row changes nothing in the rows behind it.  The cross-attentions
    that read the spatial stream compute what they compute from [ps] and the
    whole other stream, whatever the class row is.  A stream without any row
    has no class row to keep: the two [t2s_cross_attn] raise on it. *)
Theorem class_token_excluded_and_preserved :
  (forall bt c ps other out,
      ac_t2s_cross_attn (mkSpatial bt (c :: ps)) other = Some out <->
      exists rows,
        ac_t2s_attend (mkSpatial bt ps) other = Some (mkSpatial bt rows)
        /\ out = mkSpatial bt (c :: rows))
  /\ (forall bt c ps audio out,
      bb_audio2s_cross_attn (mkSpatial bt (c :: ps)) audio = Some out <->
      exists rows,
        bb_audio2s_attend (mkSpatial bt ps) audio = Some (mkSpatial bt rows)
        /\ out = mkSpatial bt (c :: rows))
  /\ (forall bt c ps t_x out,
      bb_t2s_cross_attn (mkSpatial bt (c :: ps)) t_x = Some out <->
      exists t rows,
        shape0 t_x <> 0 /\ t = bt / shape0 t_x
        /\ bb_t2s_attend t (mkSpatial bt ps) t_x = Some (mkSpatial bt rows)
        /\ out = mkSpatial bt (c :: rows))
  /\ (forall bt c c' ps other,
      rest (ac_t2s_cross_attn (mkSpatial bt (c :: ps)) other)
      = rest (ac_t2s_cross_attn (mkSpatial bt (c' :: ps)) other)
      /\ rest (bb_audio2s_cross_attn (mkSpatial bt (c :: ps)) other)
         = rest (bb_audio2s_cross_attn (mkSpatial bt (c' :: ps)) other)
      /\ rest (bb_t2s_cross_attn (mkSpatial bt (c :: ps)) other)
         = rest (bb_t2s_cross_attn (mkSpatial bt (c' :: ps)) other))
  /\ (forall bt c ps other,
      ac_s2t_cross_attn (mkSpatial bt (c :: ps)) other
      = ac_s2t_attend (mkSpatial bt ps) other
      /\ bb_s2audio_cross_attn (mkSpatial bt (c :: ps)) other
         = bb_s2audio_attend (mkSpatial bt ps) other
      /\ bb_s2t_cross_attn (mkSpatial bt (c :: ps)) other
         = (if shape0 other =? 0 then None
            else bb_s2t_attend (bt / shape0 other) (mkSpatial bt ps) other))
  /\ (forall bt other,
      ac_t2s_cross_attn (mkSpatial bt []) other = None
      /\ bb_t2s_cross_attn (mkSpatial bt []) other = None).
Proof.
  split; [exact ac_t2s_rows |]. split; [exact bb_audio2s_rows |].
  split; [exact bb_t2s_rows |]. split; [| split].
  - intros bt c c' ps other. unfold rest. repeat split.
    + unfold ac_t2s_cross_attn, patches, cat. simpl.
      destruct (ac_t2s_attend (mkSpatial bt ps) other) as [p |]; simpl;
        [| reflexivity].
      now destruct (dim1 p =? bt).
    + unfold bb_audio2s_cross_attn, patches, cat. simpl.
      destruct (bb_audio2s_attend (mkSpatial bt ps) other) as [p |]; simpl;
        [| reflexivity].
      now destruct (dim1 p =? bt).
    + unfold bb_t2s_cross_attn, frames, patches, cat. simpl.
      destruct (shape0 other =? 0); simpl; [reflexivity |].
      destruct (bb_t2s_attend (bt / shape0 other) (mkSpatial bt ps) other) as [p |];
        simpl; [| reflexivity].
      now destruct (dim1 p =? bt).
  - intros bt c ps other. repeat split.
    unfold bb_s2t_cross_attn, frames, patches. simpl.
    now destruct (shape0 other =? 0).
  - intros bt other. split; [reflexivity |].
    unfold bb_t2s_cross_attn, frames. simpl.
    now destruct (shape0 other =? 0).
Qed.
End CrossAttention.

(** A stream of one class row and two patch rows over the integers.  The
    attention stand-in adds to every row it is given the sum of all the rows
    it is given and the sum of the other stream: a class row among its rows
    would show in every row it returns. *)
Definition demo_attend (s_x_pat : spatial Z) (other : list Z) : option (spatial Z) :=
  Some (mkSpatial (dim1 s_x_pat)
          (map (fun r => (r + fold_right Z.add 0 (tokens s_x_pat)
                          + fold_right Z.add 0 other)%Z)
               (tokens s_x_pat))).

Example audio_cast_t2s_keeps_class_row :
  ac_t2s_cross_attn demo_attend (mkSpatial 8 [100; 1; 2]%Z) [10; 20]%Z
  = Some (mkSpatial 8 [100; 34; 35]%Z).
Proof. reflexivity. Qed.

Example beats_audio2s_keeps_class_row :
  bb_audio2s_cross_attn demo_attend (mkSpatial 8 [100; 1; 2]%Z) [10; 20]%Z
  = Some (mkSpatial 8 [100; 34; 35]%Z).
Proof. reflexivity. Qed.

(** The same on a stream that has the class row only at another value. *)
Example audio_cast_t2s_other_class_row :
  ac_t2s_cross_attn demo_attend (mkSpatial 8 [7; 1; 2]%Z) [10; 20]%Z
  = Some (mkSpatial 8 [7; 34; 35]%Z).
Proof. reflexivity. Qed.

(** Reading the spatial stream: the sum of the rows read and of the other
    stream; the class row 100 is not in it. *)
Example audio_cast_s2t_reads_patches :
  ac_s2t_cross_attn
    (fun (s : spatial Z) (o : list Z) =>
       Some [(fold_right Z.add 0 (tokens s) + fold_right Z.add 0 o)%Z])
    (mkSpatial 8 [100; 1; 2]%Z) [10; 20]%Z
  = Some [33%Z].
Proof. reflexivity. Qed.

(** The first part of the theorem at the stream above. *)
Lemma class_token_excluded_and_preserved_witness :
  ac_t2s_cross_attn demo_attend (mkSpatial 8 [100; 1; 2]%Z) [10; 20]%Z
  = Some (mkSpatial 8 [100; 34; 35]%Z)
  <-> exists rows,
      demo_attend (mkSpatial 8 [1; 2]%Z) [10; 20]%Z = Some (mkSpatial 8 rows)
      /\ mkSpatial 8 [100; 34; 35]%Z = mkSpatial 8 (100%Z :: rows).
Proof.
  exact (proj1 (class_token_excluded_and_preserved
                  (fun o : list Z => length o)
                  demo_attend (fun _ o => Some o) demo_attend (fun _ o => Some o)
                  (fun _ => demo_attend) (fun _ _ o => Some o))
               8 100%Z [1; 2]%Z [10; 20]%Z
               (mkSpatial 8 [100; 34; 35]%Z)).
Defined.

End ClassToken.

(* ------------------------------------------------------------------ *)
(** * Tensor shapes through the cross-modal cells
      ([B_CAST.forward] of beats_Bsquare, the cross stage of
      [Block.forward] of audio_cast) *)

Module CellShapes.

Definition shape : Type := list nat.

(** ** The tensor operations, on shapes.  [None] is any exception. *)

Definition bcast_dim (a b : nat) : option nat :=
  if a =? b then Some a
  else if a =? 1 then Some b
  else if b =? 1 then Some a
  else None.

(** Broadcasting aligns the trailing axes. *)
Fixpoint bcast_rev (a b : shape) : option shape :=
  match a, b with
  | [], _ => Some b
  | _, [] => Some a
  | x :: a', y :: b' =>
      d <- bcast_dim x y ;;
      r <- bcast_rev a' b' ;;
      Some (d :: r)
  end.

(** [a + b] *)
Definition broadcast (a b : shape) : option shape :=
  r <- bcast_rev (rev a) (rev b) ;; Some (rev r).

(** [F.linear] with a weight of shape [out_features, in_features]. *)
Fixpoint linear (in_features out_features : nat) (s : shape) : option shape :=
  match s with
  | [] => None
  | [d] => if d =? in_features then Some [out_features] else None
  | x :: s' => r <- linear in_features out_features s' ;; Some (x :: r)
  end.

(** [nn.LayerNorm(width)] *)
Fixpoint layer_norm (width : nat) (s : shape) : option shape :=
  match s with
  | [] => None
  | [d] => if d =? width then Some [d] else None
  | x :: s' => r <- layer_norm width s' ;; Some (x :: r)
  end.

(** An einops group [(a b)] split with [b] given. *)
Definition split_axis (n b : nat) : option nat :=
  if b =? 0 then None
  else if n mod b =? 0 then Some (n / b) else None.

(** Batched matrix product of two 4-dimensional tensors. *)
Definition matmul4 (x y : shape) : option shape :=
  match x, y with
  | [b1; h1; n; d], [b2; h2; d'; m] =>
      b <- bcast_dim b1 b2 ;;
      h <- bcast_dim h1 h2 ;;
      if d =? d' then Some [b; h; n; m] else None
  | _, _ => None
  end.

(** [torch.cat([a, b], dim=0)] of two 3-dimensional tensors. *)
Definition cat0 (a b : shape) : option shape :=
  match a, b with
  | [n1; x1; y1], [n2; x2; y2] =>
      if (x1 =? x2) && (y1 =? y2) then Some [n1 + n2; x1; y1] else None
  | _, _ => None
  end.

(** The projections of one directed attention. *)
Record projections : Type := mkProjections {
  q_in : nat; q_out : nat;       (* the query linear *)
  kv_in : nat; kv_out : nat;     (* the fused key/value linear *)
  proj_in : nat; proj_out : nat; (* the output projection *)
  num_head : nat
}.

(** The lines every directed attention shares, from the two prepared
    operands [b n d] on:
<<
    q = F.linear(input=queries, weight=self.q.weight, bias=self.q_bias)
    q = rearrange(q, 'b n (h d) -> b h n d', h=self.num_head)
    kv = F.linear(input=keys, weight=self.kv.weight, bias=self.kv_bias)
    kv = rearrange(kv, 'b n (e h d) -> e b h n d',e=2, h=self.num_head)
    k, v = kv[0], kv[1]
    q = q * self.scale
    attn = (q @ k.transpose(-2, -1))
    attn = attn.softmax(dim=-1)
    x = (attn @ v)
    x = rearrange(x, 'b h n d -> b n (h d)')
    x = self.proj(x)
>> *)
Definition attend (p : projections) (queries keys : shape) : option shape :=
  q <- linear (q_in p) (q_out p) queries ;;
  q <- match q with
       | [b; n; hd] => d <- split_axis hd (num_head p) ;; Some [b; num_head p; n; d]
       | _ => None
       end ;;
  kv <- linear (kv_in p) (kv_out p) keys ;;
  k <- match kv with
       | [b; n; ehd] =>
           d <- split_axis ehd (2 * num_head p) ;; Some [b; num_head p; n; d]
       | _ => None
       end ;;
  let v := k in
  kt <- match k with
        | [b; h; n; d] => Some [b; h; d; n]
        | _ => None
        end ;;
  attn <- matmul4 q kt ;;
  x <- matmul4 attn v ;;
  x <- match x with
       | [b; h; n; d] => Some [b; n; h * d]
       | _ => None
       end ;;
  linear (proj_in p) (proj_out p) x.

(** [head_dim = dim // n_head; all_head_dim = head_dim * n_head], with the
    [ZeroDivisionError] of [n_head = 0] and of [head_dim ** -0.5] at
    [head_dim = 0]. *)
Definition all_head_dim (dim n_head : nat) : option nat :=
  if (n_head =? 0) || (dim / n_head =? 0) then None
  else Some (dim / n_head * n_head).

(** [s_x[1:, :, :]] *)
Definition drop_class (s_x : shape) : option shape :=
  match s_x with
  | [n; bt; d] => Some [n - 1; bt; d]
  | _ => None
  end.

(** ** beats_Bsquare: the six directed attentions *)

Record bb_attention : Type := mkBbAttention {
  bb_dim : nat;          (* dim // down_ratio of the video streams *)
  bb_audio_dim : nat;    (* text_dim // down_ratio *)
  bb_n_head : nat;
  bb_frames : nat;       (* num_frames as passed to the constructor *)
  bb_spec_frames : nat;
  bb_attn_all_frame : bool;
  bb_audio_patch : nat
}.

(** [CrossAttentionS2T.s2t_cross_attn(s_x, t_x)] *)
Definition bb_s2t (a : bb_attention) (s_x t_x : shape) : option shape :=
  ahd <- all_head_dim (bb_dim a) (bb_n_head a) ;;
  match s_x, t_x with
  | [_; bt; _], [B; tn; d] =>
      t <- (if B =? 0 then None else Some (bt / B)) ;;
      s_x_pat <- drop_class s_x ;;
      s_x_pat <- match s_x_pat with [n; b; d] => Some [b; n; d] | _ => None end ;;
      s_x_pat <- broadcast s_x_pat [196; bb_dim a] ;;
      n <- split_axis tn t ;;
      t_x <- broadcast [B * t; n; d] [196; bb_dim a] ;;
      t_x <- attend (mkProjections (bb_dim a) ahd (bb_dim a) (ahd * 2) ahd (bb_dim a)
                                   (bb_n_head a)) t_x s_x_pat ;;
      match t_x with
      | [bt'; n'; d'] => t' <- split_axis bt' B ;; Some [B; t' * n'; d']
      | _ => None
      end
  | _, _ => None
  end.

(** [CrossAttentionT2S.t2s_cross_attn(s_x, t_x)] *)
Definition bb_t2s (a : bb_attention) (s_x t_x : shape) : option shape :=
  ahd <- all_head_dim (bb_dim a) (bb_n_head a) ;;
  match s_x, t_x with
  | [n; bt; d], [B; tn; d'] =>
      t <- (if B =? 0 then None else Some (bt / B)) ;;
      ok <- guard (negb (n =? 0)) ;;
      let s_x_cls := [bt; d] in
      s_x_pat <- drop_class s_x ;;
      t_s <- split_axis bt B ;;
      s_x_pat <- broadcast [B * (n - 1); t_s; d] [bb_frames a / 2; bb_dim a] ;;
      n_t <- split_axis tn t ;;
      t_x <- broadcast [B * n_t; t; d'] [bb_frames a / 2; bb_dim a] ;;
      s_x_pat <- attend (mkProjections (bb_dim a) ahd (bb_dim a) (ahd * 2) ahd
                                       (bb_dim a) (bb_n_head a)) s_x_pat t_x ;;
      match s_x_pat with
      | [bn; t'; d''] =>
          n' <- split_axis bn B ;;
          cat0 (1 :: s_x_cls) [n'; B * t'; d'']
      | _ => None
      end
  | _, _ => None
  end.

(** The preparation of the spatial patches shared by [CrossAttentionS2Audio]
    and [CrossAttentionAudio2S]. *)
Definition bb_prepare_spatial (a : bb_attention) (s_x_pat : shape) : option shape :=
  let t := bb_frames a / 2 in
  match s_x_pat with
  | [n; bt; d] =>
      if bb_attn_all_frame a then
        b <- split_axis bt t ;;
        x <- broadcast [b; t; n; d] [196; bb_dim a] ;;
        x <- match x with [b; t; n; d] => Some [b; n; t; d] | _ => None end ;;
        x <- broadcast x [t; bb_dim a] ;;
        match x with [b; n; t; d] => Some [b; n * t; d] | _ => None end
      else broadcast [bt; n; d] [196; bb_dim a]
  | _ => None
  end.

(** The preparation of the temporal tokens shared by [CrossAttentionT2Audio]
    and [CrossAttentionAudio2T]. *)
Definition bb_prepare_temporal (a : bb_attention) (t_x : shape) : option shape :=
  let t := bb_frames a / 2 in
  match t_x with
  | [b; tn; d] =>
      ok <- guard (negb (t =? 0)) ;;  (* n = t_x.shape[1] // t *)
      n <- split_axis tn t ;;
      if bb_attn_all_frame a then
        x <- broadcast [b; t; n; d] [196; bb_dim a] ;;
        x <- match x with [b; t; n; d] => Some [b; n; t; d] | _ => None end ;;
        x <- broadcast x [t; bb_dim a] ;;
        match x with [b; n; t; d] => Some [b; t * n; d] | _ => None end
      else broadcast [b * t; n; d] [196; bb_dim a]
  | _ => None
  end.

(** The preparation of the audio tokens, the same in the four audio
    attentions. *)
Definition bb_prepare_audio (a : bb_attention) (audio : shape) : option shape :=
  match audio with
  | [n; bt; d] =>
      if bb_attn_all_frame a then
        b <- split_axis bt (bb_spec_frames a) ;;
        x <- broadcast [b; bb_spec_frames a; n; d] [bb_audio_patch a; bb_dim a] ;;
        x <- match x with [b; t; n; d] => Some [b; n; t; d] | _ => None end ;;
        x <- broadcast x [bb_spec_frames a; bb_dim a] ;;
        match x with [b; n; t; d] => Some [b; n * t; d] | _ => None end
      else broadcast [bt; n; d] [bb_audio_patch a; bb_dim a]
  | _ => None
  end.

(** Back to [n (b t) d]: ['b n d -> n b d'], or
    ['b (n t) d -> n (b t) d'] with the given [t]. *)
Definition bb_restore (a : bb_attention) (t : nat) (x : shape) : option shape :=
  match x with
  | [b; nt; d] =>
      if bb_attn_all_frame a then
        n <- split_axis nt t ;; Some [n; b * t; d]
      else Some [nt; b; d]
  | _ => None
  end.

(** [CrossAttentionS2Audio.s2audio_cross_attn(s_x, audio)] *)
Definition bb_s2audio (a : bb_attention) (s_x audio : shape) : option shape :=
  ahd <- all_head_dim (bb_audio_dim a) (bb_n_head a) ;;
  s_x_pat <- drop_class s_x ;;
  s_x_pat <- bb_prepare_spatial a s_x_pat ;;
  audio_pat <- bb_prepare_audio a audio ;;
  audio_pat <- attend (mkProjections (bb_audio_dim a) ahd (bb_dim a) (ahd * 2) ahd
                                      (bb_audio_dim a) (bb_n_head a))
                      audio_pat s_x_pat ;;
  bb_restore a (bb_spec_frames a) audio_pat.

(** [CrossAttentionAudio2S.audio2s_cross_attn(s_x, audio)] *)
Definition bb_audio2s (a : bb_attention) (s_x audio : shape) : option shape :=
  ahd <- all_head_dim (bb_dim a) (bb_n_head a) ;;
  s_x_cls <- match s_x with [n; bt; d] => Some [Nat.min n 1; bt; d] | _ => None end ;;
  s_x_pat <- drop_class s_x ;;
  s_x_pat <- bb_prepare_spatial a s_x_pat ;;
  audio_pat <- bb_prepare_audio a audio ;;
  x_pat <- attend (mkProjections (bb_dim a) ahd (bb_audio_dim a) (ahd * 2) ahd
                                  (bb_dim a) (bb_n_head a))
                  s_x_pat audio_pat ;;
  x_pat <- bb_restore a (bb_frames a / 2) x_pat ;;
  cat0 s_x_cls x_pat.

(** [CrossAttentionT2Audio.t2audio_cross_attn(t_x, audio)] *)
Definition bb_t2audio (a : bb_attention) (t_x audio : shape) : option shape :=
  ahd <- all_head_dim (bb_audio_dim a) (bb_n_head a) ;;
  t_x <- bb_prepare_temporal a t_x ;;
  audio_pat <- bb_prepare_audio a audio ;;
  audio_pat <- attend (mkProjections (bb_audio_dim a) ahd (bb_dim a) (ahd * 2) ahd
                                      (bb_audio_dim a) (bb_n_head a))
                      audio_pat t_x ;;
  bb_restore a (bb_spec_frames a) audio_pat.

(** [CrossAttentionAudio2T.audio2t_cross_attn(t_x, audio)] *)
Definition bb_audio2t (a : bb_attention) (t_x audio : shape) : option shape :=
  ahd <- all_head_dim (bb_dim a) (bb_n_head a) ;;
  t_x <- bb_prepare_temporal a t_x ;;
  audio_pat <- bb_prepare_audio a audio ;;
  t_x <- attend (mkProjections (bb_dim a) ahd (bb_audio_dim a) (ahd * 2) ahd
                                (bb_dim a) (bb_n_head a))
                t_x audio_pat ;;
  if bb_attn_all_frame a then Some t_x
  else match t_x with
       | [bt; n; d] => b <- split_axis bt (bb_frames a / 2) ;;
                       Some [b; bb_frames a / 2 * n; d]
       | _ => None
       end.

(** ** beats_Bsquare: [B_CAST] *)

Inductive cell_type : Type := S_T | S_Audio | T_Audio.

Record b_cast_config : Type := mkBCast {
  bc_dim : nat;
  bc_num_heads : nat;
  bc_num_frames : nat;
  bc_down_ratio : nat;
  bc_text_dim : nat;
  bc_text_num_heads : nat;
  bc_type : cell_type;
  bc_attn_all_frame : bool;
  bc_spec_frames : nat;
  bc_audio_patch : nat
}.

(** The attention modules [__init__] builds for the cell: the
    spatial-temporal pair gets the reduced width, [num_heads] and
    [num_frames] (and reads none of the audio fields); the audio pairs get
    both reduced widths and [text_num_heads]. *)
Definition bc_attention (c : b_cast_config) : bb_attention :=
  mkBbAttention (bc_dim c / bc_down_ratio c)
                (match bc_type c with
                 | S_T => bc_dim c / bc_down_ratio c
                 | _ => bc_text_dim c / bc_down_ratio c
                 end)
                (match bc_type c with
                 | S_T => bc_num_heads c
                 | _ => bc_text_num_heads c
                 end)
                (bc_num_frames c) (bc_spec_frames c)
                (bc_attn_all_frame c) (bc_audio_patch c).

(** Width of the right stream before and after its down-projection. *)
Definition bc_r_dim (c : b_cast_config) : nat :=
  match bc_type c with S_T => bc_dim c | _ => bc_text_dim c end.

Definition bc_r_down (c : b_cast_config) : nat := bc_r_dim c / bc_down_ratio c.

Definition bc_r2l (c : b_cast_config) : shape -> shape -> option shape :=
  match bc_type c with
  | S_T => bb_t2s (bc_attention c)
  | S_Audio => bb_audio2s (bc_attention c)
  | T_Audio => bb_audio2t (bc_attention c)
  end.

Definition bc_l2r (c : b_cast_config) : shape -> shape -> option shape :=
  match bc_type c with
  | S_T => bb_s2t (bc_attention c)
  | S_Audio => bb_s2audio (bc_attention c)
  | T_Audio => bb_t2audio (bc_attention c)
  end.

(** [B_CAST.forward(l, r)]:
<<
    n_l = self.ln_l_cross(self.cross_l_down(l))
    n_r = self.ln_r_cross(self.cross_r_down(r))
    c_l = self.cross_l_up(self.act(self.r2l_cross(n_l, n_r)))
    c_r = self.cross_r_up(self.act(self.l2r_cross(n_l, n_r)))
    l = l + self.drop_path(c_l)
    r = r + self.drop_path(c_r)
    return l, r
>>
    ([dim // down_ratio] of [__init__] needs a non-zero ratio). *)
Definition b_cast (c : b_cast_config) (l r : shape) : option (shape * shape) :=
  ok <- guard (negb (bc_down_ratio c =? 0)) ;;
  let dd := bc_dim c / bc_down_ratio c in
  n_l <- linear (bc_dim c) dd l ;;
  n_l <- layer_norm dd n_l ;;
  n_r <- linear (bc_r_dim c) (bc_r_down c) r ;;
  n_r <- layer_norm (bc_r_down c) n_r ;;
  c_l <- bc_r2l c n_l n_r ;;
  c_l <- linear dd (bc_dim c) c_l ;;
  c_r <- bc_l2r c n_l n_r ;;
  c_r <- linear (bc_r_down c) (bc_r_dim c) c_r ;;
  l' <- broadcast l c_l ;;
  r' <- broadcast r c_r ;;
  Some (l', r').

(** ** Facts about the operations *)

Lemma bcast_dim_refl (a : nat) : bcast_dim a a = Some a.
Proof. unfold bcast_dim. now rewrite Nat.eqb_refl. Qed.

Lemma broadcast_refl3 (a b c : nat) : broadcast [a; b; c] [a; b; c] = Some [a; b; c].
Proof. unfold broadcast; simpl. now rewrite !bcast_dim_refl. Qed.

Lemma broadcast_tail3 (a b c : nat) : broadcast [a; b; c] [b; c] = Some [a; b; c].
Proof. unfold broadcast; simpl. now rewrite !bcast_dim_refl. Qed.

Lemma broadcast_tail4 (a b c d : nat) :
  broadcast [a; b; c; d] [c; d] = Some [a; b; c; d].
Proof. unfold broadcast; simpl. now rewrite !bcast_dim_refl. Qed.

Lemma linear3 (i o a b : nat) : linear i o [a; b; i] = Some [a; b; o].
Proof. simpl. now rewrite Nat.eqb_refl. Qed.

Lemma layer_norm3 (d a b : nat) : layer_norm d [a; b; d] = Some [a; b; d].
Proof. simpl. now rewrite Nat.eqb_refl. Qed.

Lemma split_axis_r (a b : nat) : b <> 0 -> split_axis (a * b) b = Some a.
Proof.
  intros Hb. unfold split_axis.
  destruct (b =? 0) eqn:E; [apply Nat.eqb_eq in E; contradiction |].
  now rewrite Nat.Div0.mod_mul, Nat.eqb_refl, Nat.div_mul.
Qed.

Lemma split_axis_l (a b : nat) : a <> 0 -> split_axis (a * b) a = Some b.
Proof. intros Ha. rewrite Nat.mul_comm. now apply split_axis_r. Qed.

Lemma div_mul_l (a b : nat) : a <> 0 -> a * b / a = b.
Proof. intros Ha. rewrite Nat.mul_comm. now apply Nat.div_mul. Qed.

Lemma all_head_dim_ok (dim h : nat) :
  h <> 0 -> dim / h <> 0 -> all_head_dim dim h = Some (dim / h * h).
Proof.
  intros Hh Hd. unfold all_head_dim.
  destruct (h =? 0) eqn:E1; [apply Nat.eqb_eq in E1; contradiction |].
  destruct (dim / h =? 0) eqn:E2; [apply Nat.eqb_eq in E2; contradiction |].
  reflexivity.
Qed.

Lemma matmul4_ok (b h n d m : nat) :
  matmul4 [b; h; n; d] [b; h; d; m] = Some [b; h; n; m].
Proof. unfold matmul4. now rewrite !bcast_dim_refl, Nat.eqb_refl. Qed.

(** The shared attention lines keep the batch and the query tokens and give
    the width of the output projection. *)
Lemma attend_ok (qi kvi po hd h b n m : nat) :
  h <> 0 ->
  attend (mkProjections qi (hd * h) kvi (hd * h * 2) (hd * h) po h)
         [b; n; qi] [b; m; kvi]
  = Some [b; n; po].
Proof.
  intros Hh. unfold attend; simpl q_in; simpl q_out; simpl kv_in; simpl kv_out;
    simpl proj_in; simpl proj_out; simpl num_head.
  rewrite linear3. unfold obind at 1.
  rewrite split_axis_r by assumption. unfold obind at 1. unfold obind at 1.
  rewrite linear3. unfold obind at 1.
  replace (hd * h * 2) with (hd * (2 * h)) by lia.
  rewrite split_axis_r by lia. unfold obind at 1. unfold obind at 1.
  unfold obind at 1.
  rewrite matmul4_ok. unfold obind at 1.
  rewrite matmul4_ok. unfold obind at 1. unfold obind at 1.
  rewrite (Nat.mul_comm h hd). apply linear3.
Qed.

(** ** The shapes a beats_Bsquare cell is built for *)

(** What [__init__] needs: a down ratio, heads, and a head dimension that
    are not zero. *)
Definition bc_well_formed (c : b_cast_config) : Prop :=
  bc_down_ratio c <> 0
  /\ bb_n_head (bc_attention c) <> 0
  /\ bb_dim (bc_attention c) / bb_n_head (bc_attention c) <> 0
  /\ bb_audio_dim (bc_attention c) = bb_dim (bc_attention c)
  /\ bc_num_frames c / 2 <> 0.

(** The streams of a model with 196 patches per frame (and the class
    token), [t = num_frames // 2] frames per clip and [b] clips: the
    spatial stream [n (b t) d], the temporal stream [b (t n) d], the audio
    stream [n (b t) d] with [audio_patch] tokens. *)
Inductive bc_valid (c : b_cast_config) : shape -> shape -> Prop :=
| valid_s_t (b : nat) :
    bc_type c = S_T -> b <> 0 ->
    bc_valid c [197; b * (bc_num_frames c / 2); bc_dim c]
               [b; bc_num_frames c / 2 * 196; bc_dim c]
| valid_s_audio_all (b : nat) :
    bc_type c = S_Audio -> bc_attn_all_frame c = true -> bc_spec_frames c <> 0 ->
    bc_valid c [197; b * (bc_num_frames c / 2); bc_dim c]
               [bc_audio_patch c; b * bc_spec_frames c; bc_text_dim c]
| valid_s_audio_frame (bt : nat) :
    bc_type c = S_Audio -> bc_attn_all_frame c = false ->
    bc_valid c [197; bt; bc_dim c] [bc_audio_patch c; bt; bc_text_dim c]
| valid_t_audio_all (b : nat) :
    bc_type c = T_Audio -> bc_attn_all_frame c = true -> bc_spec_frames c <> 0 ->
    bc_valid c [b; bc_num_frames c / 2 * 196; bc_dim c]
               [bc_audio_patch c; b * bc_spec_frames c; bc_text_dim c]
| valid_t_audio_frame (b : nat) :
    bc_type c = T_Audio -> bc_attn_all_frame c = false ->
    bc_valid c [b; bc_num_frames c / 2 * 196; bc_dim c]
               [bc_audio_patch c; b * (bc_num_frames c / 2); bc_text_dim c].

Section BeatsAttentions.
Local Arguments obind {A B} !o k /.
Local Arguments Nat.mul : simpl never.
Local Arguments Nat.div : simpl never.
Local Arguments Nat.modulo : simpl never.
Local Arguments Nat.sub : simpl never.
Local Arguments linear : simpl never.
Local Arguments layer_norm : simpl never.
Local Arguments broadcast : simpl never.
Local Arguments attend : simpl never.
Local Arguments split_axis : simpl never.
Local Arguments bb_prepare_spatial : simpl never.
Local Arguments bb_prepare_temporal : simpl never.
Local Arguments bb_prepare_audio : simpl never.
Local Arguments bb_restore : simpl never.
Local Arguments all_head_dim : simpl never.

Variable a : bb_attention.
Let t := bb_frames a / 2.
Let d := bb_dim a.
Hypothesis heads : bb_n_head a <> 0.
Hypothesis head_dim : d / bb_n_head a <> 0.
Hypothesis same_width : bb_audio_dim a = d.
Hypothesis frames : t <> 0.

Lemma bb_t2s_ok (b : nat) :
  b <> 0 -> bb_t2s a [197; b * t; d] [b; t * 196; d] = Some [197; b * t; d].
Proof.
  intros Hb. unfold bb_t2s. fold d.
  rewrite all_head_dim_ok by assumption. simpl.
  destruct (b =? 0) eqn:Eb; [apply Nat.eqb_eq in Eb; contradiction |].
  simpl. rewrite !div_mul_l by assumption.
  rewrite split_axis_l by assumption. simpl. fold t.
  rewrite broadcast_tail3. simpl.
  rewrite split_axis_l by assumption. simpl.
  rewrite broadcast_tail3. simpl.
  rewrite attend_ok by assumption. simpl.
  change (197 - 1) with 196.
  rewrite split_axis_l by assumption. simpl.
  now rewrite !Nat.eqb_refl.
Qed.

Lemma bb_s2t_ok (b : nat) :
  b <> 0 -> bb_s2t a [197; b * t; d] [b; t * 196; d] = Some [b; t * 196; d].
Proof.
  intros Hb. unfold bb_s2t. fold d.
  rewrite all_head_dim_ok by assumption. simpl.
  destruct (b =? 0) eqn:Eb; [apply Nat.eqb_eq in Eb; contradiction |].
  simpl. rewrite !div_mul_l by assumption.
  change (197 - 1) with 196.
  rewrite broadcast_tail3. simpl.
  rewrite split_axis_l by assumption. simpl.
  rewrite broadcast_tail3. simpl.
  rewrite attend_ok by assumption. simpl.
  now rewrite split_axis_l by assumption.
Qed.
Let sf := bb_spec_frames a.
Let ap := bb_audio_patch a.

Lemma bb_prepare_spatial_all (b : nat) :
  bb_attn_all_frame a = true ->
  bb_prepare_spatial a [196; b * t; d] = Some [b; 196 * t; d].
Proof.
  intros Hall. unfold bb_prepare_spatial. rewrite Hall. fold t d.
  rewrite split_axis_r by assumption. simpl.
  rewrite broadcast_tail4. simpl.
  rewrite broadcast_tail4. reflexivity.
Qed.

Lemma bb_prepare_spatial_frame (bt : nat) :
  bb_attn_all_frame a = false ->
  bb_prepare_spatial a [196; bt; d] = Some [bt; 196; d].
Proof.
  intros Hall. unfold bb_prepare_spatial. rewrite Hall. fold d.
  apply broadcast_tail3.
Qed.

Lemma bb_prepare_temporal_all (b : nat) :
  bb_attn_all_frame a = true ->
  bb_prepare_temporal a [b; t * 196; d] = Some [b; t * 196; d].
Proof.
  intros Hall. unfold bb_prepare_temporal. rewrite Hall. fold t d.
  destruct (t =? 0) eqn:Et; [apply Nat.eqb_eq in Et; contradiction |]. simpl.
  rewrite split_axis_l by assumption. simpl.
  rewrite broadcast_tail4. simpl.
  rewrite broadcast_tail4. reflexivity.
Qed.

Lemma bb_prepare_temporal_frame (b : nat) :
  bb_attn_all_frame a = false ->
  bb_prepare_temporal a [b; t * 196; d] = Some [b * t; 196; d].
Proof.
  intros Hall. unfold bb_prepare_temporal. rewrite Hall. fold t d.
  destruct (t =? 0) eqn:Et; [apply Nat.eqb_eq in Et; contradiction |]. simpl.
  rewrite split_axis_l by assumption. simpl.
  apply broadcast_tail3.
Qed.

Lemma bb_prepare_audio_all (b : nat) :
  bb_attn_all_frame a = true -> sf <> 0 ->
  bb_prepare_audio a [ap; b * sf; d] = Some [b; ap * sf; d].
Proof.
  intros Hall Hsf. unfold bb_prepare_audio. rewrite Hall. fold sf ap d.
  rewrite split_axis_r by assumption. simpl.
  rewrite broadcast_tail4. simpl.
  rewrite broadcast_tail4. reflexivity.
Qed.

Lemma bb_prepare_audio_frame (bt : nat) :
  bb_attn_all_frame a = false ->
  bb_prepare_audio a [ap; bt; d] = Some [bt; ap; d].
Proof.
  intros Hall. unfold bb_prepare_audio. rewrite Hall. fold ap d.
  apply broadcast_tail3.
Qed.

Lemma bb_audio2s_all (b : nat) :
  bb_attn_all_frame a = true -> sf <> 0 ->
  bb_audio2s a [197; b * t; d] [ap; b * sf; d] = Some [197; b * t; d].
Proof.
  intros Hall Hsf. unfold bb_audio2s. fold d.
  rewrite all_head_dim_ok by assumption. simpl.
  change (197 - 1) with 196.
  rewrite bb_prepare_spatial_all by assumption. simpl.
  rewrite bb_prepare_audio_all by assumption. simpl.
  rewrite same_width. fold d.
  rewrite attend_ok by assumption. simpl.
  unfold bb_restore. rewrite Hall. fold t.
  rewrite split_axis_r by assumption. simpl.
  now rewrite !Nat.eqb_refl.
Qed.

Lemma bb_s2audio_all (b : nat) :
  bb_attn_all_frame a = true -> sf <> 0 ->
  bb_s2audio a [197; b * t; d] [ap; b * sf; d] = Some [ap; b * sf; d].
Proof.
  intros Hall Hsf. unfold bb_s2audio. rewrite same_width. fold d.
  rewrite all_head_dim_ok by assumption. simpl.
  change (197 - 1) with 196.
  rewrite bb_prepare_spatial_all by assumption. simpl.
  rewrite bb_prepare_audio_all by assumption. simpl.
  rewrite attend_ok by assumption. simpl.
  unfold bb_restore. rewrite Hall. fold sf.
  now rewrite split_axis_r by assumption.
Qed.

Lemma bb_audio2s_frame (bt : nat) :
  bb_attn_all_frame a = false ->
  bb_audio2s a [197; bt; d] [ap; bt; d] = Some [197; bt; d].
Proof.
  intros Hall. unfold bb_audio2s. fold d.
  rewrite all_head_dim_ok by assumption. simpl.
  change (197 - 1) with 196.
  rewrite bb_prepare_spatial_frame by assumption. simpl.
  rewrite bb_prepare_audio_frame by assumption. simpl.
  rewrite same_width. fold d.
  rewrite attend_ok by assumption. simpl.
  unfold bb_restore. rewrite Hall. simpl.
  now rewrite !Nat.eqb_refl.
Qed.

Lemma bb_s2audio_frame (bt : nat) :
  bb_attn_all_frame a = false ->
  bb_s2audio a [197; bt; d] [ap; bt; d] = Some [ap; bt; d].
Proof.
  intros Hall. unfold bb_s2audio. rewrite same_width. fold d.
  rewrite all_head_dim_ok by assumption. simpl.
  change (197 - 1) with 196.
  rewrite bb_prepare_spatial_frame by assumption. simpl.
  rewrite bb_prepare_audio_frame by assumption. simpl.
  rewrite attend_ok by assumption. simpl.
  unfold bb_restore. now rewrite Hall.
Qed.

Lemma bb_audio2t_all (b : nat) :
  bb_attn_all_frame a = true -> sf <> 0 ->
  bb_audio2t a [b; t * 196; d] [ap; b * sf; d] = Some [b; t * 196; d].
Proof.
  intros Hall Hsf. unfold bb_audio2t. fold d.
  rewrite all_head_dim_ok by assumption. simpl.
  rewrite bb_prepare_temporal_all by assumption. simpl.
  rewrite bb_prepare_audio_all by assumption. simpl.
  rewrite same_width. fold d.
  rewrite attend_ok by assumption. simpl.
  now rewrite Hall.
Qed.

Lemma bb_t2audio_all (b : nat) :
  bb_attn_all_frame a = true -> sf <> 0 ->
  bb_t2audio a [b; t * 196; d] [ap; b * sf; d] = Some [ap; b * sf; d].
Proof.
  intros Hall Hsf. unfold bb_t2audio. rewrite same_width. fold d.
  rewrite all_head_dim_ok by assumption. simpl.
  rewrite bb_prepare_temporal_all by assumption. simpl.
  rewrite bb_prepare_audio_all by assumption. simpl.
  rewrite attend_ok by assumption. simpl.
  unfold bb_restore. rewrite Hall. fold sf.
  now rewrite split_axis_r by assumption.
Qed.

Lemma bb_audio2t_frame (b : nat) :
  bb_attn_all_frame a = false ->
  bb_audio2t a [b; t * 196; d] [ap; b * t; d] = Some [b; t * 196; d].
Proof.
  intros Hall. unfold bb_audio2t. fold d.
  rewrite all_head_dim_ok by assumption. simpl.
  rewrite bb_prepare_temporal_frame by assumption. simpl.
  rewrite bb_prepare_audio_frame by assumption. simpl.
  rewrite same_width. fold d.
  rewrite attend_ok by assumption. simpl.
  rewrite Hall. fold t.
  now rewrite split_axis_r by assumption.
Qed.

Lemma bb_t2audio_frame (b : nat) :
  bb_attn_all_frame a = false ->
  bb_t2audio a [b; t * 196; d] [ap; b * t; d] = Some [ap; b * t; d].
Proof.
  intros Hall. unfold bb_t2audio. rewrite same_width. fold d.
  rewrite all_head_dim_ok by assumption. simpl.
  rewrite bb_prepare_temporal_frame by assumption. simpl.
  rewrite bb_prepare_audio_frame by assumption. simpl.
  rewrite attend_ok by assumption. simpl.
  unfold bb_restore. now rewrite Hall.
Qed.
End BeatsAttentions.

(** The steps of a cell around its two attentions: down-projections and
    norms, then for each direction the attention (rewritten with its shape
    lemma), the up-projection and the residual addition. *)
Ltac cell_steps H1 H2 :=
  rewrite !linear3; unfold obind at 1; rewrite layer_norm3; unfold obind at 1;
  unfold obind at 1; rewrite layer_norm3; unfold obind at 1;
  rewrite H1; unfold obind at 1; rewrite linear3; unfold obind at 1;
  rewrite H2; unfold obind at 1; rewrite linear3; unfold obind at 1;
  now rewrite !broadcast_refl3.

(** The cell on the streams it is built for. *)
Lemma b_cast_ok (c : b_cast_config) (l r : shape) :
  bc_well_formed c -> bc_valid c l r -> b_cast c l r = Some (l, r).
Proof.
  intros [Hdr [Hh [Hhd [Hw Ht]]]] Hv.
  assert (Hg : guard (negb (bc_down_ratio c =? 0)) = Some tt).
  { destruct (bc_down_ratio c =? 0) eqn:E; [| reflexivity].
    apply Nat.eqb_eq in E. contradiction. }
  unfold b_cast. rewrite Hg. unfold obind at 1.
  destruct Hv as [b Hty Hb | b Hty Hall Hsf | bt Hty Hall | b Hty Hall Hsf | b Hty Hall].
  - pose proof (@bb_t2s_ok (bc_attention c) Hh Hhd Ht b Hb) as H1.
    pose proof (@bb_s2t_ok (bc_attention c) Hh Hhd Ht b Hb) as H2.
    unfold bc_r2l, bc_l2r, bc_r_down, bc_r_dim, bc_attention in *.
    rewrite Hty in *.
    cbn [bb_dim bb_audio_dim bb_n_head bb_frames bb_spec_frames
         bb_attn_all_frame bb_audio_patch] in *.
    cell_steps H1 H2.
  - pose proof (@bb_audio2s_all (bc_attention c) Hh Hhd Hw Ht b Hall Hsf) as H1.
    pose proof (@bb_s2audio_all (bc_attention c) Hh Hhd Hw Ht b Hall Hsf) as H2.
    unfold bc_r2l, bc_l2r, bc_r_down, bc_r_dim, bc_attention in *.
    rewrite Hty in *.
    cbn [bb_dim bb_audio_dim bb_n_head bb_frames bb_spec_frames
         bb_attn_all_frame bb_audio_patch] in *.
    rewrite Hw in H1, H2 |- *.
    cell_steps H1 H2.
  - pose proof (@bb_audio2s_frame (bc_attention c) Hh Hhd Hw bt Hall) as H1.
    pose proof (@bb_s2audio_frame (bc_attention c) Hh Hhd Hw bt Hall) as H2.
    unfold bc_r2l, bc_l2r, bc_r_down, bc_r_dim, bc_attention in *.
    rewrite Hty in *.
    cbn [bb_dim bb_audio_dim bb_n_head bb_frames bb_spec_frames
         bb_attn_all_frame bb_audio_patch] in *.
    rewrite Hw in H1, H2 |- *.
    cell_steps H1 H2.
  - pose proof (@bb_audio2t_all (bc_attention c) Hh Hhd Hw Ht b Hall Hsf) as H1.
    pose proof (@bb_t2audio_all (bc_attention c) Hh Hhd Hw Ht b Hall Hsf) as H2.
    unfold bc_r2l, bc_l2r, bc_r_down, bc_r_dim, bc_attention in *.
    rewrite Hty in *.
    cbn [bb_dim bb_audio_dim bb_n_head bb_frames bb_spec_frames
         bb_attn_all_frame bb_audio_patch] in *.
    rewrite Hw in H1, H2 |- *.
    cell_steps H1 H2.
  - pose proof (@bb_audio2t_frame (bc_attention c) Hh Hhd Hw Ht b Hall) as H1.
    pose proof (@bb_t2audio_frame (bc_attention c) Hh Hhd Hw Ht b Hall) as H2.
    unfold bc_r2l, bc_l2r, bc_r_down, bc_r_dim, bc_attention in *.
    rewrite Hty in *.
    cbn [bb_dim bb_audio_dim bb_n_head bb_frames bb_spec_frames
         bb_attn_all_frame bb_audio_patch] in *.
    rewrite Hw in H1, H2 |- *.
    cell_steps H1 H2.
Qed.

(** ** audio_cast: the two directed attentions and the cross stage *)

Record ac_attention : Type := mkAcAttention {
  aa_dim : nat;               (* dim // down_ratio *)
  aa_n_head : nat;
  aa_frames : nat;            (* num_frames as passed to the constructor *)
  aa_spec_frames : nat;
  aa_attn_all_frame : bool;
  aa_audio_patch : nat;
  aa_video_patch : nat;
  aa_time_encoding : bool;
  aa_time_embedding_type : bool;
  aa_use_stpos : bool
}.

(** [self.time_embedding_type = time_embedding_type if time_encoding else False] *)
Definition aa_concat (a : ac_attention) : bool :=
  if aa_time_encoding a then aa_time_embedding_type a else false.

(** [dim = dim * 2 if time_encoding else dim] under
    [self.time_embedding_type]: the width the positional tensors and the
    projections are built for. *)
Definition aa_width (a : ac_attention) : nat :=
  if aa_concat a then aa_dim a * 2 else aa_dim a.

(** The three linears of a module. *)
Definition aa_projections (a : ac_attention) (ahd : nat) : projections :=
  if aa_concat a
  then mkProjections (aa_width a) (ahd / 2) (aa_width a) ahd (ahd / 2)
                     (aa_width a / 2) (aa_n_head a)
  else mkProjections (aa_width a) ahd (aa_width a) (ahd * 2) ahd
                     (aa_width a) (aa_n_head a).

(** [torch.cat([x, te], dim=-1)] of two 4-dimensional tensors. *)
Definition cat_last4 (x te : shape) : option shape :=
  match x, te with
  | [b; t; n; d], [b'; t'; n'; d'] =>
      if (b =? b') && (t =? t') && (n =? n') then Some [b; t; n; d + d'] else None
  | _, _ => None
  end.

(** The time encoding of one operand, in the [attn_all_frame] branch:
<<
    if self.time_embedding_type:
        x = torch.cat([x,time_encodings[i]],dim=-1) if self.time_encoding else x
    else:
        x = x + time_encodings[i] if self.time_encoding else x
>>
    ([time_encodings] is [None] unless the model computes them). *)
Definition aa_time (a : ac_attention) (x : shape) (te : option shape) : option shape :=
  if aa_concat a then
    if aa_time_encoding a
    then match te with Some e => cat_last4 x e | None => None end
    else Some x
  else
    if aa_time_encoding a
    then match te with Some e => broadcast x e | None => None end
    else Some x.

(** [x + pos if self.use_stpos else x] *)
Definition aa_stpos (a : ac_attention) (x pos : shape) : option shape :=
  if aa_use_stpos a then broadcast x pos else Some x.

(** The preparation of the spatial patches; [expand] is the factor of the
    [unsqueeze(1).expand(...)] ([t // spec_frames] in S2T, [t] in T2S). *)
Definition aa_prepare_spatial (a : ac_attention) (expand : nat) (s_x_pat : shape)
    (te : option shape) : option shape :=
  let t := aa_frames a / 2 in
  let sf := aa_spec_frames a in
  match s_x_pat with
  | [n; bt; d] =>
      b <- split_axis bt sf ;;
      if aa_attn_all_frame a then
        x <- aa_time a [b; sf; n; d] te ;;
        x <- aa_stpos a x [aa_audio_patch a; aa_width a] ;;
        x <- match x with [b; t; n; d] => Some [b; n; t; d] | _ => None end ;;
        x <- aa_stpos a x [sf; aa_width a] ;;
        match x with [b; n; t; d] => Some [b; n * t; d] | _ => None end
      else
        x <- broadcast [b; n; sf; d] [sf; aa_width a] ;;
        x <- match x with [b; n; t; d] => Some [b * t; n; d] | _ => None end ;;
        if sf =? t then Some x
        else match x with [bs; n; d] => Some [bs * expand; n; d] | _ => None end
  | _ => None
  end.

(** The preparation of the temporal tokens; [space] is the length of
    [vmae_space_pos] (196 in S2T, [video_patch] in T2S). *)
Definition aa_prepare_temporal (a : ac_attention) (space : nat) (t_x : shape)
    (te : option shape) : option shape :=
  let t := aa_frames a / 2 in
  match t_x with
  | [b; tn; d] =>
      n <- split_axis tn t ;;
      if aa_attn_all_frame a then
        x <- aa_time a [b; t; n; d] te ;;
        x <- aa_stpos a x [space; aa_width a] ;;
        x <- match x with [b; t; n; d] => Some [b; n; t; d] | _ => None end ;;
        x <- aa_stpos a x [t; aa_width a] ;;
        match x with [b; n; t; d] => Some [b; n * t; d] | _ => None end
      else
        x <- broadcast [b; n; t; d] [t; aa_width a] ;;
        match x with [b; n; t; d] => Some [b * t; n; d] | _ => None end
  | _ => None
  end.

(** [CrossAttentionS2T.s2t_cross_attn(s_x, t_x, time_encodings)] *)
Definition ac_s2t (a : ac_attention) (s_x t_x : shape)
    (time_encodings : option (shape * shape)) : option shape :=
  let t := aa_frames a / 2 in
  ahd <- all_head_dim (aa_width a) (aa_n_head a) ;;
  match t_x with
  | [B; _; _] =>
      s_x_pat <- drop_class s_x ;;
      s_x_pat <- aa_prepare_spatial a (t / aa_spec_frames a) s_x_pat
                   (option_map fst time_encodings) ;;
      t_x <- aa_prepare_temporal a 196 t_x (option_map snd time_encodings) ;;
      t_x <- attend (aa_projections a ahd) t_x s_x_pat ;;
      match t_x with
      | [b; n; d] =>
          if aa_attn_all_frame a then
            n' <- split_axis n t ;; Some [b; t * n'; d]
          else
            t' <- split_axis b B ;; Some [B; t' * n; d]
      | _ => None
      end
  | _ => None
  end.

(** [CrossAttentionT2S.t2s_cross_attn(s_x, t_x, time_encodings)]; the last
    case of the rearrangement back is followed by the mean over [t]. *)
Definition ac_t2s (a : ac_attention) (s_x t_x : shape)
    (time_encodings : option (shape * shape)) : option shape :=
  let t := aa_frames a / 2 in
  let sf := aa_spec_frames a in
  ahd <- all_head_dim (aa_width a) (aa_n_head a) ;;
  match t_x, s_x with
  | [B; _; _], [n; bt; d] =>
      ok <- guard (negb (n =? 0)) ;;
      let s_x_cls := [bt; d] in
      s_x_pat <- drop_class s_x ;;
      s_x_pat <- aa_prepare_spatial a t s_x_pat (option_map fst time_encodings) ;;
      t_x <- aa_prepare_temporal a (aa_video_patch a) t_x
               (option_map snd time_encodings) ;;
      s_x_pat <- attend (aa_projections a ahd) s_x_pat t_x ;;
      s_x_pat <- match s_x_pat with
                 | [b; n; d] =>
                     if aa_attn_all_frame a then
                       n' <- split_axis n sf ;; Some [n'; b * sf; d]
                     else if sf =? t then Some [n; b; d]
                     else b' <- split_axis b t ;; Some [n; b'; d]
                 | _ => None
                 end ;;
      cat0 (1 :: s_x_cls) s_x_pat
  | _, _ => None
  end.

Record ac_stage : Type := mkAcStage {
  st_dim : nat;
  st_num_heads : nat;
  st_num_frames : nat;
  st_down_ratio : nat;
  st_spec_frames : nat;
  st_attn_all_frame : bool;
  st_audio_patch : nat;
  st_video_patch : nat;
  st_time_encoding : bool;
  st_time_embedding_type : bool;
  st_use_stpos : bool
}.

(** The arguments [Block.__init__] gives [CrossAttentionT2S] and
    [CrossAttentionS2T]. *)
Definition st_attention (c : ac_stage) : ac_attention :=
  mkAcAttention (st_dim c / st_down_ratio c) (st_num_heads c) (st_num_frames c)
                (st_spec_frames c) (st_attn_all_frame c) (st_audio_patch c)
                (st_video_patch c) (st_time_encoding c)
                (st_time_embedding_type c) (st_use_stpos c).

(** The cross stage of [Block.forward]:
<<
    n_s_x = self.ln_s_cross(self.cross_s_down(s_x))
    n_t_x = self.ln_t_cross(self.cross_t_down(t_x))
    c_s_x = self.cross_s_up(self.act(self.t2s_cross(n_s_x, n_t_x, time_encodings, ...)))
    c_t_x = self.cross_t_up(self.act(self.s2t_cross(n_s_x, n_t_x, time_encodings, ...)))
    s_x = s_x + self.drop_path(c_s_x)
    t_x = t_x + self.drop_path(c_t_x)
>> *)
Definition ac_cross (c : ac_stage) (time_encodings : option (shape * shape))
    (s_x t_x : shape) : option (shape * shape) :=
  ok <- guard (negb (st_down_ratio c =? 0)) ;;
  let dd := st_dim c / st_down_ratio c in
  n_s_x <- linear (st_dim c) dd s_x ;;
  n_s_x <- layer_norm dd n_s_x ;;
  n_t_x <- linear (st_dim c) dd t_x ;;
  n_t_x <- layer_norm dd n_t_x ;;
  c_s_x <- ac_t2s (st_attention c) n_s_x n_t_x time_encodings ;;
  c_s_x <- linear dd (st_dim c) c_s_x ;;
  c_t_x <- ac_s2t (st_attention c) n_s_x n_t_x time_encodings ;;
  c_t_x <- linear dd (st_dim c) c_t_x ;;
  s_x' <- broadcast s_x c_s_x ;;
  t_x' <- broadcast t_x c_t_x ;;
  Some (s_x', t_x').

(** ** The shapes an audio_cast cross stage is built for *)

Definition aa_well_formed (a : ac_attention) : Prop :=
  aa_n_head a <> 0
  /\ aa_frames a / 2 <> 0
  /\ aa_width a / aa_n_head a <> 0
  /\ (aa_concat a = true ->
      aa_attn_all_frame a = true /\ (aa_width a / aa_n_head a) mod 2 = 0).

Definition st_well_formed (c : ac_stage) : Prop :=
  st_down_ratio c <> 0 /\ aa_well_formed (st_attention c).

(** The time encodings [forward] hands down: [None] unless the model has
    [time_encoding], then one [b t n d] tensor per stream at the reduced
    width. *)
Definition aa_time_ok (a : ac_attention) (te : option shape) (x : shape) : Prop :=
  aa_time_encoding a = true -> te = Some x.

(** The streams of a model with [n] spatial patches and the class token,
    [N] temporal patches per frame pair, [t = num_frames // 2] and [b]
    clips. *)
Inductive st_valid (c : ac_stage) (te : option (shape * shape))
  : shape -> shape -> Prop :=
| st_valid_frame_same (b n N : nat) :
    st_attn_all_frame c = false ->
    st_spec_frames c = st_num_frames c / 2 -> b <> 0 ->
    st_valid c te [S n; b * (st_num_frames c / 2); st_dim c]
                  [b; st_num_frames c / 2 * N; st_dim c]
| st_valid_frame_one (b n N : nat) :
    st_attn_all_frame c = false ->
    st_spec_frames c = 1 -> st_num_frames c / 2 <> 1 -> b <> 0 ->
    st_valid c te [S n; b; st_dim c] [b; st_num_frames c / 2 * N; st_dim c]
| st_valid_all (b n N : nat) :
    st_attn_all_frame c = true -> st_spec_frames c <> 0 ->
    (st_use_stpos c = true ->
     n = st_audio_patch c /\ N = 196 /\ st_video_patch c = 196) ->
    aa_time_ok (st_attention c) (option_map fst te)
               [b; st_spec_frames c; n; st_dim c / st_down_ratio c] ->
    aa_time_ok (st_attention c) (option_map snd te)
               [b; st_num_frames c / 2; N; st_dim c / st_down_ratio c] ->
    st_valid c te [S n; b * st_spec_frames c; st_dim c]
                  [b; st_num_frames c / 2 * N; st_dim c].

Lemma broadcast_refl4 (a b c d : nat) :
  broadcast [a; b; c; d] [a; b; c; d] = Some [a; b; c; d].
Proof. unfold broadcast; simpl. now rewrite !bcast_dim_refl. Qed.

Lemma split_axis_1 (n : nat) : split_axis n 1 = Some n.
Proof.
  unfold split_axis. change (1 =? 0) with false. cbv iota.
  now rewrite Nat.mod_1_r, Nat.div_1_r.
Qed.

Section AudioCastAttentions.
Local Arguments obind {A B} !o k /.
Local Arguments Nat.mul : simpl never.
Local Arguments Nat.div : simpl never.
Local Arguments Nat.modulo : simpl never.
Local Arguments Nat.sub : simpl never.
Local Arguments linear : simpl never.
Local Arguments layer_norm : simpl never.
Local Arguments broadcast : simpl never.
Local Arguments attend : simpl never.
Local Arguments split_axis : simpl never.
Local Arguments all_head_dim : simpl never.
Local Arguments aa_prepare_spatial : simpl never.
Local Arguments aa_prepare_temporal : simpl never.
Local Arguments aa_projections : simpl never.
Local Arguments aa_time : simpl never.
Local Arguments aa_stpos : simpl never.

Variable a : ac_attention.
Let t := aa_frames a / 2.
Let sf := aa_spec_frames a.
Let d := aa_dim a.
Let w := aa_width a.
Hypothesis well_formed : aa_well_formed a.

Lemma aa_heads : aa_n_head a <> 0.
Proof. apply well_formed. Qed.

Lemma aa_frames_pos : t <> 0.
Proof. apply well_formed. Qed.

Lemma aa_all_head_dim :
  all_head_dim w (aa_n_head a) = Some (w / aa_n_head a * aa_n_head a).
Proof. apply all_head_dim_ok; apply well_formed. Qed.

(** Without concatenation the attentions work at the reduced width. *)
Lemma aa_width_plain : aa_concat a = false -> w = d.
Proof. intros H. unfold w, aa_width. now rewrite H. Qed.

Lemma aa_attend_ok (b n m : nat) :
  attend (aa_projections a (w / aa_n_head a * aa_n_head a)) [b; n; w] [b; m; w]
  = Some [b; n; d].
Proof.
  pose proof aa_heads as Hh.
  unfold aa_projections. fold w. destruct (aa_concat a) eqn:Ec.
  - destruct well_formed as [_ [_ [_ Heven]]].
    destruct (Heven Ec) as [_ Hmod]. fold w in Hmod.
    apply Nat.Div0.div_exact in Hmod.
    set (k := w / aa_n_head a / 2) in *.
    rewrite Hmod.
    replace (2 * k * aa_n_head a / 2) with (k * aa_n_head a)
      by (replace (2 * k * aa_n_head a) with (k * aa_n_head a * 2) by lia;
          now rewrite Nat.div_mul).
    replace (2 * k * aa_n_head a) with (k * aa_n_head a * 2) by lia.
    replace (w / 2) with d
      by (unfold w, aa_width; rewrite Ec; fold d; now rewrite Nat.div_mul).
    now apply attend_ok.
  - rewrite (aa_width_plain Ec). now apply attend_ok.
Qed.

Lemma aa_time_width (b f n : nat) (te : option shape) :
  aa_time_ok a te [b; f; n; d] -> aa_time a [b; f; n; d] te = Some [b; f; n; w].
Proof.
  unfold aa_time_ok, aa_time, w, aa_width, aa_concat. fold d.
  intros Hte.
  destruct (aa_time_encoding a); [| reflexivity].
  rewrite (Hte eq_refl).
  destruct (aa_time_embedding_type a).
  - unfold cat_last4. rewrite !Nat.eqb_refl. simpl.
    now replace (d + d) with (d * 2) by lia.
  - apply broadcast_refl4.
Qed.

Lemma aa_stpos_tail4 (b0 b1 b2 p : nat) :
  (aa_use_stpos a = true -> b2 = p) ->
  aa_stpos a [b0; b1; b2; w] [p; w] = Some [b0; b1; b2; w].
Proof.
  intros Hp. unfold aa_stpos. destruct (aa_use_stpos a); [| reflexivity].
  rewrite <- (Hp eq_refl). apply broadcast_tail4.
Qed.

Lemma aa_prepare_spatial_all (e b n : nat) (te : option shape) :
  aa_attn_all_frame a = true -> sf <> 0 ->
  (aa_use_stpos a = true -> n = aa_audio_patch a) ->
  aa_time_ok a te [b; sf; n; d] ->
  aa_prepare_spatial a e [n; b * sf; d] te = Some [b; n * sf; w].
Proof.
  intros Hall Hsf Hpos Hte. unfold aa_prepare_spatial. rewrite Hall. fold sf w.
  rewrite split_axis_r by assumption. simpl.
  rewrite aa_time_width by assumption. simpl.
  rewrite aa_stpos_tail4 by assumption. simpl.
  rewrite aa_stpos_tail4 by reflexivity. reflexivity.
Qed.

Lemma aa_prepare_temporal_all (space b N : nat) (te : option shape) :
  aa_attn_all_frame a = true ->
  (aa_use_stpos a = true -> N = space) ->
  aa_time_ok a te [b; t; N; d] ->
  aa_prepare_temporal a space [b; t * N; d] te = Some [b; N * t; w].
Proof.
  intros Hall Hpos Hte. unfold aa_prepare_temporal. rewrite Hall. fold t w.
  rewrite split_axis_l by apply aa_frames_pos. simpl.
  rewrite aa_time_width by assumption. simpl.
  rewrite aa_stpos_tail4 by assumption. simpl.
  rewrite aa_stpos_tail4 by reflexivity. reflexivity.
Qed.

Lemma ac_t2s_all (b n N : nat) (te : option (shape * shape)) :
  aa_attn_all_frame a = true -> sf <> 0 ->
  (aa_use_stpos a = true -> n = aa_audio_patch a /\ N = aa_video_patch a) ->
  aa_time_ok a (option_map fst te) [b; sf; n; d] ->
  aa_time_ok a (option_map snd te) [b; t; N; d] ->
  ac_t2s a [S n; b * sf; d] [b; t * N; d] te = Some [S n; b * sf; d].
Proof.
  intros Hall Hsf Hpos Hte0 Hte1. unfold ac_t2s. fold w t sf.
  rewrite aa_all_head_dim. simpl.
  replace (S n - 1) with n by lia.
  rewrite aa_prepare_spatial_all; try assumption; [| intros H; now apply Hpos].
  simpl.
  rewrite aa_prepare_temporal_all; try assumption; [| intros H; now apply Hpos].
  simpl.
  rewrite aa_attend_ok. simpl. rewrite Hall.
  rewrite split_axis_r by assumption. simpl.
  now rewrite !Nat.eqb_refl.
Qed.

Lemma ac_s2t_all (b n N : nat) (te : option (shape * shape)) :
  aa_attn_all_frame a = true -> sf <> 0 ->
  (aa_use_stpos a = true -> n = aa_audio_patch a /\ N = 196) ->
  aa_time_ok a (option_map fst te) [b; sf; n; d] ->
  aa_time_ok a (option_map snd te) [b; t; N; d] ->
  ac_s2t a [S n; b * sf; d] [b; t * N; d] te = Some [b; t * N; d].
Proof.
  intros Hall Hsf Hpos Hte0 Hte1. unfold ac_s2t. fold w t sf.
  rewrite aa_all_head_dim. simpl.
  replace (S n - 1) with n by lia.
  rewrite aa_prepare_spatial_all; try assumption; [| intros H; now apply Hpos].
  simpl.
  rewrite aa_prepare_temporal_all; try assumption; [| intros H; now apply Hpos].
  simpl.
  rewrite aa_attend_ok. simpl. rewrite Hall.
  now rewrite split_axis_r by apply aa_frames_pos.
Qed.

(** Per-frame attention: the concatenated time encoding needs
    [attn_all_frame], so the width is the reduced one. *)
Lemma aa_frame_plain : aa_attn_all_frame a = false -> w = d.
Proof.
  intros Hall. apply aa_width_plain.
  destruct (aa_concat a) eqn:Ec; [| reflexivity].
  destruct well_formed as [_ [_ [_ Heven]]].
  destruct (Heven Ec) as [Hall' _]. congruence.
Qed.

Lemma aa_prepare_temporal_frame (space b N : nat) (te : option shape) :
  aa_attn_all_frame a = false ->
  aa_prepare_temporal a space [b; t * N; d] te = Some [b * t; N; d].
Proof.
  intros Hall. unfold aa_prepare_temporal. rewrite Hall. fold t w.
  rewrite (aa_frame_plain Hall).
  rewrite split_axis_l by apply aa_frames_pos. simpl.
  now rewrite broadcast_tail4.
Qed.

Lemma aa_prepare_spatial_same (e b n : nat) (te : option shape) :
  aa_attn_all_frame a = false -> sf = t ->
  aa_prepare_spatial a e [n; b * t; d] te = Some [b * t; n; d].
Proof.
  intros Hall Hsame. unfold aa_prepare_spatial. rewrite Hall. fold t sf w.
  rewrite (aa_frame_plain Hall), Hsame.
  rewrite split_axis_r by apply aa_frames_pos. simpl.
  rewrite broadcast_tail4. simpl. now rewrite Nat.eqb_refl.
Qed.

Lemma aa_prepare_spatial_one (e b n : nat) (te : option shape) :
  aa_attn_all_frame a = false -> sf = 1 -> t <> 1 ->
  aa_prepare_spatial a e [n; b; d] te = Some [b * e; n; d].
Proof.
  intros Hall Hone Ht. unfold aa_prepare_spatial. rewrite Hall. fold t sf w.
  rewrite (aa_frame_plain Hall), Hone.
  destruct (1 =? t) eqn:E; [apply Nat.eqb_eq in E; congruence |].
  rewrite split_axis_1. simpl.
  rewrite broadcast_tail4. simpl.
  now rewrite Nat.mul_1_r.
Qed.

Lemma ac_t2s_same (b n N : nat) (te : option (shape * shape)) :
  aa_attn_all_frame a = false -> sf = t ->
  ac_t2s a [S n; b * t; d] [b; t * N; d] te = Some [S n; b * t; d].
Proof.
  intros Hall Hsame. unfold ac_t2s. fold w t sf.
  rewrite aa_all_head_dim. simpl.
  replace (S n - 1) with n by lia.
  rewrite aa_prepare_spatial_same by assumption. simpl.
  rewrite aa_prepare_temporal_frame by assumption. simpl.
  rewrite <- (aa_frame_plain Hall) at 1 2.
  rewrite aa_attend_ok. simpl. rewrite Hall, Hsame, Nat.eqb_refl. simpl.
  now rewrite !Nat.eqb_refl.
Qed.

Lemma ac_s2t_same (b n N : nat) (te : option (shape * shape)) :
  aa_attn_all_frame a = false -> sf = t -> b <> 0 ->
  ac_s2t a [S n; b * t; d] [b; t * N; d] te = Some [b; t * N; d].
Proof.
  intros Hall Hsame Hb. unfold ac_s2t. fold w t sf.
  rewrite aa_all_head_dim. simpl.
  replace (S n - 1) with n by lia.
  rewrite aa_prepare_spatial_same by assumption. simpl.
  rewrite aa_prepare_temporal_frame by assumption. simpl.
  rewrite <- (aa_frame_plain Hall) at 1 2.
  rewrite aa_attend_ok. simpl. rewrite Hall.
  now rewrite split_axis_l by assumption.
Qed.

Lemma ac_t2s_one (b n N : nat) (te : option (shape * shape)) :
  aa_attn_all_frame a = false -> sf = 1 -> t <> 1 ->
  ac_t2s a [S n; b; d] [b; t * N; d] te = Some [S n; b; d].
Proof.
  intros Hall Hone Ht. unfold ac_t2s. fold w t sf.
  rewrite aa_all_head_dim. simpl.
  replace (S n - 1) with n by lia.
  rewrite aa_prepare_spatial_one by assumption. simpl.
  rewrite aa_prepare_temporal_frame by assumption. simpl.
  rewrite <- (aa_frame_plain Hall) at 1 2.
  rewrite aa_attend_ok. simpl. rewrite Hall, Hone.
  destruct (1 =? t) eqn:E; [apply Nat.eqb_eq in E; congruence |].
  rewrite split_axis_r by apply aa_frames_pos. simpl.
  now rewrite !Nat.eqb_refl.
Qed.

Lemma ac_s2t_one (b n N : nat) (te : option (shape * shape)) :
  aa_attn_all_frame a = false -> sf = 1 -> t <> 1 -> b <> 0 ->
  ac_s2t a [S n; b; d] [b; t * N; d] te = Some [b; t * N; d].
Proof.
  intros Hall Hone Ht Hb. unfold ac_s2t. fold w t sf.
  rewrite aa_all_head_dim. simpl.
  replace (S n - 1) with n by lia.
  rewrite aa_prepare_spatial_one by assumption. simpl.
  rewrite aa_prepare_temporal_frame by assumption. simpl.
  rewrite Hone, Nat.div_1_r.
  rewrite <- (aa_frame_plain Hall) at 1 2.
  rewrite aa_attend_ok. simpl. rewrite Hall.
  now rewrite split_axis_l by assumption.
Qed.
End AudioCastAttentions.

(** The cross stage on the streams it is built for. *)
Lemma ac_cross_ok (c : ac_stage) (te : option (shape * shape)) (s_x t_x : shape) :
  st_well_formed c -> st_valid c te s_x t_x -> ac_cross c te s_x t_x = Some (s_x, t_x).
Proof.
  intros [Hdr Hwf] Hv.
  assert (Hg : guard (negb (st_down_ratio c =? 0)) = Some tt).
  { destruct (st_down_ratio c =? 0) eqn:E; [| reflexivity].
    apply Nat.eqb_eq in E. contradiction. }
  unfold ac_cross. rewrite Hg. unfold obind at 1.
  destruct Hv as [b n N Hall Hsame Hb | b n N Hall Hone Ht Hb
                 | b n N Hall Hsf Hpos Hte0 Hte1].
  - pose proof (@ac_t2s_same (st_attention c) Hwf b n N te Hall Hsame) as H1.
    pose proof (@ac_s2t_same (st_attention c) Hwf b n N te Hall Hsame Hb) as H2.
    cbn [st_attention aa_dim aa_frames] in H1, H2.
    cell_steps H1 H2.
  - pose proof (@ac_t2s_one (st_attention c) Hwf b n N te Hall Hone Ht) as H1.
    pose proof (@ac_s2t_one (st_attention c) Hwf b n N te Hall Hone Ht Hb) as H2.
    cbn [st_attention aa_dim aa_frames] in H1, H2.
    cell_steps H1 H2.
  - assert (Hp1 : aa_use_stpos (st_attention c) = true ->
                  n = aa_audio_patch (st_attention c)
                  /\ N = aa_video_patch (st_attention c)).
    { intros H. destruct (Hpos H) as [Hn [HN Hvp]]. cbn. split; congruence. }
    assert (Hp2 : aa_use_stpos (st_attention c) = true ->
                  n = aa_audio_patch (st_attention c) /\ N = 196).
    { intros H. destruct (Hpos H) as [Hn [HN Hvp]]. now split. }
    pose proof (@ac_t2s_all (st_attention c) Hwf b n N te Hall Hsf Hp1 Hte0 Hte1) as H1.
    pose proof (@ac_s2t_all (st_attention c) Hwf b n N te Hall Hsf Hp2 Hte0 Hte1) as H2.
    cbn [st_attention aa_dim aa_frames aa_spec_frames] in H1, H2.
    cell_steps H1 H2.
Qed.

(** ** The cross-modal cells of the two model files *)

Inductive cell : Type :=
| BCast (c : b_cast_config)
| AudioCastCross (c : ac_stage) (time_encodings : option (shape * shape)).

(** [cell(L, R)] on shapes. *)
Definition cell_forward (k : cell) (L R : shape) : option (shape * shape) :=
  match k with
  | BCast c => b_cast c L R
  | AudioCastCross c te => ac_cross c te L R
  end.

Definition cell_well_formed (k : cell) : Prop :=
  match k with
  | BCast c => bc_well_formed c
  | AudioCastCross c _ => st_well_formed c
  end.

(** The shapes the cell is built for: those of [bc_valid] and [st_valid]. *)
Definition valid_shapes (k : cell) (L R : shape) : Prop :=
  match k with
  | BCast c => bc_valid c L R
  | AudioCastCross c te => st_valid c te L R
  end.

(** C5.  For every cell that can be constructed and every pair of streams
    of the shapes the cell is built for, the cell returns, and the shapes of
    its outputs are the shapes of its inputs: [cell(L, R)] has shape
    [(L.shape, R.shape)]. *)
Theorem cell_preserves_shapes (k : cell) (L R : shape) :
  cell_well_formed k -> valid_shapes k L R -> cell_forward k L R = Some (L, R).
Proof.
  destruct k as [c | c te]; simpl.
  - apply b_cast_ok.
  - apply ac_cross_ok.
Qed.

(** The spatial-temporal cell of the base model (width 768, 12 heads, 16
    frames, down ratio 2) on a batch of two clips. *)
Definition base_s_t : b_cast_config :=
  mkBCast 768 12 16 2 768 12 S_T true 1 196.

Lemma base_s_t_well_formed : bc_well_formed base_s_t.
Proof. unfold bc_well_formed; cbn; repeat split; discriminate. Qed.

Lemma cell_preserves_shapes_witness :
  cell_forward (BCast base_s_t) [197; 2 * (16 / 2); 768] [2; 16 / 2 * 196; 768]
  = Some ([197; 2 * (16 / 2); 768], [2; 16 / 2 * 196; 768]).
Proof.
  apply (@cell_preserves_shapes (BCast base_s_t)).
  - exact base_s_t_well_formed.
  - apply (@valid_s_t base_s_t 2); [reflexivity | discriminate].
Defined.

(** The cross stage of the base audio_cast model, with one spectrogram
    frame per clip and attention over all frames. *)
Definition base_stage : ac_stage :=
  mkAcStage 768 12 16 2 1 true 196 196 false false true.

Example base_stage_shapes :
  cell_forward (AudioCastCross base_stage None) [197; 2; 768] [2; 1568; 768]
  = Some ([197; 2; 768], [2; 1568; 768]).
Proof. vm_compute. reflexivity. Qed.

(** Outside these shapes a cell can return other shapes than it was given:
    with one frame pair per clip, a temporal stream of a single token is
    broadcast against the 196 positional rows and comes back with 196
    tokens. *)
Example single_token_stream_is_broadcast :
  cell_forward (BCast (mkBCast 4 1 2 2 4 1 S_T true 1 196)) [197; 1; 4] [1; 1; 4]
  = Some ([197; 1; 4], [1; 196; 4]).
Proof. vm_compute. reflexivity. Qed.

End CellShapes.

(* ------------------------------------------------------------------ *)
(** * [compute_video]: the per-video flags of the merged evaluation
      (engine_for_both_prompt, engine_for_prompt_OV) *)

Module ComputeVideo.
Import ActionAccuracy.

(** What [np.mean(feats, axis=0)] gives for a list of score vectors: the
    vector of column means, or the scalar [nan] for an empty list. *)
Inductive scores : Type :=
| Vec (v : list Q)
| NanScalar.

Definition column (views : list (list Q)) (j : nat) : list Q :=
  map (fun v => nth j v 0%Q) views.

Definition Qsum (l : list Q) : Q := fold_left Qplus l 0%Q.

(** [None]: the views differ in length (numpy refuses the ragged array). *)
Definition mean_axis0 (views : list (list Q)) : option scores :=
  match views with
  | [] => Some NanScalar
  | v :: vs =>
      if forallb (fun w => length w =? length v) vs then
        Some (Vec (map (fun j => (Qsum (column views j)
                                  / inject_Z (Z.of_nat (length views)))%Q)
                       (seq 0 (length v))))
      else None
  end.

(** [np.argmax] of a vector: the first index of its largest entry. *)
Fixpoint argmax_from (best : Q) (bi i : nat) (l : list Q) : nat :=
  match l with
  | [] => bi
  | x :: l' =>
      if Qltb best x then argmax_from x i (S i) l'
      else argmax_from best bi (S i) l'
  end.

(** [None]: "attempt to get argmax of an empty sequence". *)
Definition argmax (f : scores) : option nat :=
  match f with
  | Vec [] => None
  | Vec (x :: l) => Some (argmax_from x 0 1 l)
  | NanScalar => Some 0
  end.

Fixpoint max_from (best : Q) (l : list Q) : Q :=
  match l with
  | [] => best
  | x :: l' => if Qltb best x then max_from x l' else max_from best l'
  end.

(** [np.max] *)
Definition amax (f : scores) : option float :=
  match f with
  | Vec [] => None
  | Vec (x :: l) => Some (Num (max_from x l))
  | NanScalar => Some NaN
  end.

(** [np.argsort(-feat)[:5]] *)
Definition top5 (f : scores) : list nat :=
  match f with
  | Vec v => firstn 5 (argsort_desc v)
  | NanScalar => [0]
  end.

Definition member (label : Z) (l : list nat) : bool :=
  existsb (fun i => Z.eqb (Z.of_nat i) label) l.

Record result : Type := mkResult {
  pred_noun : nat;
  pred_verb : nat;
  top1_action : bool;
  top5_action : bool;
  top1_noun : bool;
  top1_verb : bool;
  top5_noun : bool;
  top5_verb : bool;
  conf_noun : float;
  conf_verb : float
}.

(** [compute_video(lst)] for [lst = [i, video_id, data_noun, data_verb,
    label, label_action]]; the labels are given by the integers [int(...)]
    reads from them, the flags [(...) * 1.0] by their truth value:
<<
    feat_noun = np.mean(feat_noun, axis=0)
    feat_verb = np.mean(feat_verb, axis=0)
    pred_noun = np.argmax(feat_noun)
    pred_verb = np.argmax(feat_verb)
    conf_noun = np.max(feat_noun)
    conf_verb = np.max(feat_verb)
    label_noun, label_verb = label
    pred_action = (pred_verb * 1000) + pred_noun
    top1_action = (int(pred_action) == int(label_action)) * 1.0
    top5_action = (int(label_noun) in np.argsort(-feat_noun)[:5] and int(label_verb) in np.argsort(-feat_verb)[:5]) * 1.0
    top1_noun = (int(pred_noun) == int(label_noun)) * 1.0
    top5_noun = (int(label_noun) in np.argsort(-feat_noun)[:5]) * 1.0
    top1_verb = (int(pred_verb) == int(label_verb)) * 1.0
    top5_verb = (int(label_verb) in np.argsort(-feat_verb)[:5]) * 1.0
>> *)
Definition compute_video (data_noun data_verb : list (list Q))
    (label : Z * Z) (label_action : Z) : option result :=
  feat_noun <- mean_axis0 data_noun ;;
  feat_verb <- mean_axis0 data_verb ;;
  pred_noun <- argmax feat_noun ;;
  pred_verb <- argmax feat_verb ;;
  conf_noun <- amax feat_noun ;;
  conf_verb <- amax feat_verb ;;
  let '(label_noun, label_verb) := label in
  let pred_action := pred_verb * 1000 + pred_noun in
  Some (mkResult pred_noun pred_verb
          (Z.eqb (Z.of_nat pred_action) label_action)
          (member label_noun (top5 feat_noun) && member label_verb (top5 feat_verb))
          (Z.eqb (Z.of_nat pred_noun) label_noun)
          (Z.eqb (Z.of_nat pred_verb) label_verb)
          (member label_noun (top5 feat_noun))
          (member label_verb (top5 feat_verb))
          conf_noun conf_verb).

(** ** The predicted index lies inside the score vector *)

Lemma argmax_from_bound (l : list Q) (best : Q) (bi i : nat) :
  bi < i -> argmax_from best bi i l < i + length l.
Proof.
  revert best bi i. induction l as [| x l IH]; intros best bi i H; simpl.
  - lia.
  - destruct (Qltb best x).
    + specialize (IH x i (S i)). lia.
    + specialize (IH best bi (S i)). lia.
Qed.

Lemma argmax_vec_bound (v : list Q) (p : nat) :
  argmax (Vec v) = Some p -> p < length v.
Proof.
  destruct v as [| x l]; simpl; [discriminate |].
  intros [= <-]. pose proof (@argmax_from_bound l x 0 1). lia.
Qed.

Lemma mean_axis0_length (views : list (list Q)) (v : list Q) :
  mean_axis0 views = Some (Vec v) ->
  exists w, In w views /\ length v = length w.
Proof.
  destruct views as [| w ws]; simpl; [discriminate |].
  destruct (forallb _ ws); [| discriminate].
  intros [= <-]. exists w. split; [now left |].
  now rewrite length_map, length_seq.
Qed.

(** The noun predicted for a video is below the number of noun scores of
    one of its views (or 0 for a video without views). *)
Lemma pred_noun_bound (views : list (list Q)) (f : scores) (p bound : nat) :
  0 < bound ->
  (forall w, In w views -> length w <= bound) ->
  mean_axis0 views = Some f -> argmax f = Some p -> p < bound.
Proof.
  intros Hpos Hw Hm Ha. destruct f as [v |].
  - apply argmax_vec_bound in Ha.
    destruct (mean_axis0_length _ Hm) as [w [Hin Hl]].
    specialize (Hw w Hin). lia.
  - simpl in Ha. injection Ha as <-. exact Hpos.
Qed.

(** X1.  When the action label of a video is composed as final_test writes
    it ([verb * 1000 + noun]), its noun label is in [0, 1000) and no view
    has more than 1000 noun scores, the video is counted as a top-1 action
    hit exactly when both its noun and its verb are top-1 hits. *)
Theorem top1_action_iff_noun_and_verb
    (data_noun data_verb : list (list Q)) (label_noun label_verb : Z)
    (r : result) :
  (0 <= label_noun < 1000)%Z ->
  (forall w, In w data_noun -> length w <= 1000) ->
  compute_video data_noun data_verb (label_noun, label_verb)
                (label_verb * 1000 + label_noun) = Some r ->
  top1_action r = top1_noun r && top1_verb r.
Proof.
  intros Hl Hw. unfold compute_video.
  destruct (mean_axis0 data_noun) as [fn |] eqn:En; [| discriminate].
  destruct (mean_axis0 data_verb) as [fv |]; [| discriminate].
  simpl.
  destruct (argmax fn) as [pn |] eqn:Ean; [| discriminate].
  destruct (argmax fv) as [pv |]; [| discriminate].
  simpl.
  destruct (amax fn); [| discriminate].
  destruct (amax fv); [| discriminate].
  simpl. intros [= <-]. simpl.
  assert (Hpn : pn < 1000) by (apply (@pred_noun_bound data_noun fn pn 1000); auto; lia).
  destruct (Z.eqb_spec (Z.of_nat pn) label_noun) as [Hn | Hn];
    destruct (Z.eqb_spec (Z.of_nat pv) label_verb) as [Hv | Hv]; simpl.
  - apply Z.eqb_eq. lia.
  - apply Z.eqb_neq. lia.
  - apply Z.eqb_neq. lia.
  - apply Z.eqb_neq. lia.
Qed.

(** Two views of a video with three nouns and two verbs. *)
Definition demo_views_noun : list (list Q) :=
  [[1#10; 7#10; 2#10]%Q; [2#10; 5#10; 3#10]%Q].
Definition demo_views_verb : list (list Q) :=
  [[6#10; 4#10]%Q; [3#10; 7#10]%Q].

Definition demo_result : result :=
  mkResult 1 1 true true true true true true (Num (120#200)) (Num (110#200)).

Lemma top1_action_iff_noun_and_verb_witness :
  top1_action demo_result = top1_noun demo_result && top1_verb demo_result.
Proof.
  apply (@top1_action_iff_noun_and_verb demo_views_noun demo_views_verb 1%Z 1%Z).
  - lia.
  - intros w [<- | [<- | []]]; simpl; lia.
  - vm_compute. reflexivity.
Defined.

End ComputeVideo.

(* ------------------------------------------------------------------ *)
(** * [merge]: reading the per-process result files back
      (engine_for_both_prompt, engine_for_prompt_OV) *)

Module Merge.

(** ** The string operations [merge] uses, on ASCII text *)

(** [s.split(sep)] for a one-character separator. *)
Fixpoint split (sep : ascii) (s : string) : list string :=
  match s with
  | EmptyString => [EmptyString]
  | String c s' =>
      if Ascii.eqb c sep then EmptyString :: split sep s'
      else match split sep s' with
           | w :: ws => String c w :: ws
           | [] => [String c EmptyString]
           end
  end.

(** The characters [str.strip()] removes: tab, line feed, vertical tab, form
    feed, carriage return, the four separators 28..31 and the space. *)
Definition is_space (c : ascii) : bool :=
  let n := nat_of_ascii c in
  ((9 <=? n) && (n <=? 13)) || ((28 <=? n) && (n <=? 32)).

Fixpoint lstrip (s : string) : string :=
  match s with
  | EmptyString => EmptyString
  | String c s' => if is_space c then lstrip s' else s
  end.

Fixpoint rstrip (s : string) : string :=
  match s with
  | EmptyString => EmptyString
  | String c s' =>
      match rstrip s' with
      | EmptyString => if is_space c then EmptyString else String c EmptyString
      | r => String c r
      end
  end.

Definition strip (s : string) : string := rstrip (lstrip s).

Definition newline : string := String (ascii_of_nat 10) EmptyString.

Fixpoint all (p : ascii -> bool) (s : string) : bool :=
  match s with
  | EmptyString => true
  | String c s' => p c && all p s'
  end.

Definition is_not (sep c : ascii) : bool := negb (Ascii.eqb c sep).
Definition no_bracket (c : ascii) : bool := is_not "[" c && is_not "]" c.
Definition field_char (c : ascii) : bool := negb (is_space c) && no_bracket c.

Definition starts_with_text (s : string) : bool :=
  match s with
  | EmptyString => false
  | String c _ => negb (is_space c)
  end.

(** [str(values)] for a list of numbers, given the text of each number. *)
Definition str_list (items : list string) : string :=
  ("[" ++ String.concat ", " items ++ "]")%string.

(** The line [final_test] writes for one clip:
<<
    string = "{} {} {} {} {} {} {} {}\n".format(ids[i],
                 str(noun_logits.data[i].cpu().numpy().tolist()),
                 str(outputs_verb.data[i].cpu().numpy().tolist()),
                 str(int(action_target[i].cpu().numpy())),
                 str(int(target[i,0].cpu().numpy())),
                 str(int(target[i,1].cpu().numpy())),
                 str(int(chunk_nb[i].cpu().numpy())),
                 str(int(split_nb[i].cpu().numpy())))
>>
    with every argument given by its text. *)
Definition format_line (id noun_logits verb_logits action noun verb chunk split_ : string)
  : string :=
  (id ++ " " ++ noun_logits ++ " " ++ verb_logits ++ " " ++ action ++ " " ++ noun
      ++ " " ++ verb ++ " " ++ chunk ++ " " ++ split_ ++ newline)%string.

(** *** Facts about the string operations *)

Lemma append_assoc (a b c : string) : ((a ++ b) ++ c = a ++ (b ++ c))%string.
Proof. induction a as [| x a IH]; simpl; [reflexivity | now rewrite IH]. Qed.

Lemma all_app (p : ascii -> bool) (a b : string) :
  all p (a ++ b) = all p a && all p b.
Proof.
  induction a as [| x a IH]; simpl; [reflexivity |].
  now rewrite IH, andb_assoc.
Qed.

Lemma all_impl (p q : ascii -> bool) (s : string) :
  (forall c, p c = true -> q c = true) -> all p s = true -> all q s = true.
Proof.
  intros Hpq. induction s as [| x s IH]; simpl; [reflexivity |].
  intros H. apply andb_true_iff in H. destruct H as [H1 H2].
  now rewrite (Hpq _ H1), IH.
Qed.

Lemma all_concat (p : ascii -> bool) (sep : string) (items : list string) :
  all p sep = true -> forallb (all p) items = true ->
  all p (String.concat sep items) = true.
Proof.
  intros Hs. induction items as [| x items IH]; simpl; [reflexivity |].
  intros H. apply andb_true_iff in H. destruct H as [H1 H2].
  destruct items as [| y items]; [assumption |].
  rewrite !all_app, H1, Hs. simpl. now apply IH.
Qed.

Lemma split_none (sep : ascii) (s : string) :
  all (is_not sep) s = true -> split sep s = [s].
Proof.
  induction s as [| x s IH]; simpl; [reflexivity |].
  intros H. apply andb_true_iff in H. destruct H as [H1 H2].
  unfold is_not in H1. apply negb_true_iff in H1. rewrite H1.
  now rewrite IH.
Qed.

Lemma split_at (sep : ascii) (a b : string) :
  all (is_not sep) a = true ->
  split sep (a ++ String sep b) = a :: split sep b.
Proof.
  induction a as [| x a IH]; simpl.
  - intros _. now rewrite Ascii.eqb_refl.
  - intros H. apply andb_true_iff in H. destruct H as [H1 H2].
    unfold is_not in H1. apply negb_true_iff in H1. rewrite H1.
    now rewrite IH.
Qed.

Lemma lstrip_text (s r : string) :
  starts_with_text s = true -> lstrip (s ++ r) = (s ++ r)%string.
Proof.
  destruct s as [| c s]; simpl; [discriminate |].
  intros H. apply negb_true_iff in H. now rewrite H.
Qed.

(** [rstrip] takes nothing off a text whose tail it leaves non-empty. *)
Definition keeps (q q' : string) : Prop := rstrip q = q' /\ q' <> EmptyString.

Lemma keeps_cons (c : ascii) (q q' : string) :
  keeps q q' -> keeps (String c q) (String c q').
Proof.
  intros [H1 H2]. split; [| discriminate].
  simpl. rewrite H1. destruct q'; [contradiction | reflexivity].
Qed.

Lemma keeps_app (p q q' : string) : keeps q q' -> keeps (p ++ q) (p ++ q').
Proof.
  intros H. induction p as [| c p IH]; simpl; [assumption |].
  now apply keeps_cons.
Qed.

Lemma keeps_field (s : string) :
  all field_char s = true -> s <> EmptyString -> keeps (s ++ newline) s.
Proof.
  induction s as [| c s IH]; [contradiction |].
  intros H _. simpl in H. apply andb_true_iff in H. destruct H as [H1 H2].
  unfold field_char in H1. apply andb_true_iff in H1. destruct H1 as [H1 _].
  apply negb_true_iff in H1.
  destruct s as [| c' s].
  - split; [| discriminate]. simpl. now rewrite H1.
  - apply keeps_cons. apply IH; [assumption | discriminate].
Qed.

Lemma field_char_not_space (c : ascii) : field_char c = true -> is_not " " c = true.
Proof.
  unfold field_char, is_not. intros H. apply andb_true_iff in H.
  destruct H as [H _]. apply negb_true_iff in H. apply negb_true_iff.
  destruct (Ascii.eqb_spec c " ") as [-> | Hc]; [| reflexivity].
  discriminate H.
Qed.

Lemma field_char_no_bracket (c : ascii) : field_char c = true -> no_bracket c = true.
Proof. unfold field_char. intros H. now apply andb_true_iff in H. Qed.

Lemma no_bracket_open (c : ascii) : no_bracket c = true -> is_not "[" c = true.
Proof. unfold no_bracket. intros H. now apply andb_true_iff in H. Qed.

Lemma no_bracket_close (c : ascii) : no_bracket c = true -> is_not "]" c = true.
Proof. unfold no_bracket. intros H. now apply andb_true_iff in H. Qed.

Section Lines.
(** The type of the score vectors
    [softmax(np.fromstring(text, dtype=float, sep=','))]. *)
Variable Scores : Type.

Record line : Type := mkLine {
  name : string;
  label_action : string;
  label_noun : string;
  label_verb : string;
  chunk_nb : string;
  split_nb : string;
  data_noun : Scores;
  data_verb : Scores
}.

(** ** The five dictionaries

    [dict_feats_noun], [dict_feats_verb], [dict_label], [dict_action_label]
    and [dict_pos] get their keys in the same [if] block, so they are one
    insertion-ordered dictionary of five-field entries. *)
Inductive label_slot : Type :=
| LabelZero                          (* dict_label[name] = 0 *)
| Labels (noun verb : string).       (* (label_noun, label_verb) *)

Inductive action_slot : Type :=
| ActionZero                         (* dict_action_label[name] = 0 *)
| Action (a : string).

Record entry : Type := mkEntry {
  feats_noun : list Scores;
  feats_verb : list Scores;
  pos : list string;
  label : label_slot;
  action_label : action_slot
}.

Definition dicts : Type := list (string * entry).

Fixpoint lookup (n : string) (d : dicts) : option entry :=
  match d with
  | [] => None
  | (k, e) :: d' => if String.eqb k n then Some e else lookup n d'
  end.

(** [d[n] = e] for a key that may be new. *)
Fixpoint store (n : string) (e : entry) (d : dicts) : dicts :=
  match d with
  | [] => [(n, e)]
  | (k, e') :: d' =>
      if String.eqb k n then (k, e) :: d' else (k, e') :: store n e d'
  end.

Definition mem (k : string) (l : list string) : bool := existsb (String.eqb k) l.

(** [chunk_nb + split_nb], the concatenation of the two texts. *)
Definition key (l : line) : string := (chunk_nb l ++ split_nb l)%string.

(** The body of the loop over the lines, after the parsing:
<<
    if not name in dict_feats_noun:
        dict_feats_noun[name] = []
        dict_feats_verb[name] = []
        dict_label[name] = 0
        dict_action_label[name] = 0
        dict_pos[name] = []
    if chunk_nb + split_nb in dict_pos[name]:
        continue
    dict_feats_noun[name].append(data_noun)
    dict_feats_verb[name].append(data_verb)
    dict_pos[name].append(chunk_nb + split_nb)
    dict_label[name] = (label_noun, label_verb)
    dict_action_label[name] = label_action
>> *)
Definition merge_step (d : dicts) (l : line) : dicts :=
  let d1 := match lookup (name l) d with
            | None => store (name l) (mkEntry [] [] [] LabelZero ActionZero) d
            | Some _ => d
            end in
  match lookup (name l) d1 with
  | None => d1
  | Some e =>
      if mem (key l) (pos e) then d1
      else store (name l)
             (mkEntry (feats_noun e ++ [data_noun l]) (feats_verb e ++ [data_verb l])
                      (pos e ++ [key l])
                      (Labels (label_noun l) (label_verb l))
                      (Action (label_action l)))
             d1
  end.

Definition merge_lines (ls : list line) : dicts := fold_left merge_step ls [].

(** ** What the loop keeps for every video *)

Definition entry_ok (e : entry) : Prop :=
  NoDup (pos e)
  /\ length (feats_noun e) = length (pos e)
  /\ length (feats_verb e) = length (pos e)
  /\ pos e <> []
  /\ label e <> LabelZero
  /\ action_label e <> ActionZero.

Lemma lookup_store_same (n : string) (e : entry) (d : dicts) :
  lookup n (store n e d) = Some e.
Proof.
  induction d as [| [k e'] d IH]; simpl.
  - now rewrite String.eqb_refl.
  - destruct (String.eqb k n) eqn:E; simpl; now rewrite E.
Qed.

Lemma lookup_store_other (n m : string) (e : entry) (d : dicts) :
  n <> m -> lookup m (store n e d) = lookup m d.
Proof.
  intros Hnm. induction d as [| [k e'] d IH]; simpl.
  - destruct (String.eqb_spec n m); [contradiction | reflexivity].
  - destruct (String.eqb_spec k n) as [-> | Hk]; simpl.
    + destruct (String.eqb_spec n m); [contradiction | reflexivity].
    + now rewrite IH.
Qed.

Lemma lookup_In (n : string) (e : entry) (d : dicts) :
  lookup n d = Some e -> In (n, e) d.
Proof.
  induction d as [| [k e'] d IH]; simpl; [discriminate |].
  destruct (String.eqb_spec k n) as [-> | Hk].
  - intros [= ->]. now left.
  - intros H. right. now apply IH.
Qed.

Lemma lookup_None (n : string) (d : dicts) :
  lookup n d = None -> ~ In n (map fst d).
Proof.
  induction d as [| [k e'] d IH]; simpl; [tauto |].
  destruct (String.eqb_spec k n) as [-> | Hk]; [discriminate |].
  intros H [Hkn | Hin]; [contradiction | now apply IH].
Qed.

Lemma store_keys_old (n : string) (e e0 : entry) (d : dicts) :
  lookup n d = Some e0 -> map fst (store n e d) = map fst d.
Proof.
  induction d as [| [k e'] d IH]; simpl; [discriminate |].
  destruct (String.eqb_spec k n) as [-> | Hk]; simpl; [reflexivity |].
  intros H. now rewrite IH.
Qed.

Lemma store_keys_new (n : string) (e : entry) (d : dicts) :
  lookup n d = None -> map fst (store n e d) = map fst d ++ [n].
Proof.
  induction d as [| [k e'] d IH]; simpl; [reflexivity |].
  destruct (String.eqb_spec k n) as [-> | Hk]; simpl; [discriminate |].
  intros H. now rewrite IH.
Qed.

Lemma store_In (n k : string) (e e' : entry) (d : dicts) :
  In (k, e') (store n e d) -> (k = n /\ e' = e) \/ In (k, e') d.
Proof.
  induction d as [| [k0 e0] d IH]; simpl.
  - intros [[= <- <-] | []]. now left.
  - destruct (String.eqb_spec k0 n) as [-> | Hk]; simpl.
    + intros [[= <- <-] | Hin]; [now left | right; now right].
    + intros [Heq | Hin]; [right; now left |].
      destruct (IH Hin) as [H | H]; [now left | right; now right].
Qed.

Lemma store_store (n : string) (e1 e2 : entry) (d : dicts) :
  store n e2 (store n e1 d) = store n e2 d.
Proof.
  induction d as [| [k e'] d IH]; simpl.
  - now rewrite String.eqb_refl.
  - destruct (String.eqb k n) eqn:E; simpl; rewrite E; [reflexivity |].
    now rewrite IH.
Qed.

Lemma mem_In (k : string) (l : list string) : mem k l = true <-> In k l.
Proof.
  unfold mem. rewrite existsb_exists. split.
  - intros [x [Hin Heq]]. apply String.eqb_eq in Heq. now subst x.
  - intros Hin. exists k. split; [assumption | apply String.eqb_refl].
Qed.

Definition dicts_ok (d : dicts) : Prop :=
  NoDup (map fst d) /\ forall n e, In (n, e) d -> entry_ok e.

Lemma NoDup_snoc {A : Type} (l : list A) (a : A) :
  NoDup l -> ~ In a l -> NoDup (l ++ [a]).
Proof.
  intros Hl Ha. apply NoDup_rev in Hl. rewrite <- (rev_involutive (l ++ [a])).
  apply NoDup_rev. rewrite rev_app_distr. simpl. constructor; [| assumption].
  now rewrite <- in_rev.
Qed.

Lemma merge_step_ok (d : dicts) (l : line) : dicts_ok d -> dicts_ok (merge_step d l).
Proof.
  intros [Hk He]. unfold merge_step.
  destruct (lookup (name l) d) as [e |] eqn:El.
  - (* a video seen before *)
    rewrite El.
    destruct (mem (key l) (pos e)) eqn:Em; [now split |].
    assert (Hin : ~ In (key l) (pos e)).
    { intros H. apply mem_In in H. congruence. }
    destruct (He _ _ (lookup_In _ _ El)) as [H1 [H2 [H3 [H4 [H5 H6]]]]].
    split.
    + now rewrite (store_keys_old _ _ _ El).
    + intros n e' Hin'. apply store_In in Hin'.
      destruct Hin' as [[-> ->] | Hin']; [| now apply (He n)].
      unfold entry_ok; simpl. rewrite !length_app; simpl.
      repeat split; try lia; try discriminate.
      * now apply NoDup_snoc.
      * intros H. now destruct (pos e).
  - (* a new video: created, then filled by the same line *)
    rewrite lookup_store_same. simpl. rewrite store_store.
    split.
    + rewrite store_keys_new by assumption.
      apply NoDup_snoc; [assumption | now apply lookup_None].
    + intros n e' Hin'. apply store_In in Hin'.
      destruct Hin' as [[-> ->] | Hin']; [| now apply (He n)].
      unfold entry_ok; simpl. repeat split; try discriminate.
      constructor; [intros [] | constructor].
Qed.

(** Every video of the merged dictionaries has at least one view, as many
    noun and verb score vectors as positions, no position twice, and the
    labels of a line (the initial 0 never survives); no video occurs
    twice. *)
Lemma merge_lines_ok (ls : list line) : dicts_ok (merge_lines ls).
Proof.
  unfold merge_lines.
  assert (H : forall d, dicts_ok d -> dicts_ok (fold_left merge_step ls d)).
  { induction ls as [| l ls IH]; intros d Hd; simpl; [assumption |].
    apply IH. now apply merge_step_ok. }
  apply H. split; [constructor | intros n e []].
Qed.

(** X4.  Every video [merge] hands to [compute_video] has at least one view,
    as many noun score vectors and verb score vectors as positions, no
    position text twice, and the labels of one of its lines (the initial 0
    never survives). *)
Theorem merged_video_is_well_formed (ls : list line) (n : string) (e : entry) :
  In (n, e) (merge_lines ls) ->
  NoDup (pos e)
  /\ length (feats_noun e) = length (pos e)
  /\ length (feats_verb e) = length (pos e)
  /\ feats_noun e <> []
  /\ label e <> LabelZero
  /\ action_label e <> ActionZero.
Proof.
  intros Hin. destruct (merge_lines_ok ls) as [_ He].
  destruct (He n e Hin) as [H1 [H2 [H3 [H4 [H5 H6]]]]].
  repeat split; try assumption.
  intros H. apply H4. apply length_zero_iff_nil.
  rewrite <- H2, H. reflexivity.
Qed.

(** ** A position seen once is never taken again *)

Definition seen (d : dicts) (l : line) : Prop :=
  exists e, lookup (name l) d = Some e /\ In (key l) (pos e).

Lemma merge_step_seen_self (d : dicts) (l : line) : seen (merge_step d l) l.
Proof.
  unfold merge_step, seen.
  destruct (lookup (name l) d) as [e |] eqn:El.
  - rewrite El. destruct (mem (key l) (pos e)) eqn:Em.
    + exists e. split; [assumption | now apply mem_In].
    + eexists. split; [apply lookup_store_same |].
      simpl. apply in_or_app. right. now left.
  - rewrite lookup_store_same. simpl.
    eexists. split; [apply lookup_store_same |]. simpl. now left.
Qed.

Lemma merge_step_seen_mono (d : dicts) (l l' : line) :
  seen d l' -> seen (merge_step d l) l'.
Proof.
  intros [e' [El' Hin']]. unfold merge_step, seen.
  destruct (lookup (name l) d) as [e |] eqn:El.
  - rewrite El. destruct (mem (key l) (pos e)) eqn:Em.
    + now exists e'.
    + destruct (String.eqb_spec (name l) (name l')) as [Hn | Hn].
      * rewrite Hn in *. rewrite lookup_store_same.
        eexists. split; [reflexivity |]. simpl.
        apply in_or_app. left. congruence.
      * rewrite lookup_store_other by assumption. now exists e'.
  - rewrite lookup_store_same. simpl. rewrite store_store.
    destruct (String.eqb_spec (name l) (name l')) as [Hn | Hn].
    + rewrite Hn in El. congruence.
    + rewrite lookup_store_other by assumption. now exists e'.
Qed.

Lemma fold_seen (ls : list line) (d : dicts) (l : line) :
  seen d l \/ In l ls -> seen (fold_left merge_step ls d) l.
Proof.
  revert d. induction ls as [| l0 ls IH]; intros d [H | H]; simpl.
  - assumption.
  - destruct H.
  - apply IH. left. now apply merge_step_seen_mono.
  - destruct H as [-> | H].
    + apply IH. left. apply merge_step_seen_self.
    + apply IH. now right.
Qed.

(** X2.  A line whose concatenated text [chunk_nb + split_nb] equals that of an
    earlier line of the same video changes nothing: its scores and labels
    are dropped, whether or not the two lines name the same chunk and
    split. *)
Theorem repeated_position_text_is_dropped (ls : list line) (l1 l2 : line) :
  In l1 ls -> name l1 = name l2 -> key l1 = key l2 ->
  merge_lines (ls ++ [l2]) = merge_lines ls.
Proof.
  intros Hin Hn Hk. unfold merge_lines. rewrite fold_left_app. simpl.
  destruct (@fold_seen ls [] l1 (or_intror Hin)) as [e [El He]].
  set (d := fold_left merge_step ls []) in *. clearbody d.
  unfold merge_step. rewrite <- Hn, El, El, <- Hk.
  apply mem_In in He. now rewrite He.
Qed.

(** ** Parsing the lines *)

Section Parsing.
(** [softmax(np.fromstring(text, dtype=float, sep=','))] of the text between
    two brackets. *)
Variable scores_of : string -> Scores.

(** The fields [merge] reads off one line; [None] is the [IndexError] of a
    missing piece:
<<
    line = line.strip()
    name = line.split('[')[0]
    label_action = line.split(']')[2].split(' ')[1]
    label_noun = line.split(']')[2].split(' ')[2]
    label_verb = line.split(']')[2].split(' ')[3]
    chunk_nb = line.split(']')[2].split(' ')[4]
    split_nb = line.split(']')[2].split(' ')[5]
    data_noun = np.fromstring(line.split('[')[1].split(']')[0], dtype=float, sep=',')
    data_verb = np.fromstring(line.split('[')[2].split(']')[0], dtype=float, sep=',')
    data_noun = softmax(data_noun)
    data_verb = softmax(data_verb)
>> *)
Definition parse_line (raw : string) : option line :=
  let line := strip raw in
  name <- nth_error (split "[" line) 0 ;;
  label_action <- (t <- nth_error (split "]" line) 2 ;; nth_error (split " " t) 1) ;;
  label_noun <- (t <- nth_error (split "]" line) 2 ;; nth_error (split " " t) 2) ;;
  label_verb <- (t <- nth_error (split "]" line) 2 ;; nth_error (split " " t) 3) ;;
  chunk_nb <- (t <- nth_error (split "]" line) 2 ;; nth_error (split " " t) 4) ;;
  split_nb <- (t <- nth_error (split "]" line) 2 ;; nth_error (split " " t) 5) ;;
  data_noun <- (p <- nth_error (split "[" line) 1 ;; nth_error (split "]" p) 0) ;;
  data_verb <- (p <- nth_error (split "[" line) 2 ;; nth_error (split "]" p) 0) ;;
  Some (mkLine name label_action label_noun label_verb chunk_nb split_nb
               (scores_of data_noun) (scores_of data_verb)).

(** The loop over the files: the first line of each file is skipped
    ([readlines()[1:]]); a line that cannot be parsed ends the run. *)
Definition read_files (files : list (list string)) : option dicts :=
  ls <- omap parse_line (concat (map (@tl string) files)) ;;
  Some (merge_lines ls).

(** ** Reading back what [final_test] wrote *)

Section RoundTrip.
Variables id a n v c s : string.
Variables nouns verbs : list string.
Hypothesis id_text : starts_with_text id = true.
Hypothesis id_plain : all no_bracket id = true.
Hypothesis nouns_plain : forallb (all no_bracket) nouns = true.
Hypothesis verbs_plain : forallb (all no_bracket) verbs = true.
Hypothesis a_field : all field_char a = true.
Hypothesis n_field : all field_char n = true.
Hypothesis v_field : all field_char v = true.
Hypothesis c_field : all field_char c = true.
Hypothesis s_field : all field_char s = true.
Hypothesis s_text : s <> EmptyString.

Let N : string := String.concat ", " nouns.
Let V : string := String.concat ", " verbs.
Let T (e : string) : string :=
  (a ++ String " " (n ++ String " " (v ++ String " " (c ++ String " " e))))%string.
Let R2 (e : string) : string := (V ++ String "]" (String " " (T e)))%string.
Let R1 (e : string) : string := (N ++ String "]" (String " " (String "[" (R2 e))))%string.
Let L (e : string) : string := (id ++ String " " (String "[" (R1 e)))%string.

Lemma format_line_shape :
  format_line id (str_list nouns) (str_list verbs) a n v c s = L (s ++ newline).
Proof.
  unfold format_line, str_list, L, R1, R2, T. fold N V.
  simpl. rewrite !append_assoc. simpl. reflexivity.
Qed.

Lemma strip_format_line :
  strip (format_line id (str_list nouns) (str_list verbs) a n v c s) = L s.
Proof.
  rewrite format_line_shape. unfold strip, L, R1, R2, T.
  rewrite lstrip_text by assumption.
  apply (@keeps_app id). do 2 apply keeps_cons.
  apply (@keeps_app N). do 3 apply keeps_cons.
  apply (@keeps_app V). do 2 apply keeps_cons.
  apply (@keeps_app a). apply keeps_cons.
  apply (@keeps_app n). apply keeps_cons.
  apply (@keeps_app v). apply keeps_cons.
  apply (@keeps_app c). apply keeps_cons.
  now apply keeps_field.
Qed.

Lemma N_plain : all no_bracket N = true.
Proof. now apply all_concat. Qed.

Lemma V_plain : all no_bracket V = true.
Proof. now apply all_concat. Qed.

Lemma T_plain : all no_bracket (T s) = true.
Proof.
  unfold T. repeat (rewrite all_app; simpl).
  rewrite (@all_impl _ _ _ field_char_no_bracket a_field),
          (@all_impl _ _ _ field_char_no_bracket n_field),
          (@all_impl _ _ _ field_char_no_bracket v_field),
          (@all_impl _ _ _ field_char_no_bracket c_field),
          (@all_impl _ _ _ field_char_no_bracket s_field).
  reflexivity.
Qed.

Lemma split_open_L :
  split "[" (L s)
  = [(id ++ " ")%string; (N ++ String "]" " ")%string; R2 s].
Proof.
  unfold L, R1.
  replace (id ++ String " " (String "[" (N ++ String "]" (String " " (String "[" (R2 s))))))%string
    with ((id ++ " ") ++ String "[" ((N ++ String "]" " ") ++ String "[" (R2 s)))%string
    by (repeat (rewrite append_assoc; simpl); reflexivity).
  rewrite split_at, split_at, split_none; [reflexivity | | |].
  - unfold R2. rewrite all_app. simpl.
    rewrite (@all_impl _ _ _ no_bracket_open V_plain), (@all_impl _ _ _ no_bracket_open T_plain).
    reflexivity.
  - rewrite all_app. simpl.
    now rewrite (@all_impl _ _ _ no_bracket_open N_plain).
  - rewrite all_app. simpl.
    now rewrite (@all_impl _ _ _ no_bracket_open id_plain).
Qed.

Lemma split_close_L :
  split "]" (L s)
  = [(id ++ String " " (String "[" N))%string;
     (String " " (String "[" V))%string;
     String " " (T s)].
Proof.
  unfold L, R1, R2.
  replace (id ++ String " " (String "[" (N ++ String "]" (String " " (String "["
             (V ++ String "]" (String " " (T s))))))))%string
    with ((id ++ String " " (String "[" N)) ++ String "]"
            ((String " " (String "[" V)) ++ String "]" (String " " (T s))))%string
    by (repeat (rewrite append_assoc; simpl); reflexivity).
  rewrite split_at, split_at, split_none; [reflexivity | | |].
  - simpl. now rewrite (@all_impl _ _ _ no_bracket_close T_plain).
  - simpl. now rewrite (@all_impl _ _ _ no_bracket_close V_plain).
  - rewrite all_app. simpl.
    now rewrite (@all_impl _ _ _ no_bracket_close id_plain),
                (@all_impl _ _ _ no_bracket_close N_plain).
Qed.

Lemma split_fields : split " " (String " " (T s)) = [EmptyString; a; n; v; c; s].
Proof.
  change (split " " (String " " (T s))) with (EmptyString :: split " " (T s)).
  unfold T.
  rewrite !split_at, split_none; try reflexivity;
    eapply all_impl; try apply field_char_not_space; assumption.
Qed.

(** X3.  [merge] reads back from a line of [final_test] exactly the labels and
    positions that were written, with the video name followed by a space,
    whenever the clip id starts with a visible character and has no
    bracket, the numbers have none either, and the five integer fields are
    non-blank texts without brackets (as [str(int(...))] gives). *)
Theorem merge_reads_what_final_test_writes :
  parse_line (format_line id (str_list nouns) (str_list verbs) a n v c s)
  = Some (mkLine (id ++ " ") a n v c s (scores_of N) (scores_of V)).
Proof.
  unfold parse_line. rewrite strip_format_line, split_open_L, split_close_L.
  cbn [nth_error obind]. rewrite split_fields. cbn [nth_error obind].
  rewrite split_at by (exact (@all_impl _ _ _ no_bracket_close N_plain)).
  unfold R2.
  rewrite split_at by (exact (@all_impl _ _ _ no_bracket_close V_plain)).
  reflexivity.
Qed.
End RoundTrip.
End Parsing.

End Lines.

(** Three lines of one video: the second repeats the position of the first,
    the third has chunk 11 and split 2 where the first has chunk 1 and
    split 12. *)
Definition demo_line (chunk split_ : string) (score : nat) : line nat :=
  mkLine "P01_101_3 " "5003" "3" "5" chunk split_ score score.

Lemma merged_video_is_well_formed_witness :
  NoDup ["112"%string]
  /\ length [7] = length ["112"%string]
  /\ length [7] = length ["112"%string]
  /\ [7] <> []
  /\ Labels "3" "5" <> LabelZero
  /\ Action "5003" <> ActionZero.
Proof.
  apply (@merged_video_is_well_formed nat
           [demo_line "1" "12" 7; demo_line "1" "12" 8]
           "P01_101_3 "%string
           (mkEntry [7] [7] ["112"%string] (Labels "3" "5") (Action "5003"))).
  vm_compute. now left.
Defined.

Lemma repeated_position_text_is_dropped_witness :
  (chunk_nb (demo_line "1" "12" 7), split_nb (demo_line "1" "12" 7))
  <> (chunk_nb (demo_line "11" "2" 9), split_nb (demo_line "11" "2" 9))
  /\ merge_lines ([demo_line "1" "12" 7] ++ [demo_line "11" "2" 9])
     = merge_lines [demo_line "1" "12" 7].
Proof.
  split; [discriminate |].
  apply (@repeated_position_text_is_dropped nat
           [demo_line "1" "12" 7] (demo_line "1" "12" 7) (demo_line "11" "2" 9)).
  - now left.
  - reflexivity.
  - reflexivity.
Defined.

Lemma merge_reads_what_final_test_writes_witness :
  parse_line (fun text => text)
    (format_line "P01_101_3" (str_list ["0.5"; "-1.25"]%string)
                 (str_list ["2.0"; "0.0"]%string) "1000" "0" "1" "4" "2")
  = Some (mkLine "P01_101_3 " "1000" "0" "1" "4" "2"
                 "0.5, -1.25"%string "2.0, 0.0"%string).
Proof.
  apply (@merge_reads_what_final_test_writes string (fun text => text)
           "P01_101_3" "1000" "0" "1" "4" "2"
           ["0.5"; "-1.25"]%string ["2.0"; "0.0"]%string);
    try reflexivity.
  discriminate.
Defined.

End Merge.

(* ------------------------------------------------------------------ *)
(** * [train_one_epoch]: the learning-rate and weight-decay schedule of one
      iteration (the three engines share these lines) *)

Module TrainSchedule.

Record param_group : Type := mkGroup {
  lr : Q;
  lr_scale : Q;
  weight_decay : Q
}.

Inductive error : Type :=
| ZeroDivisionError    (* data_iter_step // update_freq with update_freq = 0 *)
| IndexError.          (* a schedule shorter than the iteration number *)

Record config : Type := mkConfig {
  start_steps : nat;
  update_freq : nat;
  num_training_steps_per_epoch : nat;
  lr_schedule_values : option (list Q);
  wd_schedule_values : option (list Q)
}.

Definition is_some {A : Type} (o : option A) : bool :=
  match o with Some _ => true | None => false end.

(** [x > 0] *)
Definition positive (x : Q) : bool := negb (Qle_bool x 0).

(** The body of the loop over [optimizer.param_groups]:
<<
    if lr_schedule_values is not None:
        param_group["lr"] = lr_schedule_values[it] * param_group["lr_scale"]
    if wd_schedule_values is not None and param_group["weight_decay"] > 0:
        param_group["weight_decay"] = wd_schedule_values[it]
>> *)
Definition update_group (cfg : config) (it : nat) (g : param_group)
  : option param_group :=
  g1 <- match lr_schedule_values cfg with
        | Some lrs =>
            v <- nth_error lrs it ;;
            Some (mkGroup (v * lr_scale g)%Q (lr_scale g) (weight_decay g))
        | None => Some g
        end ;;
  match wd_schedule_values cfg with
  | Some wds =>
      if positive (weight_decay g1) then
        w <- nth_error wds it ;;
        Some (mkGroup (lr g1) (lr_scale g1) w)
      else Some g1
  | None => Some g1
  end.

Inductive outcome : Type :=
| Skipped                                   (* continue *)
| Trained (groups : list param_group)       (* the groups the iteration trains with *)
| Raised (e : error).

(** The head of one iteration of the loop over the data loader:
<<
    step = data_iter_step // update_freq
    if step >= num_training_steps_per_epoch:
        continue
    it = start_steps + step  # global training iteration
    # Update LR & WD for the first acc
    if lr_schedule_values is not None or wd_schedule_values is not None and data_iter_step % update_freq == 0:
        for i, param_group in enumerate(optimizer.param_groups):
            ...
>>
    Python reads the condition as [A or (B and C)]. *)
Definition schedule_step (cfg : config) (data_iter_step : nat)
    (groups : list param_group) : outcome :=
  if update_freq cfg =? 0 then Raised ZeroDivisionError
  else
    let step := data_iter_step / update_freq cfg in
    if num_training_steps_per_epoch cfg <=? step then Skipped
    else
      let it := start_steps cfg + step in
      if is_some (lr_schedule_values cfg)
         || (is_some (wd_schedule_values cfg)
             && (data_iter_step mod update_freq cfg =? 0))
      then match omap (update_group cfg it) groups with
           | Some groups' => Trained groups'
           | None => Raised IndexError
           end
      else Trained groups.

(** The two values logged after the iteration:
<<
    min_lr = 10.
    max_lr = 0.
    for group in optimizer.param_groups:
        min_lr = min(min_lr, group["lr"])
        max_lr = max(max_lr, group["lr"])
>>
    [min(a, b)] is [b] when [b < a] and [a] otherwise; [max(a, b)] is [b]
    when [b > a]. *)
Definition py_min (a b : Q) : Q := if Qle_bool a b then a else b.
Definition py_max (a b : Q) : Q := if Qle_bool b a then a else b.

Definition logged_lr (groups : list param_group) : Q * Q :=
  fold_left (fun acc g => (py_min (fst acc) (lr g), py_max (snd acc) (lr g)))
            groups (10%Q, 0%Q).

(** ** One update is enough *)

Lemma update_group_idem (cfg : config) (it : nat) (g g' : param_group) :
  update_group cfg it g = Some g' -> update_group cfg it g' = Some g'.
Proof.
  unfold update_group.
  destruct (lr_schedule_values cfg) as [lrs |]; simpl.
  - destruct (nth_error lrs it) as [v |] eqn:Ev; simpl; [| discriminate].
    destruct (wd_schedule_values cfg) as [wds |]; simpl.
    + destruct (positive (weight_decay g)) eqn:Ep.
      * destruct (nth_error wds it) as [w |] eqn:Ew; simpl; [| discriminate].
        intros [= <-]. simpl.
        destruct (positive w); simpl; rewrite ?Ew; reflexivity.
      * intros [= <-]. simpl. rewrite ?Ep. reflexivity.
    + intros [= <-]. reflexivity.
  - destruct (wd_schedule_values cfg) as [wds |]; simpl.
    + destruct (positive (weight_decay g)) eqn:Ep.
      * destruct (nth_error wds it) as [w |] eqn:Ew; simpl; [| discriminate].
        intros [= <-]. simpl.
        destruct (positive w); simpl; rewrite ?Ew; reflexivity.
      * intros [= <-]. simpl. rewrite ?Ep. reflexivity.
    + intros [= <-]. reflexivity.
Qed.

Lemma omap_update_idem (cfg : config) (it : nat) (gs gs' : list param_group) :
  omap (update_group cfg it) gs = Some gs' ->
  omap (update_group cfg it) gs' = Some gs'.
Proof.
  revert gs'. induction gs as [| g gs IH]; intros gs'; simpl.
  - intros [= <-]. reflexivity.
  - destruct (update_group cfg it g) as [g' |] eqn:Eg; simpl; [| discriminate].
    destruct (omap (update_group cfg it) gs) as [gs1 |]; simpl; [| discriminate].
    intros [= <-]. simpl.
    now rewrite (update_group_idem _ _ _ Eg), (IH gs1 eq_refl).
Qed.

(** X5.  After the first micro-step of an optimizer step has set the rates, the
    other micro-steps of the same optimizer step train with the same
    parameter groups: the update they repeat (with an lr schedule the
    condition holds on every micro-step) changes nothing. *)
Theorem later_micro_steps_keep_the_groups (cfg : config) (i j : nat)
    (groups groups1 : list param_group) :
  i mod update_freq cfg = 0 -> i <= j < i + update_freq cfg ->
  schedule_step cfg i groups = Trained groups1 ->
  schedule_step cfg j groups1 = Trained groups1.
Proof.
  intros Hi Hj. unfold schedule_step.
  destruct (update_freq cfg =? 0) eqn:Eu; [discriminate |].
  apply Nat.eqb_neq in Eu.
  assert (Hdiv : j / update_freq cfg = i / update_freq cfg).
  { apply Nat.Div0.div_exact in Hi.
    set (u := update_freq cfg) in *. set (q := i / u) in *.
    symmetry. apply (Nat.div_unique j u q (j - i)); lia. }
  rewrite Hdiv.
  destruct (num_training_steps_per_epoch cfg <=? i / update_freq cfg);
    [discriminate |].
  rewrite Hi, Nat.eqb_refl, andb_true_r.
  destruct (is_some (lr_schedule_values cfg) || is_some (wd_schedule_values cfg))
    eqn:Eg.
  - destruct (omap _ groups) as [gs |] eqn:Eo; [| discriminate].
    intros [= <-]. rewrite (omap_update_idem _ _ _ Eo).
    match goal with |- (if ?b then _ else _) = _ => now destruct b end.
  - intros [= <-]. apply orb_false_iff in Eg. destruct Eg as [-> ->].
    reflexivity.
Qed.

(** A small run: two groups, four micro-steps per optimizer step. *)
Definition demo_cfg : config :=
  mkConfig 0 4 10 (Some [1#100; 2#100]%Q) (Some [5#100; 4#100]%Q).
Definition demo_groups : list param_group :=
  [mkGroup 0 1 (5#100); mkGroup 0 (1#2) 0]%Q.
Definition demo_groups1 : list param_group :=
  [mkGroup ((1#100) * 1) 1 (5#100); mkGroup ((1#100) * (1#2)) (1#2) 0]%Q.

Lemma later_micro_steps_keep_the_groups_witness :
  schedule_step demo_cfg 3 demo_groups1 = Trained demo_groups1.
Proof.
  apply (@later_micro_steps_keep_the_groups demo_cfg 0 3 demo_groups demo_groups1).
  - reflexivity.
  - simpl. lia.
  - reflexivity.
Defined.

(** ** What the schedule leaves alone *)

Definition untouched (cfg : config) (g g1 : param_group) : Prop :=
  lr_scale g1 = lr_scale g
  /\ (positive (weight_decay g) = false -> weight_decay g1 = weight_decay g)
  /\ (lr_schedule_values cfg = None -> lr g1 = lr g).

Lemma update_group_untouched (cfg : config) (it : nat) (g g1 : param_group) :
  update_group cfg it g = Some g1 -> untouched cfg g g1.
Proof.
  unfold update_group, untouched.
  destruct (lr_schedule_values cfg) as [lrs |]; simpl.
  - destruct (nth_error lrs it) as [v |]; simpl; [| discriminate].
    destruct (wd_schedule_values cfg) as [wds |]; simpl.
    + destruct (positive (weight_decay g)) eqn:Ep.
      * destruct (nth_error wds it) as [w |]; simpl; [| discriminate].
        intros [= <-]. simpl. repeat split; discriminate.
      * intros [= <-]. simpl. repeat split; discriminate.
    + intros [= <-]. simpl. repeat split; discriminate.
  - destruct (wd_schedule_values cfg) as [wds |]; simpl.
    + destruct (positive (weight_decay g)) eqn:Ep.
      * destruct (nth_error wds it) as [w |]; simpl; [| discriminate].
        intros [= <-]. simpl. repeat split; discriminate.
      * intros [= <-]. repeat split.
    + intros [= <-]. repeat split.
Qed.

Lemma omap_update_untouched (cfg : config) (it : nat) (gs gs1 : list param_group) :
  omap (update_group cfg it) gs = Some gs1 -> Forall2 (untouched cfg) gs gs1.
Proof.
  revert gs1. induction gs as [| g gs IH]; intros gs1; simpl.
  - intros [= <-]. constructor.
  - destruct (update_group cfg it g) as [g' |] eqn:Eg; simpl; [| discriminate].
    destruct (omap (update_group cfg it) gs) as [gs' |]; simpl; [| discriminate].
    intros [= <-]. constructor; [now apply update_group_untouched with it | now apply IH].
Qed.

Lemma untouched_refl (cfg : config) (gs : list param_group) :
  Forall2 (untouched cfg) gs gs.
Proof. induction gs; constructor; [repeat split | assumption]. Qed.

(** X6.  Whatever the schedules hold, an iteration keeps the number of
    parameter groups and every group's [lr_scale], never gives weight decay
    to a group whose weight decay is not positive, and changes no learning
    rate when there is no lr schedule. *)
Theorem schedule_leaves_frozen_groups_alone (cfg : config) (i : nat)
    (groups groups1 : list param_group) :
  schedule_step cfg i groups = Trained groups1 ->
  Forall2 (fun g g1 =>
             lr_scale g1 = lr_scale g
             /\ (positive (weight_decay g) = false ->
                 weight_decay g1 = weight_decay g)
             /\ (lr_schedule_values cfg = None -> lr g1 = lr g))
          groups groups1.
Proof.
  unfold schedule_step.
  destruct (update_freq cfg =? 0); [discriminate |].
  destruct (_ <=? _); [discriminate |].
  destruct (_ || _).
  - destruct (omap _ groups) as [gs |] eqn:Eo; [| discriminate].
    intros [= <-]. exact (omap_update_untouched _ _ _ Eo).
  - intros [= <-]. apply untouched_refl.
Qed.

Lemma schedule_leaves_frozen_groups_alone_witness :
  Forall2 (fun g g1 =>
             lr_scale g1 = lr_scale g
             /\ (positive (weight_decay g) = false ->
                 weight_decay g1 = weight_decay g)
             /\ (lr_schedule_values demo_cfg = None -> lr g1 = lr g))
          demo_groups demo_groups1.
Proof.
  apply (@schedule_leaves_frozen_groups_alone demo_cfg 0 demo_groups demo_groups1).
  reflexivity.
Defined.

(** ** The logged rates *)

Lemma py_min_le_l (a b : Q) : (py_min a b <= a)%Q.
Proof.
  unfold py_min. destruct (Qle_bool a b) eqn:E; [apply Qle_refl |].
  apply Qlt_le_weak, Qnot_le_lt. intros H. apply Qle_bool_iff in H. congruence.
Qed.

Lemma py_min_le_r (a b : Q) : (py_min a b <= b)%Q.
Proof.
  unfold py_min. destruct (Qle_bool a b) eqn:E; [| apply Qle_refl].
  now apply Qle_bool_iff.
Qed.

Lemma py_max_ge_l (a b : Q) : (a <= py_max a b)%Q.
Proof.
  unfold py_max. destruct (Qle_bool b a) eqn:E; [apply Qle_refl |].
  apply Qlt_le_weak, Qnot_le_lt. intros H. apply Qle_bool_iff in H. congruence.
Qed.

Lemma py_max_ge_r (a b : Q) : (b <= py_max a b)%Q.
Proof.
  unfold py_max. destruct (Qle_bool b a) eqn:E; [| apply Qle_refl].
  now apply Qle_bool_iff.
Qed.

Lemma logged_from (gs : list param_group) (a b : Q) :
  let r := fold_left (fun acc g => (py_min (fst acc) (lr g), py_max (snd acc) (lr g)))
                     gs (a, b) in
  (fst r <= a)%Q /\ (b <= snd r)%Q
  /\ Forall (fun g => (fst r <= lr g)%Q /\ (lr g <= snd r)%Q) gs.
Proof.
  revert a b. induction gs as [| g gs IH]; intros a b; simpl.
  - repeat split; try apply Qle_refl. constructor.
  - destruct (IH (py_min a (lr g)) (py_max b (lr g))) as [H1 [H2 H3]].
    simpl in *. repeat split.
    + eapply Qle_trans; [exact H1 | apply py_min_le_l].
    + eapply Qle_trans; [apply py_max_ge_l | exact H2].
    + constructor; [| exact H3]. split.
      * eapply Qle_trans; [exact H1 | apply py_min_le_r].
      * eapply Qle_trans; [apply py_max_ge_r | exact H2].
Qed.

(** X7.  The logged [min_lr] is at most 10 and at most every group's rate, the
    logged [lr] (the maximum) at least 0 and at least every group's rate:
    rates above 10 or below 0 are reported as 10 and 0. *)
Theorem logged_rates_are_clamped_bounds (groups : list param_group) :
  (fst (logged_lr groups) <= 10)%Q
  /\ (0 <= snd (logged_lr groups))%Q
  /\ Forall (fun g => (fst (logged_lr groups) <= lr g)%Q
                      /\ (lr g <= snd (logged_lr groups))%Q) groups.
Proof. exact (logged_from groups 10 0). Qed.

End TrainSchedule.

(* ------------------------------------------------------------------ *)
(** * The loop of [final_test] (engine_for_both_prompt) and its local
      variables *)

Module FinalTestLoop.

Inductive error (Err : Type) : Type :=
| UnboundLocalError (var : string)   (* a local variable read before any assignment *)
| Other (e : Err).                   (* an exception of the model or of a tensor operation *)
Arguments UnboundLocalError {Err} var.
Arguments Other {Err} e.

Section Loop.
Variables Batch Out Acc Err : Type.
(** The statements of the [autocast] block up to the losses: the forward
    pass, the top-1 verb, the prototypes and the logits. *)
Variable forward : Batch -> Err + Out.
(** The metric branch after the block: [acc1_noun], [acc5_noun] and the
    other accuracies. *)
Variable measure : Batch -> Out -> Err + Acc.
(** The texts [string] is assigned in the loop over
    [range(outputs_noun.size(0))], one per clip of the batch. *)
Variable rows : Batch -> Out -> list string.
(** ["{}, {}\n".format(acc1_noun, acc5_noun)] *)
Variable header : Acc -> string.

(** The local variables the loop reads and writes; [None]: not assigned
    yet. *)
Record locals : Type := mkLocals {
  string_ : option string;
  final_result : list string;
  acc1_noun : option Acc
}.

(** One iteration of the loop over the data loader:
<<
    with torch.cuda.amp.autocast():
        outputs_noun, outputs_verb = model(samples)
        ...
        loss_verb = criterion(outputs_verb, target[:,1])

        final_result.append(string)
    if len(nounlist) != noun_logits.shape[-1]:
        ...
    else:
        ...
    for i in range(outputs_noun.size(0)):
        string = "{} {} {} {} {} {} {} {}\n".format(ids[i], ...)
>> *)
Definition iteration (st : locals) (b : Batch) : error Err + locals :=
  match forward b with
  | inl e => inl (Other e)
  | inr out =>
      match string_ st with
      | None => inl (UnboundLocalError "string")
      | Some s =>
          let final_result' := final_result st ++ [s] in
          match measure b out with
          | inl e => inl (Other e)
          | inr acc =>
              inr (mkLocals (Some (last (rows b out) s)) final_result' (Some acc))
          end
      end
  end.

Definition run (st : error Err + locals) (b : Batch) : error Err + locals :=
  match st with
  | inl e => inl e
  | inr st => iteration st b
  end.

(** [final_test]: the loop, then the text written to the result file:
<<
    with open(file, 'w') as f:
        f.write("{}, {}\n".format(acc1_noun, acc5_noun))
        for line in final_result:
            f.write(line)
>> *)
Definition final_test (loader : list Batch) : error Err + list string :=
  match fold_left run loader (inr (mkLocals None [] None)) with
  | inl e => inl e
  | inr st =>
      match acc1_noun st with
      | None => inl (UnboundLocalError "acc1_noun")
      | Some acc => inr (header acc :: final_result st)
      end
  end.

Lemma run_error (loader : list Batch) (e : error Err) :
  fold_left run loader (inl e) = inl e.
Proof. induction loader as [| b loader IH]; simpl; [reflexivity | exact IH]. Qed.

(** X8.  [final_test] of engine_for_both_prompt never writes a result: on a
    loader without batches the header line reads [acc1_noun] before any
    assignment; otherwise the first batch ends with the exception of its
    forward pass or, when that succeeds, with the [UnboundLocalError] of
    [final_result.append(string)]. *)
Theorem final_test_stops_at_the_first_batch (loader : list Batch) :
  final_test loader
  = match loader with
    | [] => inl (UnboundLocalError "acc1_noun")
    | b :: _ =>
        match forward b with
        | inl e => inl (Other e)
        | inr _ => inl (UnboundLocalError "string")
        end
    end.
Proof.
  unfold final_test. destruct loader as [| b loader]; simpl; [reflexivity |].
  unfold iteration. simpl.
  destruct (forward b) as [e | out]; now rewrite run_error.
Qed.

End Loop.

Example final_test_two_batches :
  final_test (fun b : nat => @inr unit nat b) (fun _ o => @inr unit nat o)
             (fun _ _ => ["line"%string]) (fun _ => "header"%string) [1; 2]
  = inl (UnboundLocalError "string").
Proof. reflexivity. Qed.

End FinalTestLoop.

(* ------------------------------------------------------------------ *)
(** * [get_sinusoid_encoding_table] (both model files) *)

Module Sinusoid.
Local Open Scope R_scope.

(** [position / np.power(10000, 2 * (hid_j // 2) / d_hid)] *)
Definition position_angle (d_hid position hid_j : nat) : R :=
  INR position / Rpower 10000 (2 * INR (hid_j / 2) / INR d_hid).

(** One row of the table after
<<
    sinusoid_table[:, 0::2] = np.sin(sinusoid_table[:, 0::2]) # dim 2i
    sinusoid_table[:, 1::2] = np.cos(sinusoid_table[:, 1::2]) # dim 2i+1
>> *)
Definition entry (d_hid position hid_j : nat) : R :=
  if Nat.even hid_j then sin (position_angle d_hid position hid_j)
  else cos (position_angle d_hid position hid_j).

Definition get_sinusoid_encoding_table (n_position d_hid : nat) : list (list R) :=
  map (fun pos_i => map (entry d_hid pos_i) (seq 0 d_hid)) (seq 0 n_position).

Definition sum_sq (row : list R) : R := fold_right (fun x acc => x * x + acc) 0 row.

Lemma sum_sq_app (l1 l2 : list R) : sum_sq (l1 ++ l2) = sum_sq l1 + sum_sq l2.
Proof.
  induction l1 as [| x l1 IH]; simpl; [lra |]. rewrite IH. lra.
Qed.

Lemma pair_sq (d_hid position i : nat) :
  entry d_hid position (2 * i) * entry d_hid position (2 * i)
  + entry d_hid position (2 * i + 1) * entry d_hid position (2 * i + 1) = 1.
Proof.
  unfold entry.
  replace (Nat.even (2 * i)) with true
    by (symmetry; apply Nat.even_spec; now exists i).
  replace (Nat.even (2 * i + 1)) with false.
  2:{ symmetry. rewrite Nat.add_1_r, Nat.even_succ, <- Nat.negb_even.
      apply negb_false_iff. apply Nat.even_spec. now exists i. }
  unfold position_angle.
  replace ((2 * i + 1) / 2)%nat with i.
  2:{ apply (Nat.div_unique (2 * i + 1) 2 i 1); lia. }
  replace ((2 * i) / 2)%nat with i.
  2:{ apply (Nat.div_unique (2 * i) 2 i 0); lia. }
  set (x := INR position / Rpower 10000 (2 * INR i / INR d_hid)).
  pose proof (sin2_cos2 x) as H. unfold Rsqr in H. exact H.
Qed.

Lemma row_sum_sq (d_hid position k : nat) :
  sum_sq (map (entry d_hid position) (seq 0 (2 * k))) = INR k.
Proof.
  induction k as [| k IH].
  - reflexivity.
  - replace (2 * S k)%nat with (2 * k + 2)%nat by lia.
    rewrite seq_app, map_app, sum_sq_app, IH.
    change (seq (0 + 2 * k) 2) with [(2 * k)%nat; S (2 * k)].
    replace (S (2 * k)) with (2 * k + 1)%nat by lia.
    cbn [map sum_sq fold_right].
    rewrite S_INR.
    pose proof (pair_sq d_hid position k) as H.
    lra.
Qed.

(** X9.  In a table of even width [d_hid] every row has the same squared
    length [d_hid / 2], whatever its position: each pair of columns
    [(2i, 2i+1)] holds the sine and the cosine of one angle. *)
Theorem sinusoid_rows_have_constant_norm (n_position k : nat) (row : list R) :
  In row (get_sinusoid_encoding_table n_position (2 * k)) ->
  length row = (2 * k)%nat /\ sum_sq row = INR k.
Proof.
  unfold get_sinusoid_encoding_table. rewrite in_map_iff.
  intros [pos_i [<- _]]. split.
  - now rewrite length_map, length_seq.
  - apply row_sum_sq.
Qed.

Lemma sinusoid_rows_have_constant_norm_witness :
  length (map (entry 2 1) (seq 0 2)) = 2%nat
  /\ sum_sq (map (entry 2 1) (seq 0 2)) = INR 1.
Proof.
  apply (@sinusoid_rows_have_constant_norm 2 1).
  simpl. right. now left.
Defined.

End Sinusoid.

(* ------------------------------------------------------------------ *)
(** * [Spectrogram.loadaudio]: the window of samples cut out of a recording
      (util_tools/audio_transforms.py) *)

Module AudioWindow.
Local Open Scope Z_scope.

Section Samples.
Variable A : Type.

(** ** Python slices of a one-dimensional tensor *)

(** The bound a slice uses for the index [i] of a sequence of length [n]:
    a negative index counts from the end, and both ends are clamped. *)
Definition clamp (n i : Z) : Z :=
  if i <? 0 then Z.max 0 (i + n) else Z.min i n.

(** [xs[start:stop]] *)
Definition slice (xs : list A) (start stop : Z) : list A :=
  let n := Z.of_nat (length xs) in
  let a := clamp n start in
  let b := clamp n stop in
  firstn (Z.to_nat (b - a)) (skipn (Z.to_nat a) xs).

(** [xs[start:]] and [xs[:stop]] *)
Definition slice_from (xs : list A) (start : Z) : list A :=
  slice xs start (Z.of_nat (length xs)).
Definition slice_to (xs : list A) (stop : Z) : list A := slice xs 0 stop.

(** Every [step]-th element, the first one after [c] others. *)
Fixpoint every_from (step c : nat) (xs : list A) : list A :=
  match xs with
  | [] => []
  | x :: xs' =>
      match c with
      | O => x :: every_from step (step - 1) xs'
      | S c' => every_from step c' xs'
      end
  end.

(** [xs[start:stop:step]]; [None]: a tensor refuses a step that is not
    positive. *)
Definition slice_step (xs : list A) (start stop step : Z) : option (list A) :=
  if step <=? 0 then None
  else Some (every_from (Z.to_nat step) 0 (slice xs start stop)).

(** ** The branch [audio_type in ['stack']]

    From [left_sample], [right_sample] and [length] (the rounded positions
    [int(round(...))] computed before) on:
<<
    if right_sample > len(samples):
        right_sample = len(samples)
    length_sample = right_sample - left_sample
    length = int(round(self.sec*sample_rate))
    if audio_type in ['stack']:
        stride = int(length_sample // length)
        if stride == 0:
            if left_sample+length < len(samples):
                    samples = samples[left_sample:left_sample+length]
            elif right_sample >= len(samples):
                    samples = samples[-length:]
            else:
                    samples = samples[right_sample - length:right_sample]
        else:
            samples = samples[left_sample:right_sample:stride]
            samples = samples[:length]
>>
    [None]: [ZeroDivisionError] for [length = 0], or the refused step. *)
Definition stack_window (samples : list A) (left_sample right_sample length_ : Z)
  : option (list A) :=
  let n := Z.of_nat (length samples) in
  let right_sample := if right_sample >? n then n else right_sample in
  let length_sample := right_sample - left_sample in
  if length_ =? 0 then None
  else
    let stride := length_sample / length_ in
    if stride =? 0 then
      if left_sample + length_ <? n then
        Some (slice samples left_sample (left_sample + length_))
      else if right_sample >=? n then
        Some (slice_from samples (- length_))
      else
        Some (slice samples (right_sample - length_) right_sample)
    else
      s <- slice_step samples left_sample right_sample stride ;;
      Some (slice_to s length_).

(** ** The branch [audio_type in ['stacks','single','single1024',...]]
<<
    stride = int(length_sample // length)
    if stride > 0:
        samples = torch.stack([samples[left_sample+(i*length):left_sample+((i+1)*length)] for i in range(stride)],dim=0)
    else:
        if left_sample+length < len(samples):
                samples = samples[left_sample:left_sample+length]
        elif right_sample >= len(samples) or left_sample+length >= len(samples):
                samples = samples[-length:]
        else:
                samples = samples[right_sample - length:right_sample]
        samples = samples.unsqueeze(0)
>>
    [torch.stack] needs at least one tensor, and tensors of one size. *)
Definition stack_ (ws : list (list A)) : option (list (list A)) :=
  match ws with
  | [] => None
  | w :: ws' =>
      if forallb (fun w' => (length w' =? length w)%nat) ws' then Some ws else None
  end.

Definition stacks_windows (samples : list A) (left_sample right_sample length_ : Z)
  : option (list (list A)) :=
  let n := Z.of_nat (length samples) in
  let right_sample := if right_sample >? n then n else right_sample in
  let length_sample := right_sample - left_sample in
  if length_ =? 0 then None
  else
    let stride := length_sample / length_ in
    if stride >? 0 then
      stack_ (map (fun i => slice samples (left_sample + Z.of_nat i * length_)
                                  (left_sample + (Z.of_nat i + 1) * length_))
                  (seq 0 (Z.to_nat stride)))
    else
      if left_sample + length_ <? n then
        Some [slice samples left_sample (left_sample + length_)]
      else if (right_sample >=? n) || (left_sample + length_ >=? n) then
        Some [slice_from samples (- length_)]
      else
        Some [slice samples (right_sample - length_) right_sample].

(** ** Lengths of slices *)

Lemma window_length (xs : list A) (start stop : Z) :
  Z.of_nat (length (slice xs start stop))
  = Z.max 0 (clamp (Z.of_nat (length xs)) stop - clamp (Z.of_nat (length xs)) start).
Proof.
  unfold slice. set (n := Z.of_nat (length xs)).
  assert (Ha : 0 <= clamp n start <= n) by (unfold clamp; destruct (start <? 0) eqn:E; lia).
  assert (Hb : 0 <= clamp n stop <= n) by (unfold clamp; destruct (stop <? 0) eqn:E; lia).
  rewrite length_firstn, length_skipn. lia.
Qed.

Lemma clamp_inside (n i : Z) : 0 <= i <= n -> clamp n i = i.
Proof. intros H. unfold clamp. destruct (i <? 0) eqn:E; lia. Qed.

Lemma window_length_inside (xs : list A) (start stop : Z) :
  0 <= start <= stop -> stop <= Z.of_nat (length xs) ->
  Z.of_nat (length (slice xs start stop)) = stop - start.
Proof.
  intros H1 H2. rewrite window_length, !clamp_inside by lia. lia.
Qed.

Lemma every_from_count (step : nat) (xs : list A) (c : nat) :
  (c < step)%nat ->
  (length xs <= length (every_from step c xs) * step + c)%nat.
Proof.
  revert c. induction xs as [| x xs IH]; intros c Hc; simpl; [lia |].
  destruct c as [| c'].
  - specialize (IH (step - 1)%nat). simpl. lia.
  - specialize (IH c'). lia.
Qed.

(** The clip in the middle of a short recording: shorter than one window,
    too close to the end for a window to start at [left_sample], and ending
    before both the recording does and a whole window fits in front of its
    end. *)
Definition short_middle (n left_sample right_sample length_ : Z) : bool :=
  let right_sample := if right_sample >? n then n else right_sample in
  (right_sample - left_sample <? length_) && (n <=? left_sample + length_)
  && (right_sample <? n) && (right_sample <? length_).

(** X10.  For a clip inside the recording and a recording at least one window
    long, the ['stack'] branch of [loadaudio] cuts exactly [length] samples,
    except for a short clip in the middle of a short recording, where the
    start [right_sample - length] is negative, counts from the end, and the
    window is empty. *)
Theorem stack_window_has_length_or_is_empty
    (samples : list A) (left_sample right_sample length_ : Z) :
  0 <= left_sample <= right_sample ->
  left_sample <= Z.of_nat (length samples) ->
  0 < length_ <= Z.of_nat (length samples) ->
  exists w,
    stack_window samples left_sample right_sample length_ = Some w
    /\ Z.of_nat (length w)
       = if short_middle (Z.of_nat (length samples)) left_sample right_sample length_
         then 0 else length_.
Proof.
  intros Hl Hn Hlen. unfold stack_window, short_middle.
  set (n := Z.of_nat (length samples)) in *.
  set (r := if right_sample >? n then n else right_sample).
  assert (Hr : left_sample <= r <= n) by (unfold r; destruct (right_sample >? n) eqn:E; lia).
  destruct (length_ =? 0) eqn:E0; [lia |].
  destruct ((r - left_sample) / length_ =? 0) eqn:Es.
  - apply Z.eqb_eq in Es. apply Z.div_small_iff in Es; [| lia].
    destruct Es as [Es | Es]; [| lia].
    replace (r - left_sample <? length_) with true by (symmetry; apply Z.ltb_lt; lia).
    destruct (left_sample + length_ <? n) eqn:E1.
    + eexists. split; [reflexivity |].
      rewrite window_length_inside by (fold n; lia).
      replace (n <=? left_sample + length_) with false by (symmetry; apply Z.leb_gt; lia).
      simpl. lia.
    + replace (n <=? left_sample + length_) with true by (symmetry; apply Z.leb_le; lia).
      destruct (r >=? n) eqn:E2.
      * eexists. split; [reflexivity |].
        unfold slice_from. rewrite window_length. fold n.
        replace (r <? n) with false by (symmetry; apply Z.ltb_ge; lia).
        simpl. unfold clamp.
        destruct (- length_ <? 0) eqn:E3; destruct (n <? 0) eqn:E4; lia.
      * replace (r <? n) with true by (symmetry; apply Z.ltb_lt; lia).
        eexists. split; [reflexivity |].
        rewrite window_length. fold n. simpl. unfold clamp.
        destruct (r - length_ <? 0) eqn:E3; destruct (r <? 0) eqn:E4;
          destruct (r <? length_) eqn:E5; lia.
  - apply Z.eqb_neq in Es.
    assert (Hq : 0 <= (r - left_sample) / length_) by (apply Z.div_pos; lia).
    assert (Hm : length_ * ((r - left_sample) / length_) <= r - left_sample)
      by (apply Z.mul_div_le; lia).
    set (stride := (r - left_sample) / length_) in *.
    unfold slice_step.
    destruct (stride <=? 0) eqn:E1; [lia |].
    eexists. split; [reflexivity |].
    unfold slice_to. rewrite window_length.
    set (s := every_from (Z.to_nat stride) 0 (slice samples left_sample r)).
    pose proof (@every_from_count (Z.to_nat stride) (slice samples left_sample r) 0) as Hc.
    fold s in Hc.
    assert (Hs : Z.of_nat (length (slice samples left_sample r)) = r - left_sample)
      by (apply window_length_inside; fold n; lia).
    assert (Hcount : length_ <= Z.of_nat (length s)) by nia.
    replace (r - left_sample <? length_) with false by (symmetry; apply Z.ltb_ge; nia).
    simpl. unfold clamp.
    destruct (length_ <? 0) eqn:E3; [lia |]. simpl. lia.
Qed.

Lemma forallb_map_const (B : Type) (f : B -> list A) (k : nat) (l : list B) :
  (forall b, In b l -> length (f b) = k) ->
  forallb (fun w' => (length w' =? k)%nat) (map f l) = true.
Proof.
  intros H. induction l as [| b l IH]; simpl; [reflexivity |].
  rewrite (H b) by now left. rewrite Nat.eqb_refl. simpl.
  apply IH. intros b' Hb'. apply H. now right.
Qed.

(** X11.  Under the same conditions the ['stacks'] and ['single'] branch always
    stacks windows of exactly [length] samples: [length_sample // length]
    of them, cut one after the other from [left_sample], or a single one
    when the clip is shorter than a window. *)
Theorem stacks_windows_have_length
    (samples : list A) (left_sample right_sample length_ : Z) :
  0 <= left_sample <= right_sample ->
  left_sample <= Z.of_nat (length samples) ->
  0 < length_ <= Z.of_nat (length samples) ->
  exists ws,
    stacks_windows samples left_sample right_sample length_ = Some ws
    /\ Z.of_nat (length ws)
       = Z.max 1 ((Z.min right_sample (Z.of_nat (length samples)) - left_sample)
                  / length_)
    /\ Forall (fun w => Z.of_nat (length w) = length_) ws.
Proof.
  intros Hl Hn Hlen. unfold stacks_windows.
  set (n := Z.of_nat (length samples)) in *.
  set (r := if right_sample >? n then n else right_sample).
  assert (Hr : left_sample <= r <= n) by (unfold r; destruct (right_sample >? n) eqn:E; lia).
  assert (Hrmin : Z.min right_sample n = r) by (unfold r; destruct (right_sample >? n) eqn:E; lia).
  rewrite Hrmin.
  destruct (length_ =? 0) eqn:E0; [lia |].
  assert (Hq : 0 <= (r - left_sample) / length_) by (apply Z.div_pos; lia).
  assert (Hm : length_ * ((r - left_sample) / length_) <= r - left_sample)
    by (apply Z.mul_div_le; lia).
  set (stride := (r - left_sample) / length_) in *.
  destruct (stride >? 0) eqn:Es.
  - set (f := fun i => slice samples (left_sample + Z.of_nat i * length_)
                             (left_sample + (Z.of_nat i + 1) * length_)).
    assert (Hw : forall i, In i (seq 0 (Z.to_nat stride)) ->
                 Z.of_nat (length (f i)) = length_).
    { intros i Hi. apply in_seq in Hi. unfold f.
      rewrite window_length_inside; fold n; nia. }
    assert (Hall : Forall (fun w => Z.of_nat (length w) = length_)
                          (map f (seq 0 (Z.to_nat stride)))).
    { apply Forall_forall. intros w Hin. apply in_map_iff in Hin.
      destruct Hin as [i [<- Hi]]. now apply Hw. }
    exists (map f (seq 0 (Z.to_nat stride))). repeat split.
    + unfold stack_.
      destruct (Z.to_nat stride) as [| k] eqn:Ek; [lia |].
      simpl. rewrite <- seq_shift, map_map.
      rewrite forallb_map_const; [reflexivity |].
      intros i Hi. apply Nat2Z.inj.
      rewrite (Hw (S i)), (Hw 0%nat); [reflexivity | |].
      * apply in_seq. lia.
      * apply in_seq. apply in_seq in Hi. lia.
    + rewrite length_map, length_seq. lia.
    + exact Hall.
  - assert (Hs0 : stride = 0) by lia.
    assert (Hshort : r - left_sample < length_).
    { unfold stride in Hs0. apply Z.div_small_iff in Hs0; lia. }
    rewrite Hs0. simpl Z.max.
    destruct (left_sample + length_ <? n) eqn:E1.
    + eexists. split; [reflexivity | split; [reflexivity |]].
      constructor; [| constructor].
      rewrite window_length_inside; fold n; lia.
    + replace ((r >=? n) || (left_sample + length_ >=? n)) with true.
      2:{ symmetry. apply orb_true_iff. right. lia. }
      eexists. split; [reflexivity | split; [reflexivity |]].
      constructor; [| constructor].
      unfold slice_from. rewrite window_length. fold n. unfold clamp.
      destruct (- length_ <? 0) eqn:E3; destruct (n <? 0) eqn:E4; lia.
Qed.

End Samples.

(** A recording of 100 samples and windows of 60: the clip from sample 45
    to sample 50 gets no sample at all in the ['stack'] branch, and the last
    60 samples in the other. *)
Example stack_window_short_middle :
  stack_window (seq 0 100) 45 50 60 = Some [].
Proof. vm_compute. reflexivity. Qed.

Example stacks_windows_short_middle :
  stacks_windows (seq 0 100) 45 50 60 = Some [seq 40 60].
Proof. vm_compute. reflexivity. Qed.

Lemma stack_window_has_length_or_is_empty_witness :
  exists w,
    stack_window (seq 0 100) 10 95 20 = Some w
    /\ Z.of_nat (length w)
       = if short_middle (Z.of_nat (length (seq 0 100))) 10 95 20 then 0 else 20.
Proof.
  apply (@stack_window_has_length_or_is_empty nat (seq 0 100) 10 95 20);
    simpl; lia.
Defined.

Lemma stacks_windows_have_length_witness :
  exists ws,
    stacks_windows (seq 0 100) 10 95 20 = Some ws
    /\ Z.of_nat (length ws)
       = Z.max 1 ((Z.min 95 (Z.of_nat (length (seq 0 100))) - 10) / 20)
    /\ Forall (fun w => Z.of_nat (length w) = 20) ws.
Proof.
  apply (@stacks_windows_have_length nat (seq 0 100) 10 95 20); simpl; lia.
Defined.

End AudioWindow.

(* ------------------------------------------------------------------ *)
(** * [audio_cast.Block.forward]: the shapes through a whole layer, and
      through the stack of [forward_features] *)

Module BlockShapes.
Import CellShapes.

(** [nn.MultiheadAttention(dim, num_heads)(x, x, x, need_weights=False)[0]]
    on a sequence-first input: the last axis is the embedding. *)
Definition multihead_attention (dim : nat) (x : shape) : option shape :=
  match x with
  | [l; n; e] => if e =? dim then Some [l; n; e] else None
  | [l; e] => if e =? dim then Some [l; e] else None
  | _ => None
  end.

(** [Adapter(dim, skip_connect).forward]:
<<
    down_dim = int(dim * mlp_ratio)          # mlp_ratio = 0.25
    xs = self.D_fc1(x)
    xs = self.act(xs)
    xs = self.D_fc2(xs)
    if self.skip_connect:
        x = x + xs
    else:
        x = xs
>> *)
Definition adapter (dim : nat) (skip_connect : bool) (x : shape) : option shape :=
  xs <- linear dim (dim / 4) x ;;
  xs <- linear (dim / 4) dim xs ;;
  if skip_connect then broadcast x xs else Some xs.

(** The size [reshape] gives the axis written [-1]: the elements left over
    by the other axes, which must not multiply to zero and must divide. *)
Definition infer_dim (total known : nat) : option nat :=
  if known =? 0 then None
  else if total mod known =? 0 then Some (total / known) else None.

(** [Attention.forward] (the VideoMAE self-attention):
<<
    B, N, C = x.shape
    qkv = F.linear(input=x, weight=self.qkv.weight, bias=qkv_bias)
    qkv = qkv.reshape(B, N, 3, self.num_heads, -1).permute(2, 0, 3, 1, 4)
    s2t_q, k, v = qkv[0], qkv[1], qkv[2]
    s2t_q = s2t_q * self.scale
    attn = (s2t_q @ k.transpose(-2, -1))
    attn = attn.softmax(dim=-1)
    attn = self.attn_drop(attn)
    x = (attn @ v).transpose(1, 2).reshape(B, N, -1)
    x = self.proj(x)
    x = self.proj_drop(x)
>>
    with [all_head_dim = head_dim * num_heads] of [__init__]. *)
Definition self_attention (dim num_heads : nat) (attn_head_dim : option nat)
    (x : shape) : option shape :=
  ahd <- match attn_head_dim with
         | Some d => if (num_heads =? 0) || (d =? 0) then None else Some (d * num_heads)
         | None => all_head_dim dim num_heads
         end ;;
  match x with
  | [B; N; C] =>
      qkv <- linear dim (ahd * 3) x ;;
      d <- infer_dim (B * N * (ahd * 3)) (B * N * 3 * num_heads) ;;
      let q := [B; num_heads; N; d] in
      let k := [B; num_heads; N; d] in
      let v := [B; num_heads; N; d] in
      attn <- matmul4 q [B; num_heads; d; N] ;;
      x <- matmul4 attn v ;;
      x <- match x with
           | [b; h; n; d'] =>
               w <- infer_dim (b * h * n * d') (B * N) ;; Some [B; N; w]
           | _ => None
           end ;;
      linear ahd dim x
  | _ => None
  end.

(** What [Block.__init__] keeps of its arguments. *)
Record block : Type := mkBlock {
  bk_stage : ac_stage;
  bk_mlp_hidden_dim : nat;           (* int(dim * mlp_ratio) *)
  bk_attn_head_dim : option nat;
  bk_num_layer : nat;
  bk_CA : nat;
  bk_late_fusion : nat;
  bk_use_Adapter : bool              (* the argument use_Adapter *)
}.

(** [self.use_Adapter = use_Adapter], then
    [if num_layer >= late_fusion: self.use_Adapter = True]. *)
Definition use_Adapter (b : block) : bool :=
  if bk_late_fusion b <=? bk_num_layer b then true else bk_use_Adapter b.

(** [self.num_layer >= self.CA and self.num_layer >= self.late_fusion] *)
Definition fires (b : block) : bool :=
  (bk_CA b <=? bk_num_layer b) && (bk_late_fusion b <=? bk_num_layer b).

(** [Block.forward(s_x, t_x, time_encodings)]:
<<
    B = t_x.shape[0]
    n, bt, _ = s_x.shape
    num_frames = bt//B
    if self.use_Adapter:
        s_x = s_x + self.S_Adapter(self.attention(self.clip_ln_1(s_x)))
        t_x = t_x + self.T_Adapter(self.attn(self.norm1(t_x)))
    else:
        s_x = s_x + self.attention(self.clip_ln_1(s_x))
        t_x = t_x + self.attn(self.norm1(t_x))
    if self.num_layer >= self.CA and self.num_layer >= self.late_fusion:
        ... (the cross stage)
    s_xn = self.clip_ln_2(s_x)
    t_xn = self.norm2(t_x)
    if self.use_Adapter:
        s_x = s_x + self.clip_mlp(s_xn) + self.drop_path(self.scale * self.S_MLP_Adapter(s_xn))
        t_x = t_x + self.mlp(t_xn) + self.drop_path(self.scale * self.T_MLP_Adapter(t_xn))
    else:
        s_x = s_x + self.clip_mlp(s_xn)
        t_x = t_x + self.mlp(t_xn)
    return s_x, t_x
>> *)
Definition block_forward (b : block) (time_encodings : option (shape * shape))
    (s_x t_x : shape) : option (shape * shape) :=
  let c := bk_stage b in
  let dim := st_dim c in
  B <- hd_error t_x ;;
  match s_x with
  | [n; bt; _] =>
      ok <- guard (negb (B =? 0)) ;;
      (* MHSA *)
      a <- layer_norm dim s_x ;;
      a <- multihead_attention dim a ;;
      a <- (if use_Adapter b then adapter dim true a else Some a) ;;
      s_x <- broadcast s_x a ;;
      a <- layer_norm dim t_x ;;
      a <- self_attention dim (st_num_heads c) (bk_attn_head_dim b) a ;;
      a <- (if use_Adapter b then adapter dim true a else Some a) ;;
      t_x <- broadcast t_x a ;;
      (* Cross *)
      st <- (if fires b then ac_cross c time_encodings s_x t_x
             else Some (s_x, t_x)) ;;
      let s_x := fst st in
      let t_x := snd st in
      (* FFN *)
      s_xn <- layer_norm dim s_x ;;
      t_xn <- layer_norm dim t_x ;;
      m <- linear dim (dim * 4) s_xn ;;
      m <- linear (dim * 4) dim m ;;
      s_x <- broadcast s_x m ;;
      s_x <- (if use_Adapter b then
                a <- adapter dim false s_xn ;; broadcast s_x a
              else Some s_x) ;;
      m <- linear dim (bk_mlp_hidden_dim b) t_xn ;;
      m <- linear (bk_mlp_hidden_dim b) dim m ;;
      t_x <- broadcast t_x m ;;
      t_x <- (if use_Adapter b then
                a <- adapter dim false t_xn ;; broadcast t_x a
              else Some t_x) ;;
      Some (s_x, t_x)
  | _ => None
  end.

(** ** The layers that can be constructed, and the streams they are built
    for *)

Definition head_dim (b : block) : nat :=
  match bk_attn_head_dim b with
  | Some d => d
  | None => st_dim (bk_stage b) / st_num_heads (bk_stage b)
  end.

Definition block_well_formed (b : block) : Prop :=
  st_num_heads (bk_stage b) <> 0
  /\ head_dim b <> 0
  /\ (fires b = true -> st_well_formed (bk_stage b)).

(** Two non-empty streams of the layer's width; for a layer with a cross
    stage, the streams of [st_valid]. *)
Definition block_valid (b : block) (te : option (shape * shape))
    (s_x t_x : shape) : Prop :=
  (exists n bt B N,
      s_x = [n; bt; st_dim (bk_stage b)] /\ t_x = [B; N; st_dim (bk_stage b)]
      /\ B <> 0 /\ N <> 0)
  /\ (fires b = true -> st_valid (bk_stage b) te s_x t_x).

Section Layer.
Local Arguments obind {A B} !o k /.
Local Arguments Nat.mul : simpl never.
Local Arguments Nat.div : simpl never.
Local Arguments Nat.modulo : simpl never.
Local Arguments broadcast : simpl never.
Local Arguments linear : simpl never.
Local Arguments layer_norm : simpl never.
Local Arguments matmul4 : simpl never.
Local Arguments infer_dim : simpl never.

Lemma adapter_skip (dim a b : nat) :
  adapter dim true [a; b; dim] = Some [a; b; dim].
Proof.
  unfold adapter. rewrite linear3. simpl. rewrite linear3. simpl.
  apply broadcast_refl3.
Qed.

Lemma adapter_plain (dim a b : nat) :
  adapter dim false [a; b; dim] = Some [a; b; dim].
Proof. unfold adapter. rewrite linear3. simpl. now rewrite linear3. Qed.

Lemma mul_nonzero (a b : nat) : a <> 0 -> b <> 0 -> a * b <> 0.
Proof. intros Ha Hb. apply Nat.neq_mul_0. now split. Qed.

Lemma infer_dim_ok (k d : nat) : k <> 0 -> infer_dim (k * d) k = Some d.
Proof.
  intros Hk. unfold infer_dim.
  destruct (k =? 0) eqn:E; [apply Nat.eqb_eq in E; contradiction |].
  rewrite (Nat.mul_comm k d), Nat.Div0.mod_mul, Nat.eqb_refl, Nat.div_mul by assumption.
  reflexivity.
Qed.

Lemma self_attention_ok (b : block) (B N : nat) :
  st_num_heads (bk_stage b) <> 0 -> head_dim b <> 0 -> B <> 0 -> N <> 0 ->
  self_attention (st_dim (bk_stage b)) (st_num_heads (bk_stage b))
                 (bk_attn_head_dim b) [B; N; st_dim (bk_stage b)]
  = Some [B; N; st_dim (bk_stage b)].
Proof.
  intros Hh Hd HB HN. unfold self_attention.
  set (dim := st_dim (bk_stage b)). set (h := st_num_heads (bk_stage b)) in *.
  assert (Hahd : match bk_attn_head_dim b with
                 | Some d => if (h =? 0) || (d =? 0) then None else Some (d * h)
                 | None => all_head_dim dim h
                 end = Some (head_dim b * h)).
  { unfold head_dim in *. fold h dim in Hd |- *.
    destruct (bk_attn_head_dim b) as [d |].
    - destruct (h =? 0) eqn:E1; [apply Nat.eqb_eq in E1; contradiction |].
      destruct (d =? 0) eqn:E2; [apply Nat.eqb_eq in E2; contradiction |].
      reflexivity.
    - now apply all_head_dim_ok. }
  rewrite Hahd. simpl. set (hd_ := head_dim b) in *.
  rewrite linear3. simpl.
  replace (B * N * (hd_ * h * 3)) with (B * N * 3 * h * hd_) by lia.
  rewrite infer_dim_ok by (repeat apply mul_nonzero; auto).
  simpl. rewrite matmul4_ok. simpl. rewrite matmul4_ok. simpl.
  replace (B * h * N * hd_) with (B * N * (h * hd_)) by lia.
  rewrite infer_dim_ok by (apply mul_nonzero; auto).
  simpl. rewrite (Nat.mul_comm h hd_). apply linear3.
Qed.

Local Arguments self_attention : simpl never.
Local Arguments adapter : simpl never.
Local Arguments ac_cross : simpl never.

(** X12.  Every audio_cast layer that can be constructed returns, on the
    streams it is built for, two streams of the shapes it was given,
    whether or not its cross stage fires and whether or not it has
    adapters. *)
Theorem block_preserves_shapes (b : block) (te : option (shape * shape))
    (s_x t_x : shape) :
  block_well_formed b -> block_valid b te s_x t_x ->
  block_forward b te s_x t_x = Some (s_x, t_x).
Proof.
  intros [Hh [Hd Hwf]] [[n [bt [B [N [-> [-> [HB HN]]]]]]] Hv].
  unfold block_forward. cbn [hd_error]. simpl.
  assert (Hg : guard (negb (B =? 0)) = Some tt).
  { destruct (B =? 0) eqn:E; [apply Nat.eqb_eq in E; contradiction | reflexivity]. }
  rewrite Hg. simpl.
  set (dim := st_dim (bk_stage b)) in *.
  pose proof (@self_attention_ok b B N Hh Hd HB HN) as Hsa. fold dim in Hsa.
  assert (Hx : fires b = true ->
               ac_cross (bk_stage b) te [n; bt; dim] [B; N; dim]
               = Some ([n; bt; dim], [B; N; dim])).
  { intros Ef. apply ac_cross_ok; [now apply Hwf | now apply Hv]. }
  destruct (use_Adapter b); destruct (fires b); try specialize (Hx eq_refl);
    simpl;
    repeat (first [ rewrite layer_norm3 | rewrite linear3 | rewrite broadcast_refl3
                  | rewrite adapter_skip | rewrite adapter_plain | rewrite Hsa
                  | rewrite Hx | rewrite Nat.eqb_refl ]; simpl);
    reflexivity.
Qed.

End Layer.

(** ** The stack of layers [STCrossTransformer.__init__] builds *)

Record model : Type := mkModel {
  m_img_size : nat;
  m_patch_size : nat;
  m_in_chans : nat;
  m_embed_dim : nat;
  m_depth : nat;
  m_num_heads : nat;
  m_mlp_hidden_dim : nat;        (* int(embed_dim * mlp_ratio) *)
  m_down_ratio : nat;
  m_all_frames : nat;
  m_tubelet_size : nat;
  m_spec_frames : nat;
  m_attn_all_frame : bool;
  m_CA : nat;
  m_use_Adapter : bool;
  m_audio_patch : nat;
  m_late_fusion : nat;
  m_time_encoding : bool;
  m_time_embedding_type : bool;
  m_use_stpos : bool;
  m_pre_time_encoding : bool
}.

(** Layer [i] of [self.blocks]:
<<
    self.video_patch = (img_size // patch_size) ** 2
    spec_frames = (spec_frames+1) //2
    self.time_encoding = time_encoding if not self.pre_time_encoding else False
    self.blocks = nn.ModuleList([
        Block(dim=embed_dim, num_heads=num_heads, num_frames=self.num_frames, ...,
              num_layer=i, spec_frames=spec_frames, attn_all_frame=attn_all_frame, CA=CA,
              use_Adapter=use_Adapter, late_fusion=late_fusion, ...,
              audio_patch=self.audio_patch, video_patch=self.video_patch, ...,
              time_encoding=self.time_encoding, ...)
        for i in range(depth)])
>> *)
Definition blocks (m : model) (i : nat) : block :=
  mkBlock
    (mkAcStage (m_embed_dim m) (m_num_heads m) (m_all_frames m) (m_down_ratio m)
               ((m_spec_frames m + 1) / 2) (m_attn_all_frame m) (m_audio_patch m)
               ((m_img_size m / m_patch_size m) * (m_img_size m / m_patch_size m))
               (if m_pre_time_encoding m then false else m_time_encoding m)
               (m_time_embedding_type m) (m_use_stpos m))
    (m_mlp_hidden_dim m) None i (m_CA m) (m_late_fusion m) (m_use_Adapter m).

Definition ff_config (m : model) : ForwardFeatures.config :=
  ForwardFeatures.mkConfig (m_img_size m) (m_patch_size m) (m_in_chans m)
    (m_embed_dim m) (m_all_frames m) (m_tubelet_size m) (m_audio_patch m)
    (m_depth m) (m_pre_time_encoding m).

(** [forward_features(x, spec, time_encodings)] with the layers above. *)
Definition features (m : model) (x : shape) (spec : option shape)
    (time_encodings : option (shape * shape))
  : ForwardFeatures.M (shape * shape) :=
  ForwardFeatures.forward_features
    (fun i s_x t_x => block_forward (blocks m i) time_encodings s_x t_x)
    (ff_config m) x spec
    (match time_encodings with Some _ => true | None => false end).

(** The operations of a run that reaches the end. *)
Definition full_trace (depth : nat) : list ForwardFeatures.event :=
  [ForwardFeatures.EvPickFrames; ForwardFeatures.EvRearrange;
   ForwardFeatures.EvClipConv1; ForwardFeatures.EvReshape;
   ForwardFeatures.EvPermute; ForwardFeatures.EvCatClass;
   ForwardFeatures.EvAddPositional; ForwardFeatures.EvClipLnPre;
   ForwardFeatures.EvPatchEmbedProj; ForwardFeatures.EvAddPosEmbed;
   ForwardFeatures.EvPosDrop; ForwardFeatures.EvPermuteTokens]
  ++ map ForwardFeatures.EvBlock (seq 0 depth) ++ [ForwardFeatures.EvPool].

(** A model without time encodings that attends over all frames, for one
    spectrogram per clip: its sizes as the constructors need them. *)
Definition model_well_formed (m : model) : Prop :=
  m_patch_size m <> 0 /\ m_patch_size m <= m_img_size m
  /\ m_in_chans m = 3
  /\ m_tubelet_size m = 2 /\ 2 <= m_all_frames m
  /\ m_num_heads m <> 0 /\ m_embed_dim m / m_num_heads m <> 0
  /\ m_down_ratio m <> 0
  /\ m_embed_dim m / m_down_ratio m / m_num_heads m <> 0
  /\ (m_spec_frames m + 1) / 2 = 1
  /\ m_attn_all_frame m = true
  /\ m_time_encoding m = false /\ m_pre_time_encoding m = false
  /\ (m_use_stpos m = true ->
      m_img_size m / m_patch_size m * (m_img_size m / m_patch_size m) = 196).

Lemma run_blocks_keep (block : nat -> shape -> shape -> option (shape * shape))
    (n i : nat) (s_x t_x : shape) :
  (forall j, i <= j < i + n -> block j s_x t_x = Some (s_x, t_x)) ->
  ForwardFeatures.run_blocks block n i s_x t_x
  = (map ForwardFeatures.EvBlock (seq i n), inr (s_x, t_x)).
Proof.
  revert i. induction n as [| n IH]; intros i H; simpl; [reflexivity |].
  rewrite H by lia. simpl. rewrite IH by (intros j Hj; apply H; lia).
  reflexivity.
Qed.

(** A run that reaches its end with the operations [tr] and the value
    [a]. *)
Definition succeeds {A : Type} (r : ForwardFeatures.M A)
    (tr : list ForwardFeatures.event) (a : A) : Prop :=
  r = (tr, inr a).

Lemma succeeds_ret {A : Type} (a : A) : succeeds (ForwardFeatures.ret a) [] a.
Proof. reflexivity. Qed.

Lemma succeeds_did (ev : ForwardFeatures.event) :
  succeeds (ForwardFeatures.did ev) [ev] tt.
Proof. reflexivity. Qed.

Lemma succeeds_op {A : Type} (ev : ForwardFeatures.event) (r : option A) (a : A)
    (e : ForwardFeatures.error) :
  r = Some a -> succeeds (ForwardFeatures.op ev r e) [ev] a.
Proof. intros ->. reflexivity. Qed.

Lemma succeeds_bind {A B : Type} (r : ForwardFeatures.M A)
    (k : A -> ForwardFeatures.M B) (tr tr' : list ForwardFeatures.event)
    (a : A) (b : B) :
  succeeds r tr a -> succeeds (k a) tr' b ->
  succeeds (ForwardFeatures.bind r k) (tr ++ tr') b.
Proof. unfold succeeds. intros -> H. simpl. now rewrite H. Qed.

Section Stack.
Local Arguments obind {A B} !o k /.
Local Arguments Nat.mul : simpl never.
Local Arguments Nat.div : simpl never.
Local Arguments Nat.modulo : simpl never.
Local Arguments Nat.add : simpl never.

Lemma conv_dim_ok (n k : nat) :
  k <> 0 -> k <= n -> ForwardFeatures.conv_dim n k = Some (n / k).
Proof.
  intros Hk Hn. unfold ForwardFeatures.conv_dim.
  destruct (k =? 0) eqn:E; [apply Nat.eqb_eq in E; contradiction |].
  destruct (n <? k) eqn:E'; [apply Nat.ltb_lt in E'; lia | reflexivity].
Qed.

Lemma ff_bcast_dim_refl (a : nat) : ForwardFeatures.bcast_dim a a = Some a.
Proof. unfold ForwardFeatures.bcast_dim. now rewrite Nat.eqb_refl. Qed.

Lemma blocks_well_formed (m : model) (i : nat) :
  model_well_formed m -> block_well_formed (blocks m i).
Proof.
  intros [Hp [Hpi [Hc [Htub [Hfr [Hh [Hhd [Hdr [Hcd [Hsf [Hall [Hte [Hpre Hpos]]]]]]]]]]]]].
  unfold block_well_formed, head_dim. simpl.
  split; [exact Hh |]. split; [exact Hhd |]. intros _.
  unfold st_well_formed, aa_well_formed, aa_width, aa_concat. simpl.
  rewrite Hpre, Hte.
  repeat split; try assumption; try discriminate.
  intros E. apply Nat.div_small_iff in E; lia.
Qed.

Lemma blocks_valid (m : model) (i B : nat) :
  model_well_formed m -> B <> 0 ->
  block_valid (blocks m i) None
    [m_audio_patch m + 1; B * 1; m_embed_dim m]
    [B; m_all_frames m / 2 * (m_img_size m / m_patch_size m * (m_img_size m / m_patch_size m));
     m_embed_dim m].
Proof.
  intros [Hp [Hpi [Hc [Htub [Hfr [Hh [Hhd [Hdr [Hcd [Hsf [Hall [Hte [Hpre Hpos]]]]]]]]]]]]] HB.
  assert (Hg : m_img_size m / m_patch_size m <> 0).
  { intros E. apply Nat.div_small_iff in E; lia. }
  assert (Hf : m_all_frames m / 2 <> 0).
  { intros E. apply Nat.div_small_iff in E; lia. }
  split.
  - do 4 eexists. repeat split; try reflexivity; [assumption |].
    repeat apply mul_nonzero; assumption.
  - intros _. replace (m_audio_patch m + 1) with (S (m_audio_patch m)) by lia.
    unfold blocks. cbn [bk_stage]. rewrite Hsf.
    apply (@st_valid_all
      (mkAcStage (m_embed_dim m) (m_num_heads m) (m_all_frames m) (m_down_ratio m)
         1 (m_attn_all_frame m) (m_audio_patch m)
         (m_img_size m / m_patch_size m * (m_img_size m / m_patch_size m))
         (if m_pre_time_encoding m then false else m_time_encoding m)
         (m_time_embedding_type m) (m_use_stpos m))
      None B (m_audio_patch m)
      (m_img_size m / m_patch_size m * (m_img_size m / m_patch_size m))).
    + exact Hall.
    + discriminate.
    + intros E. cbn [st_audio_patch st_video_patch]. repeat split; auto.
    + unfold aa_time_ok, st_attention. cbn [aa_time_encoding st_time_encoding].
      rewrite Hpre, Hte. discriminate.
    + unfold aa_time_ok, st_attention. cbn [aa_time_encoding st_time_encoding].
      rewrite Hpre, Hte. discriminate.
Qed.

(** X13.  A well-formed audio model without time encodings runs
    [forward_features] to its end on every non-empty batch of clips of the
    configured size with one spectrogram each whose patch grid has
    [audio_patch] cells: each layer runs once, in order, and the pooled
    noun and verb features both have shape [[B, embed_dim]]. *)
Theorem features_of_configured_sizes (m : model) (B h w : nat) :
  model_well_formed m -> B <> 0 ->
  m_patch_size m <= h -> m_patch_size m <= w ->
  h / m_patch_size m * (w / m_patch_size m) = m_audio_patch m ->
  features m [B; 3; m_all_frames m; m_img_size m; m_img_size m]
           (Some [B; 3; h; w]) None
  = (full_trace (m_depth m), inr ([B; m_embed_dim m], [B; m_embed_dim m])).
Proof.
  intros Hm HB Hh Hw Hgrid.
  pose proof Hm as [Hp [Hpi [Hc [Htub [Hfr [Hhd0 [Hhd [Hdr [Hcd [Hsf [Hall [Hte [Hpre Hpos]]]]]]]]]]]]].
  assert (Hg : m_img_size m / m_patch_size m <> 0).
  { intros E. apply Nat.div_small_iff in E; lia. }
  enough (H : exists tr,
             succeeds (features m [B; 3; m_all_frames m; m_img_size m; m_img_size m]
                                (Some [B; 3; h; w]) None)
                      tr ([B; m_embed_dim m], [B; m_embed_dim m])
             /\ tr = full_trace (m_depth m)).
  { destruct H as [tr [H ->]]. exact H. }
  assert (Hf : m_all_frames m / 2 <> 0).
  { intros E. apply Nat.div_small_iff in E; lia. }
  assert (Hd : m_embed_dim m <> 0).
  { intros E. rewrite E in Hhd. now rewrite Nat.Div0.div_0_l in Hhd. }
  eexists. split.
  - unfold features, ForwardFeatures.forward_features, ForwardFeatures.spatial_path.
    eapply succeeds_bind; [apply succeeds_ret |].
    eapply succeeds_bind.
    { (* the spatial path, on the spectrogram *)
      eapply succeeds_bind; [apply succeeds_op; reflexivity |].
      eapply succeeds_bind; [apply succeeds_op; reflexivity |].
      eapply succeeds_bind.
      { apply succeeds_op. unfold ForwardFeatures.clip_conv1.
        cbn [ff_config ForwardFeatures.patch_size ForwardFeatures.embed_dim].
        rewrite Nat.eqb_refl, !conv_dim_ok by assumption. reflexivity. }
      eapply succeeds_bind.
      { apply succeeds_op. unfold ForwardFeatures.reshape_grid.
        destruct (B * 1 * m_embed_dim m =? 0) eqn:E; [| reflexivity].
        apply Nat.eqb_eq in E. exfalso. revert E.
        repeat apply mul_nonzero; auto. }
      eapply succeeds_bind; [apply succeeds_op; reflexivity |].
      eapply succeeds_bind; [apply succeeds_op; reflexivity |].
      eapply succeeds_bind.
      { apply succeeds_op. unfold ForwardFeatures.add_positional.
        cbn [ff_config ForwardFeatures.audio_patch ForwardFeatures.embed_dim].
        rewrite Hgrid, !ff_bcast_dim_refl. reflexivity. }
      apply succeeds_op. unfold ForwardFeatures.layer_norm.
      cbn [rev app ff_config ForwardFeatures.embed_dim].
      now rewrite Nat.eqb_refl. }
    eapply succeeds_bind.
    { (* the patch embedding of the clip *)
      unfold ForwardFeatures.patch_embed.
      cbn [ff_config ForwardFeatures.img_size ForwardFeatures.in_chans
           ForwardFeatures.tubelet_size ForwardFeatures.patch_size
           ForwardFeatures.embed_dim].
      rewrite Nat.eqb_refl. cbn [andb].
      apply succeeds_op.
      rewrite Hc, Htub, Nat.eqb_refl, !conv_dim_ok by (assumption || lia).
      reflexivity. }
    eapply succeeds_bind.
    { apply succeeds_op. unfold ForwardFeatures.add_pos_embed, ForwardFeatures.num_patches.
      cbn [ff_config ForwardFeatures.img_size ForwardFeatures.all_frames
           ForwardFeatures.tubelet_size ForwardFeatures.patch_size
           ForwardFeatures.embed_dim].
      rewrite Htub.
      rewrite (Nat.mul_comm (m_all_frames m / 2)).
      rewrite !ff_bcast_dim_refl. reflexivity. }
    eapply succeeds_bind; [apply succeeds_did |].
    eapply succeeds_bind; [apply succeeds_op; reflexivity |].
    eapply succeeds_bind.
    { cbn [ff_config ForwardFeatures.pre_time_encoding]. rewrite Hpre.
      apply succeeds_ret. }
    eapply succeeds_bind.
    { cbn [ff_config ForwardFeatures.depth].
      rewrite (Nat.mul_comm _ (m_all_frames m / 2)).
      apply run_blocks_keep. intros j _.
      apply block_preserves_shapes;
        [now apply blocks_well_formed | now apply blocks_valid]. }
    apply succeeds_op. unfold ForwardFeatures.pool. cbn [fst snd].
    cbn [ff_config ForwardFeatures.embed_dim].
    destruct (B =? 0) eqn:E0; [apply Nat.eqb_eq in E0; contradiction |].
    rewrite (Nat.mul_comm B 1), Nat.Div0.mod_mul.
    replace (m_audio_patch m + 1 =? 0) with false
      by (symmetry; apply Nat.eqb_neq; lia).
    cbn [orb negb Nat.eqb]. rewrite Nat.eqb_refl. reflexivity.
  - reflexivity.
Qed.

End Stack.

(** The base model: 224 x 224 clips of 16 frames, 16 x 16 patches, width
    768, 12 layers of 12 heads, one spectrogram of 14 x 14 patches. *)
Definition base_model : model :=
  mkModel 224 16 3 768 12 12 3072 2 16 2 1 true 0 true 196 0 false false true false.

Lemma base_model_well_formed : model_well_formed base_model.
Proof.
  unfold model_well_formed, base_model; cbn -[Nat.div Nat.mul].
  repeat split; try discriminate; try reflexivity; try lia;
    try (apply Nat.leb_le; vm_compute; reflexivity).
Qed.

Lemma block_preserves_shapes_witness :
  block_forward (blocks base_model 0) None
    [196 + 1; 2 * 1; 768] [2; 16 / 2 * (224 / 16 * (224 / 16)); 768]
  = Some ([196 + 1; 2 * 1; 768], [2; 16 / 2 * (224 / 16 * (224 / 16)); 768]).
Proof.
  apply (@block_preserves_shapes (blocks base_model 0) None).
  - exact (blocks_well_formed 0 base_model_well_formed).
  - apply (@blocks_valid base_model 0 2 base_model_well_formed). discriminate.
Defined.

Lemma features_of_configured_sizes_witness :
  features base_model [2; 3; 16; 224; 224] (Some [2; 3; 224; 224]) None
  = (full_trace 12, inr ([2; 768], [2; 768])).
Proof.
  apply (@features_of_configured_sizes base_model 2 224 224).
  - exact base_model_well_formed.
  - discriminate.
  - apply Nat.leb_le. vm_compute. reflexivity.
  - apply Nat.leb_le. vm_compute. reflexivity.
  - vm_compute. reflexivity.
Defined.

End BlockShapes.

(* ------------------------------------------------------------------ *)
(** * [Adapter] and the state [__init__] leaves it in (both model files) *)

Module AdapterInit.
Import CosineLogits.
Local Open Scope R_scope.

(** [nn.Linear(in_features, out_features)]: one weight row and one bias
    entry per output. *)
Record Linear : Type := mkLinear {
  in_features : nat;
  weight : list (list R);
  bias : list R
}.

Fixpoint map2 {A B C : Type} (f : A -> B -> C) (l1 : list A) (l2 : list B)
  : list C :=
  match l1, l2 with
  | a :: l1', b :: l2' => f a b :: map2 f l1' l2'
  | _, _ => []
  end.

(** [F.linear] on one row of features; [None]: the row has another length
    than [in_features]. *)
Definition linear_forward (l : Linear) (x : list R) : option (list R) :=
  if (length x =? in_features l)%nat
  then Some (map2 (fun w b => dot w x + b) (weight l) (bias l))
  else None.

(** [nn.init.constant_(m.weight, 0)] and [nn.init.constant_(m.bias, 0)] *)
Definition constant_zero (l : Linear) : Linear :=
  mkLinear (in_features l) (map (map (fun _ => 0)) (weight l))
           (map (fun _ => 0) (bias l)).

(** [x + y] on rows: equal lengths, or one of length 1. *)
Definition add (x y : list R) : option (list R) :=
  if (length x =? length y)%nat then Some (map2 Rplus x y)
  else match x, y with
       | [a], _ => Some (map (fun b => a + b) y)
       | _, [b] => Some (map (fun a => a + b) x)
       | _, _ => None
       end.

Section Act.
(** The activation [self.act] (GELU), elementwise. *)
Variable act : R -> R.

Record Adapter : Type := mkAdapter {
  skip_connect : bool;
  D_fc1 : Linear;
  D_fc2 : Linear
}.

(** [Adapter.forward] on one row:
<<
    xs = self.D_fc1(x)
    xs = self.act(xs)
    xs = self.D_fc2(xs)
    if self.skip_connect:
        x = x + xs
    else:
        x = xs
    return x
>> *)
Definition forward (a : Adapter) (x : list R) : option (list R) :=
  xs <- linear_forward (D_fc1 a) x ;;
  let xs := map act xs in
  xs <- linear_forward (D_fc2 a) xs ;;
  if skip_connect a then add x xs else Some xs.

(** What [_init_adpater_weight] does to an adapter of the blocks, and what
    [_init_weights] (bias) with [nn.init.constant_(....D_fc2.weight, 0)]
    does to the two adapters in front of the heads: [D_fc2] is zero. *)
Definition init_adapter (a : Adapter) : Adapter :=
  mkAdapter (skip_connect a) (D_fc1 a) (constant_zero (D_fc2 a)).

(** [Adapter(dim)]: [D_fc1] maps [dim] features to [down_dim], [D_fc2] maps
    them back. *)
Definition built_for (dim : nat) (a : Adapter) : Prop :=
  in_features (D_fc1 a) = dim
  /\ length (weight (D_fc1 a)) = in_features (D_fc2 a)
  /\ length (bias (D_fc1 a)) = in_features (D_fc2 a)
  /\ length (weight (D_fc2 a)) = dim
  /\ length (bias (D_fc2 a)) = dim.

Lemma dot_zero_row (w x : list R) : dot (map (fun _ => 0) w) x = 0.
Proof.
  revert x. induction w as [| a w IH]; intros [| b x]; simpl; try reflexivity.
  rewrite IH. lra.
Qed.

Lemma map2_length {A B C : Type} (f : A -> B -> C) (l1 : list A) (l2 : list B) :
  length l1 = length l2 -> length (map2 f l1 l2) = length l1.
Proof.
  revert l2. induction l1 as [| a l1 IH]; intros [| b l2]; simpl; try reflexivity;
    try discriminate.
  intros [= H]. now rewrite IH.
Qed.

Lemma zero_outputs (ws : list (list R)) (bs : list R) (x : list R) :
  length ws = length bs ->
  map2 (fun w b => dot w x + b) (map (map (fun _ => 0)) ws)
           (map (fun _ => 0) bs)
  = map (fun _ => 0) bs.
Proof.
  revert bs. induction ws as [| w ws IH]; intros [| b bs]; simpl; try reflexivity;
    try discriminate.
  intros [= H]. rewrite IH by assumption. rewrite dot_zero_row.
  f_equal. lra.
Qed.

Lemma add_zero (x : list R) (zs : list R) :
  length zs = length x -> add x (map (fun _ => 0) zs) = Some x.
Proof.
  intros H. unfold add. rewrite length_map, H, Nat.eqb_refl. f_equal.
  revert zs H. induction x as [| a x IH]; intros [| z zs]; simpl; try reflexivity;
    try discriminate.
  intros [= H]. rewrite IH by assumption. f_equal. lra.
Qed.

(** X14.  An adapter whose [D_fc2] is zero, as [__init__] leaves every adapter,
    is the identity when it has the skip connection and returns a row of
    zeros when it has none, whatever [D_fc1] and the activation are. *)
Theorem adapter_after_init (dim : nat) (a : Adapter) (x : list R) :
  built_for dim a -> length x = dim ->
  forward (init_adapter a) x
  = Some (if skip_connect a then x else map (fun _ => 0) x).
Proof.
  intros [H1 [H2 [H3 [H4 H5]]]] Hx. unfold forward, init_adapter. simpl.
  unfold linear_forward at 1. rewrite Hx, H1, Nat.eqb_refl. simpl.
  unfold linear_forward. simpl.
  rewrite length_map, map2_length by congruence.
  rewrite H2, Nat.eqb_refl. simpl.
  rewrite zero_outputs by congruence.
  destruct (skip_connect a).
  - apply add_zero. congruence.
  - f_equal. clear - H5 Hx. subst dim.
    revert x Hx. induction (bias (D_fc2 a)) as [| b bs IH]; intros [| y x]; simpl;
      try reflexivity; try discriminate.
    intros [= H]. f_equal. now apply IH.
Qed.

End Act.


(** ** The inputs of the heads of beats_Bsquare

    [forward], composition branch, with [use_videoF] and [use_textF] as
    [__init__] sets them:
<<
    if self.use_videoF and self.use_textF:
        s_x = self.noun_last_Adapter(s_x) + self.text_noun_last_Adapter(text_x)
        t_x = self.verb_last_Adapter(t_x) + self.text_verb_last_Adapter(text_x)
    elif self.use_videoF:
        s_x = self.noun_last_Adapter(s_x)
        t_x = self.verb_last_Adapter(t_x)
    else:
        s_x = self.text_noun_last_Adapter(text_x)
        t_x = self.text_verb_last_Adapter(text_x)
>> *)
Section BeatsHeads.
Variable act : R -> R.          (* nn.GELU *)
Variable quick_gelu : R -> R.   (* QuickGELU: x * sigmoid(1.702 * x) *)

(** [nn.Sequential(c_fc, gelu, c_proj)] *)
Record text_adapter : Type := mkTextAdapter {
  c_fc : Linear;
  c_proj : Linear
}.

Definition text_forward (t : text_adapter) (x : list R) : option (list R) :=
  h <- linear_forward (c_fc t) x ;;
  linear_forward (c_proj t) (map quick_gelu h).

Record heads : Type := mkHeads {
  use_videoF : bool;
  use_textF : bool;
  noun_last_Adapter : Adapter;
  verb_last_Adapter : Adapter;
  text_noun_last_Adapter : text_adapter;
  text_verb_last_Adapter : text_adapter
}.

Definition head_inputs (m : heads) (s_x t_x text_x : list R)
  : option (list R * list R) :=
  if use_videoF m && use_textF m then
    a <- forward act (noun_last_Adapter m) s_x ;;
    b <- text_forward (text_noun_last_Adapter m) text_x ;;
    s_x' <- add a b ;;
    a <- forward act (verb_last_Adapter m) t_x ;;
    b <- text_forward (text_verb_last_Adapter m) text_x ;;
    t_x' <- add a b ;;
    Some (s_x', t_x')
  else if use_videoF m then
    s_x' <- forward act (noun_last_Adapter m) s_x ;;
    t_x' <- forward act (verb_last_Adapter m) t_x ;;
    Some (s_x', t_x')
  else
    s_x' <- text_forward (text_noun_last_Adapter m) text_x ;;
    t_x' <- text_forward (text_verb_last_Adapter m) text_x ;;
    Some (s_x', t_x').

(** The heads [__init__] builds: [use_videoF = use_textF = True], the two
    video adapters [Adapter(embed_dim, skip_connect=False)] with [D_fc2]
    zero. *)
Definition init_heads (noun verb : Adapter) (text_noun text_verb : text_adapter)
  : heads :=
  mkHeads true true
          (init_adapter (mkAdapter false (D_fc1 noun) (D_fc2 noun)))
          (init_adapter (mkAdapter false (D_fc1 verb) (D_fc2 verb)))
          text_noun text_verb.

Lemma zero_add (zs y : list R) :
  length zs = length y -> add (map (fun _ => 0) zs) y = Some y.
Proof.
  intros H. unfold add. rewrite length_map, H, Nat.eqb_refl. f_equal.
  revert zs H. induction y as [| a y IH]; intros [| z zs]; simpl; try reflexivity;
    try discriminate.
  intros [= H]. rewrite IH by assumption. f_equal. lra.
Qed.

(** X15.  In a freshly constructed beats_Bsquare model the inputs of the two
    heads are the outputs of the two text adapters alone: the pooled video
    features [s_x] and [t_x] pass through adapters without skip connection
    whose [D_fc2] is zero, and add nothing. *)
Theorem fresh_beats_heads_ignore_the_video (dim : nat) (noun verb : Adapter)
    (text_noun text_verb : text_adapter) (s_x t_x text_x y_noun y_verb : list R) :
  built_for dim noun -> built_for dim verb ->
  length s_x = dim -> length t_x = dim ->
  text_forward text_noun text_x = Some y_noun -> length y_noun = dim ->
  text_forward text_verb text_x = Some y_verb -> length y_verb = dim ->
  head_inputs (init_heads noun verb text_noun text_verb) s_x t_x text_x
  = Some (y_noun, y_verb).
Proof.
  intros Hn Hv Hs Ht Hyn Hln Hyv Hlv. unfold head_inputs, init_heads. simpl.
  rewrite (@adapter_after_init act dim (mkAdapter false (D_fc1 noun) (D_fc2 noun)) s_x)
    by assumption.
  rewrite (@adapter_after_init act dim (mkAdapter false (D_fc1 verb) (D_fc2 verb)) t_x)
    by assumption.
  simpl. rewrite Hyn, Hyv. simpl.
  rewrite !zero_add by congruence. reflexivity.
Qed.

End BeatsHeads.

(** An adapter of width 2 with one hidden feature. *)
Definition demo_adapter (skip : bool) : Adapter :=
  mkAdapter skip (mkLinear 2 [[1; 2]] [3]) (mkLinear 1 [[4]; [5]] [6; 7]).

Lemma adapter_after_init_witness :
  forward (fun v => v) (init_adapter (demo_adapter true)) [8; 9]
  = Some (if skip_connect (demo_adapter true) then [8; 9]
          else map (fun _ => 0) [8; 9]).
Proof.
  apply (@adapter_after_init (fun v => v) 2 (demo_adapter true) [8; 9]).
  - unfold built_for. simpl. repeat split; reflexivity.
  - reflexivity.
Defined.

Definition demo_text : text_adapter :=
  mkTextAdapter (mkLinear 1 [[2]] [0]) (mkLinear 1 [[1]; [1]] [0; 0]).

Lemma fresh_beats_heads_ignore_the_video_witness :
  head_inputs (fun v => v) (fun v => v)
    (init_heads (demo_adapter false) (demo_adapter false) demo_text demo_text)
    [8; 9] [10; 11] [1]
  = Some ([1 * (2 * 1 + 0 + 0) + 0 + 0; 1 * (2 * 1 + 0 + 0) + 0 + 0],
          [1 * (2 * 1 + 0 + 0) + 0 + 0; 1 * (2 * 1 + 0 + 0) + 0 + 0]).
Proof.
  apply (@fresh_beats_heads_ignore_the_video (fun v => v) (fun v => v) 2
           (demo_adapter false) (demo_adapter false) demo_text demo_text
           [8; 9] [10; 11] [1]);
    try (unfold built_for; simpl; repeat split; reflexivity);
    try reflexivity.
Defined.

End AdapterInit.

(* ------------------------------------------------------------------ *)
(** * [STCrossTransformer.forward] (audio_cast): the segment of the clip
      each spectrogram column gets its time encoding from *)

Module TimeSegments.

(** [torch.arange(n).repeat_interleave(repeats)] *)
Definition repeat_interleave (repeats : nat) (l : list nat) : list nat :=
  flat_map (fun i => repeat i repeats) l.

(** The indices into the [num_segments] segments of the clip:
<<
    num_segments = self.num_frames // 2
    ...
    repeats = self.spec_shape[1] // num_segments + 1
    expanded_indices = torch.arange(num_segments).repeat_interleave(repeats)[:self.spec_shape[1]]
    segments = segments[:, expanded_indices, :]
>>
    [None]: the [ZeroDivisionError] of a model with fewer than two frames. *)
Definition expanded_indices (num_frames spec_width : nat) : option (list nat) :=
  let num_segments := num_frames / 2 in
  if num_segments =? 0 then None
  else
    let repeats := spec_width / num_segments + 1 in
    Some (firstn spec_width (repeat_interleave repeats (seq 0 num_segments))).

Lemma repeat_interleave_length (r : nat) (a n : nat) :
  length (repeat_interleave r (seq a n)) = n * r.
Proof.
  revert a. induction n as [| n IH]; intros a; simpl; [reflexivity |].
  unfold repeat_interleave in *. rewrite length_app, repeat_length, IH. lia.
Qed.

Lemma repeat_interleave_nth (r : nat) (n a j : nat) :
  r <> 0 -> j < n * r ->
  nth j (repeat_interleave r (seq a n)) 0 = a + j / r.
Proof.
  intros Hr. revert a j. induction n as [| n IH]; intros a j Hj; [lia |].
  unfold repeat_interleave in *. simpl.
  destruct (Nat.lt_ge_cases j r) as [Hlt | Hge].
  - rewrite app_nth1 by (now rewrite repeat_length).
    rewrite nth_repeat_lt by assumption.
    rewrite Nat.div_small by assumption. lia.
  - rewrite app_nth2 by (now rewrite repeat_length).
    rewrite repeat_length, IH by (simpl in Hj; lia).
    replace j with ((j - r) + 1 * r) at 2 by lia.
    rewrite Nat.div_add by assumption. lia.
Qed.

(** X16.  In a model with at least two frames the index list has one entry per
    spectrogram column, column [j] gets segment [j // repeats] with
    [repeats = spec_width // num_segments + 1], and every entry is a valid
    segment index: the selection never reads past the segments, and never
    reaches a segment from [ceil(spec_width / repeats)] on. *)
Theorem expanded_indices_are_valid (num_frames spec_width : nat) :
  num_frames / 2 <> 0 ->
  exists idx,
    expanded_indices num_frames spec_width = Some idx
    /\ length idx = spec_width
    /\ forall j, j < spec_width ->
         nth j idx 0 = j / (spec_width / (num_frames / 2) + 1)
         /\ nth j idx 0 < num_frames / 2.
Proof.
  intros Hs. unfold expanded_indices.
  destruct (num_frames / 2 =? 0) eqn:E; [apply Nat.eqb_eq in E; contradiction |].
  set (S_ := num_frames / 2) in *. set (r := spec_width / S_ + 1).
  assert (Hr : r <> 0) by (unfold r; lia).
  assert (Hcover : spec_width < S_ * r).
  { unfold r. pose proof (Nat.mul_succ_div_gt spec_width S_ Hs). lia. }
  eexists. split; [reflexivity |]. split.
  - rewrite length_firstn, repeat_interleave_length. lia.
  - intros j Hj.
    assert (Hn : nth j (firstn spec_width (repeat_interleave r (seq 0 S_))) 0
                 = j / r).
    { rewrite nth_firstn.
      replace (j <? spec_width) with true by (symmetry; apply Nat.ltb_lt; lia).
      rewrite repeat_interleave_nth by lia. lia. }
    rewrite Hn. split; [reflexivity |].
    apply Nat.Div0.div_lt_upper_bound. lia.
Qed.

(** Sixteen frames and a spectrogram of 16 columns: three columns per
    segment, so the last two of the eight segments are never used. *)
Example sixteen_columns :
  expanded_indices 16 16 = Some [0; 0; 0; 1; 1; 1; 2; 2; 2; 3; 3; 3; 4; 4; 4; 5].
Proof. reflexivity. Qed.

Lemma expanded_indices_are_valid_witness :
  exists idx,
    expanded_indices 16 16 = Some idx
    /\ length idx = 16
    /\ forall j, j < 16 ->
         nth j idx 0 = j / (16 / (16 / 2) + 1) /\ nth j idx 0 < 16 / 2.
Proof.
  apply (@expanded_indices_are_valid 16 16). discriminate.
Defined.

End TimeSegments.

(* ------------------------------------------------------------------ *)
(** * The stack [STCrossTransformer.__init__] of beats_Bsquare builds *)

Module BeatsStack.
Import Gating.

Section Stack.
Variable Stream : Type.
Variable s_t_b_cast : Stream -> Stream -> Stream * Stream.
Variable s_text_b_cast : Stream -> Stream -> Stream * Stream.
Variable t_text_b_cast : Stream -> Stream -> Stream * Stream.

(** [CA = [i for i in range(CA, 12)]] *)
Definition layers_of (CA : nat) : list nat := seq CA (12 - CA).

(** [self.blocks = nn.ModuleList([Block(..., num_layer=i, ..., CA=CA, ...,
    CA_eq=CA_eq, ...) for i in range(depth)])] *)
Definition blocks (CA : nat) (CA_eq : bool) (depth : nat) : list (bb_block Stream) :=
  map (bb_init s_t_b_cast s_text_b_cast t_text_b_cast
               (mkBbConfig (layers_of CA) CA_eq))
      (seq 0 depth).

Lemma layers_of_In (CA i : nat) : In i (layers_of CA) <-> CA <= i < 12.
Proof. unfold layers_of. rewrite in_seq. lia. Qed.

Lemma blocks_nth (CA : nat) (CA_eq : bool) (depth i : nat) (blk : bb_block Stream) :
  nth_error (blocks CA CA_eq depth) i = Some blk ->
  blk = bb_init s_t_b_cast s_text_b_cast t_text_b_cast
                (mkBbConfig (layers_of CA) CA_eq) i.
Proof.
  unfold blocks. intros H.
  assert (Hi : i < depth).
  { assert (Hn : nth_error (map (bb_init s_t_b_cast s_text_b_cast t_text_b_cast
                                   (mkBbConfig (layers_of CA) CA_eq)) (seq 0 depth)) i <> None)
      by congruence.
    apply nth_error_Some in Hn. now rewrite length_map, length_seq in Hn. }
  rewrite nth_error_map, nth_error_seq in H.
  replace (i <? depth) with true in H by (symmetry; apply Nat.ltb_lt; lia).
  simpl in H. congruence.
Qed.

(** X17.  In a beats_Bsquare model built with the argument [CA], layer [i]
    runs its two audio cells exactly when [CA <= i < 12], whatever the
    depth of the model: the list of cross layers stops at layer 11.  The
    spatial-temporal cell runs at every layer when [CA_eq] is false and at
    the same layers as the audio cells when it is true. *)
Theorem audio_cells_stop_at_layer_12 (CA : nat) (CA_eq : bool) (depth i : nat)
    (blk : bb_block Stream) (s_x t_x text : Stream) :
  nth_error (blocks CA CA_eq depth) i = Some blk ->
  exists s' t' text' fired,
    bb_cross_forward blk s_x t_x text = inr (s', t', text', fired)
    /\ (In S_TEXT_B_CAST fired <-> CA <= i < 12)
    /\ (In T_TEXT_B_CAST fired <-> CA <= i < 12)
    /\ (In S_T_B_CAST fired <-> CA_eq = false \/ CA <= i < 12).
Proof.
  intros H. apply blocks_nth in H. subst blk.
  set (cfg := mkBbConfig (layers_of CA) CA_eq).
  unfold bb_cross_forward. rewrite bb_stage_st_init.
  pose proof (bb_guard_st_spec cfg i) as Hst.
  pose proof (in_CA_In cfg i) as Hin.
  pose proof (layers_of_In CA i) as Hl.
  cbn [cfg bb_CA bb_CA_eq] in Hst, Hin.
  destruct (bb_guard_st cfg i) eqn:Eg;
    rewrite bb_stage_audio_init;
    destruct (in_CA cfg i) eqn:Ei;
    do 4 eexists; (split; [reflexivity |]); simpl;
    intuition (auto; try discriminate; try congruence).
Qed.

End Stack.

(** A model of 14 layers built with [CA = 9]: layer 12 has no audio
    cell. *)
Example layer_12_of_a_deep_model :
  option_map (fun blk => bb_cross_forward blk 0%Z 0%Z 0%Z)
             (nth_error (blocks (demo_cell 1) (demo_cell 10) (demo_cell 100) 9 true 14) 12)
  = Some (inr (0%Z, 0%Z, 0%Z, [])).
Proof. reflexivity. Qed.

Lemma audio_cells_stop_at_layer_12_witness :
  exists s' t' text' fired,
    bb_cross_forward
      (bb_init (demo_cell 1) (demo_cell 10) (demo_cell 100)
               (mkBbConfig (layers_of 9) true) 10) 0%Z 0%Z 0%Z
    = inr (s', t', text', fired)
    /\ (In S_TEXT_B_CAST fired <-> 9 <= 10 < 12)
    /\ (In T_TEXT_B_CAST fired <-> 9 <= 10 < 12)
    /\ (In S_T_B_CAST fired <-> true = false \/ 9 <= 10 < 12).
Proof.
  apply (@audio_cells_stop_at_layer_12 Z (demo_cell 1) (demo_cell 10) (demo_cell 100)
           9 true 12 10).
  reflexivity.
Defined.

End BeatsStack.

(* ------------------------------------------------------------------ *)
(** * [action_accuracy] at [k = 1] *)

Module ActionAccuracyTop1.
Import ActionAccuracy.

Definition single (v : nat) : list nat := [v].
Definition compose (v n : nat) : nat := v * 1000 + n.

Lemma topk_1_single (row : list Q) (l : list nat) :
  topk 1 row = Some l -> l = single (hd 0 l).
Proof.
  unfold topk. destruct (1 <=? length row) eqn:E; [| discriminate].
  apply Nat.leb_le in E. intros [= <-].
  pose proof (FinalTest.argsort_desc_length row) as Hl.
  destruct (argsort_desc row) as [| p rest]; [simpl in Hl; lia | reflexivity].
Qed.

Lemma omap_topk_1 (rows : list (list Q)) (pred : list (list nat)) :
  omap (topk 1) rows = Some pred ->
  pred = map single (map (hd 0) pred) /\ length pred = length rows.
Proof.
  revert pred. induction rows as [| r rows IH]; intros pred; simpl.
  - intros [= <-]. now split.
  - destruct (topk 1 r) as [l |] eqn:El; simpl; [| discriminate].
    destruct (omap (topk 1) rows) as [ls |]; simpl; [| discriminate].
    intros [= <-]. destruct (IH ls eq_refl) as [H1 H2]. simpl. split.
    + now rewrite <- H1, <- (topk_1_single _ El).
    + now rewrite H2.
Qed.

Lemma zip_singles (vs ns : list nat) :
  zip_with (zip_with (fun v n => v * 1000 + n)) (map single vs) (map single ns)
  = map single (zip_with compose vs ns).
Proof.
  revert ns. induction vs as [| v vs IH]; intros [| n ns]; simpl; try reflexivity.
  now rewrite IH.
Qed.

Lemma transpose_singles (l : list nat) : transpose 1 (map single l) = [l].
Proof.
  unfold transpose. simpl. f_equal. rewrite map_map. simpl.
  induction l as [| a l IH]; simpl; [reflexivity | now rewrite IH].
Qed.

Lemma hits_singles (vs ns target : list nat) :
  zip_with (fun vn t => row_hit_cartesian 1 (fst vn) (snd vn) t)
           (combine (map single vs) (map single ns)) target
  = zip_with Nat.eqb (zip_with compose vs ns) target.
Proof.
  revert ns target. induction vs as [| v vs IH]; intros [| n ns] [| t target];
    simpl; try reflexivity.
  rewrite IH. f_equal.
  unfold row_hit_cartesian, cartesian_candidates, compose. simpl.
  rewrite orb_false_r. apply Nat.eqb_sym.
Qed.

Lemma zip_with_len {A B C : Type} (f : A -> B -> C) (l1 : list A) (l2 : list B) :
  length l1 = length l2 -> length (zip_with f l1 l2) = length l1.
Proof.
  revert l2. induction l1 as [| a l1 IH]; intros [| b l2]; simpl; try reflexivity;
    try discriminate.
  intros [= H]. now rewrite IH.
Qed.

(** X18.  For [topk = (1,)] and a batch whose three tensors have one row per
    example, [action_accuracy] returns what the rule "every verb of the
    top [k] with every noun of the top [k]" returns: the two rules differ
    only from [k = 2] on. *)
Theorem top1_action_accuracy_is_the_combination_rule
    (output_noun output_verb : list (list Q)) (target : list nat) :
  length output_noun = length target -> length output_verb = length target ->
  action_accuracy output_noun output_verb target [1]
  = action_accuracy_cartesian output_noun output_verb target [1].
Proof.
  intros Hn Hv. unfold action_accuracy, action_accuracy_cartesian.
  change (max_of [1]) with (Some 1). cbn [obind].
  destruct (omap (topk 1) output_noun) as [pn |] eqn:En; [| reflexivity].
  apply omap_topk_1 in En. destruct En as [En Hln]. cbn [obind].
  destruct (omap (topk 1) output_verb) as [pv |] eqn:Ev; [| reflexivity].
  apply omap_topk_1 in Ev. destruct Ev as [Ev Hlv]. cbn [obind].
  set (ns := map (hd 0) pn) in *. set (vs := map (hd 0) pv) in *.
  assert (Hlns : length ns = length target)
    by (unfold ns; rewrite length_map; congruence).
  assert (Hlvs : length vs = length target)
    by (unfold vs; rewrite length_map; congruence).
  rewrite En, Ev. unfold bcast2. rewrite !length_map.
  replace (length vs =? length ns) with true
    by (symmetry; apply Nat.eqb_eq; congruence).
  cbn [obind]. rewrite zip_singles, transpose_singles, length_map.
  unfold expand_to. rewrite zip_with_len by congruence.
  replace (length target =? length vs) with true
    by (symmetry; apply Nat.eqb_eq; congruence).
  cbn [obind map]. rewrite hits_singles. simpl. now rewrite app_nil_r.
Qed.

Lemma top1_action_accuracy_is_the_combination_rule_witness :
  action_accuracy demo_noun demo_verb demo_target [1]
  = action_accuracy_cartesian demo_noun demo_verb demo_target [1].
Proof.
  apply (@top1_action_accuracy_is_the_combination_rule demo_noun demo_verb demo_target);
    reflexivity.
Defined.

End ActionAccuracyTop1.

(* ------------------------------------------------------------------ *)
(** * [Spectrogram.loadaudio], branch [audio_type == 'all'] *)

Module AudioAll.
Import AudioWindow.
Local Open Scope Z_scope.

(** [range(start, stop, step)]; [None]: the [ValueError] of a zero step. *)
Definition py_range (start stop step : Z) : option (list Z) :=
  if step =? 0 then None
  else
    let count :=
      if step >? 0
      then (if start <? stop then (stop - start - 1) / step + 1 else 0)
      else (if stop <? start then (start - stop - 1) / (- step) + 1 else 0) in
    Some (map (fun k => start + Z.of_nat k * step) (seq 0 (Z.to_nat count))).

Section Samples.
Variable A : Type.

(** From [left_sample], [right_sample] (the rounded positions computed
    before) on:
<<
    if right_sample > len(samples):
        right_sample = len(samples)
    ...
    elif audio_type == 'all':
        if right_sample > len(samples):
            right_sample = len(samples)
        step = int((right_sample-left_sample)//self.num_segment)
        samples = torch.stack([samples[i:i+step] for i in range(left_sample,right_sample,step)],dim=0)
>>
    [None]: [ZeroDivisionError] for [num_segment = 0], the [ValueError] of
    [range] for a clip of fewer than [num_segment] samples, or the refusal
    of [torch.stack]. *)
Definition all_windows (samples : list A) (left_sample right_sample num_segment : Z)
  : option (list (list A)) :=
  let n := Z.of_nat (length samples) in
  let right_sample := if right_sample >? n then n else right_sample in
  if num_segment =? 0 then None
  else
    let step := (right_sample - left_sample) / num_segment in
    r <- py_range left_sample right_sample step ;;
    stack_ (map (fun i => slice samples i (i + step)) r).

(** The windows before [torch.stack]. *)
Definition cut (samples : list A) (left_sample step : Z) (count : nat) : list (list A) :=
  map (fun i => slice samples i (i + step))
      (map (fun k => left_sample + Z.of_nat k * step) (seq 0 count)).

Lemma firstn_add (p q : nat) (l : list A) :
  firstn p l ++ firstn q (skipn p l) = firstn (p + q) l.
Proof.
  revert l. induction p as [| p IH]; intros [| a l]; simpl; try reflexivity.
  - now rewrite firstn_nil.
  - now rewrite IH.
Qed.

Lemma slice_inside (xs : list A) (a b : Z) :
  0 <= a <= b -> b <= Z.of_nat (length xs) ->
  slice xs a b = firstn (Z.to_nat (b - a)) (skipn (Z.to_nat a) xs).
Proof.
  intros H1 H2. unfold slice. now rewrite !clamp_inside by lia.
Qed.

Lemma slice_app (xs : list A) (a b c : Z) :
  0 <= a <= b -> b <= c -> c <= Z.of_nat (length xs) ->
  slice xs a b ++ slice xs b c = slice xs a c.
Proof.
  intros H1 H2 H3. rewrite !slice_inside by lia.
  replace (Z.to_nat b) with (Z.to_nat (b - a) + Z.to_nat a)%nat by lia.
  rewrite <- skipn_skipn. rewrite firstn_add. f_equal. lia.
Qed.

Lemma slice_empty (xs : list A) (a : Z) :
  0 <= a <= Z.of_nat (length xs) -> slice xs a a = [].
Proof.
  intros H. rewrite slice_inside by lia. now rewrite Z.sub_diag.
Qed.

Lemma cut_snoc (samples : list A) (left_sample step : Z) (count : nat) :
  cut samples left_sample step (S count)
  = cut samples left_sample step count
    ++ [slice samples (left_sample + Z.of_nat count * step)
              (left_sample + Z.of_nat count * step + step)].
Proof.
  unfold cut. rewrite seq_S, !map_app. reflexivity.
Qed.

Lemma cut_concat (samples : list A) (left_sample step : Z) (count : nat) :
  0 <= left_sample -> 0 <= step ->
  left_sample + Z.of_nat count * step <= Z.of_nat (length samples) ->
  concat (cut samples left_sample step count)
  = slice samples left_sample (left_sample + Z.of_nat count * step).
Proof.
  intros Hl Hs. induction count as [| c IH]; intros Hn.
  - simpl. rewrite Z.add_0_r. symmetry. apply slice_empty. simpl in Hn. lia.
  - assert (E : Z.of_nat (S c) * step = Z.of_nat c * step + step) by lia.
    assert (Hc : 0 <= Z.of_nat c * step) by (apply Z.mul_nonneg_nonneg; lia).
    rewrite E in *.
    rewrite cut_snoc, concat_app, IH by lia. cbn [concat]. rewrite app_nil_r.
    rewrite slice_app by lia. f_equal. lia.
Qed.

Lemma cut_lengths (samples : list A) (left_sample step : Z) (count : nat) :
  0 <= left_sample -> 0 <= step ->
  left_sample + Z.of_nat count * step <= Z.of_nat (length samples) ->
  Forall (fun w => Z.of_nat (length w) = step) (cut samples left_sample step count).
Proof.
  intros Hl Hs Hn. apply Forall_forall. intros w Hw. unfold cut in Hw.
  rewrite map_map in Hw. apply in_map_iff in Hw. destruct Hw as [k [<- Hk]].
  apply in_seq in Hk.
  assert (Hk0 : 0 <= Z.of_nat k * step) by (apply Z.mul_nonneg_nonneg; lia).
  assert (Hk1 : Z.of_nat k * step + step <= Z.of_nat count * step) by nia.
  rewrite window_length_inside by lia. lia.
Qed.

Lemma stack_same (k : Z) (ws : list (list A)) :
  ws <> [] -> Forall (fun w => Z.of_nat (length w) = k) ws -> stack_ ws = Some ws.
Proof.
  intros Hne Hall. destruct ws as [| w ws]; [contradiction |].
  unfold stack_. inversion Hall as [| ? ? Hw Hws]; subst.
  replace (forallb (fun w' => (length w' =? length w)%nat) ws) with true;
    [reflexivity |].
  symmetry. apply forallb_forall. intros w' Hin. apply Nat.eqb_eq.
  rewrite Forall_forall in Hws. specialize (Hws w' Hin). lia.
Qed.

Lemma stack_Some (ws ws' : list (list A)) : stack_ ws = Some ws' -> ws' = ws.
Proof.
  unfold stack_. destruct ws as [| w ws]; [discriminate |].
  destruct (forallb _ ws); [congruence | discriminate].
Qed.

Lemma stack_uneven (w : list A) (ws : list (list A)) (w' : list A) :
  length w' <> length w -> stack_ (w :: ws ++ [w']) = None.
Proof.
  intros H. unfold stack_. rewrite forallb_app. simpl.
  replace (length w' =? length w)%nat with false
    by (symmetry; now apply Nat.eqb_neq).
  now rewrite andb_false_r.
Qed.

(** The number of windows [range(left_sample, right_sample, step)] starts. *)
Definition window_count (length_sample num_segment : Z) : Z :=
  (length_sample - 1) / (length_sample / num_segment) + 1.

Lemma all_windows_cut (samples : list A) (left_sample right_sample num_segment : Z) :
  let r := Z.min right_sample (Z.of_nat (length samples)) in
  0 < num_segment -> num_segment <= r - left_sample ->
  all_windows samples left_sample right_sample num_segment
  = stack_ (cut samples left_sample ((r - left_sample) / num_segment)
                (Z.to_nat (window_count (r - left_sample) num_segment))).
Proof.
  intros r HS Hn. unfold all_windows.
  set (n := Z.of_nat (length samples)) in *.
  replace (if right_sample >? n then n else right_sample) with r
    by (unfold r; destruct (right_sample >? n) eqn:E; lia).
  destruct (num_segment =? 0) eqn:E0; [lia |].
  assert (Hstep : 1 <= (r - left_sample) / num_segment)
    by (apply Z.div_le_lower_bound; lia).
  set (step := (r - left_sample) / num_segment) in *.
  unfold py_range.
  destruct (step =? 0) eqn:E1; [lia |].
  replace (step >? 0) with true by lia.
  replace (left_sample <? r) with true by lia.
  reflexivity.
Qed.

(** X19.  A clip inside the recording whose number of samples is a multiple of
    [num_segment] is cut into exactly [num_segment] windows of equal
    length that follow one another and together are the clip. *)
Theorem all_windows_partition_the_clip
    (samples : list A) (left_sample right_sample num_segment : Z) :
  let r := Z.min right_sample (Z.of_nat (length samples)) in
  0 < num_segment -> 0 <= left_sample -> num_segment <= r - left_sample ->
  (r - left_sample) mod num_segment = 0 ->
  exists ws,
    all_windows samples left_sample right_sample num_segment = Some ws
    /\ Z.of_nat (length ws) = num_segment
    /\ Forall (fun w => Z.of_nat (length w) = (r - left_sample) / num_segment) ws
    /\ concat ws = slice samples left_sample r.
Proof.
  intros r HS Hl Hn Hmod. rewrite all_windows_cut by assumption. fold r.
  assert (Hstep : 1 <= (r - left_sample) / num_segment)
    by (apply Z.div_le_lower_bound; lia).
  assert (Hexact : r - left_sample = num_segment * ((r - left_sample) / num_segment))
    by (apply Z.div_exact; lia).
  set (step := (r - left_sample) / num_segment) in *.
  assert (Hcount : window_count (r - left_sample) num_segment = num_segment).
  { unfold window_count. fold step.
    assert ((r - left_sample - 1) / step = num_segment - 1); [| lia].
    symmetry. apply (Z.div_unique _ _ _ (step - 1)); lia. }
  rewrite Hcount.
  assert (Hend : left_sample + Z.of_nat (Z.to_nat num_segment) * step
                 <= Z.of_nat (length samples)) by (unfold r in *; lia).
  pose proof (@cut_lengths samples left_sample step (Z.to_nat num_segment)
                ltac:(lia) ltac:(lia) Hend) as Hlen.
  exists (cut samples left_sample step (Z.to_nat num_segment)).
  split; [| split; [| split]].
  - apply (@stack_same step); [| exact Hlen].
    destruct (Z.to_nat num_segment) eqn:E; [lia | discriminate].
  - unfold cut. rewrite !length_map, length_seq. lia.
  - exact Hlen.
  - rewrite cut_concat by lia. f_equal. lia.
Qed.

(** X20.  When the number of samples of the clip is no multiple of
    [num_segment], the branch never returns [num_segment] windows: what
    it stacks are more windows than that, and it raises when the clip runs
    to the end of the recording and the window length does not divide the
    clip either, the last window being shorter than the others. *)
Theorem all_windows_with_a_remainder
    (samples : list A) (left_sample right_sample num_segment : Z) :
  let n := Z.of_nat (length samples) in
  let r := Z.min right_sample n in
  0 < num_segment -> 0 <= left_sample -> num_segment <= r - left_sample ->
  (r - left_sample) mod num_segment <> 0 ->
  (forall ws, all_windows samples left_sample right_sample num_segment = Some ws ->
              num_segment < Z.of_nat (length ws))
  /\ (n <= right_sample ->
      (r - left_sample) mod ((r - left_sample) / num_segment) <> 0 ->
      all_windows samples left_sample right_sample num_segment = None).
Proof.
  intros n r HS Hl Hn Hmod. rewrite all_windows_cut by assumption. fold n r.
  assert (Hstep : 1 <= (r - left_sample) / num_segment)
    by (apply Z.div_le_lower_bound; lia).
  pose proof (Z.div_mod (r - left_sample) num_segment ltac:(lia)) as Hdm.
  pose proof (Z.mod_pos_bound (r - left_sample) num_segment HS) as Hmb.
  set (step := (r - left_sample) / num_segment) in *.
  set (c := window_count (r - left_sample) num_segment).
  assert (Hq : num_segment <= (r - left_sample - 1) / step)
    by (apply Z.div_le_lower_bound; nia).
  assert (Hc : num_segment < c) by (unfold c, window_count; fold step; lia).
  split.
  - intros ws Hws. apply stack_Some in Hws. subst ws.
    unfold cut. rewrite !length_map, length_seq. lia.
  - intros Hend Hrem.
    assert (Hr : r = n) by (unfold r; lia).
    pose proof (Z.div_mod (r - left_sample - 1) step ltac:(lia)) as Hdm1.
    pose proof (Z.mod_pos_bound (r - left_sample - 1) step ltac:(lia)) as Hmb1.
    assert (Hlast : left_sample + (c - 1) * step < n)
      by (unfold c, window_count; fold step; lia).
    assert (Hover : n < left_sample + c * step).
    { assert (Hge : n <= left_sample + c * step)
        by (unfold c, window_count; fold step; lia).
      destruct (Z.eq_dec n (left_sample + c * step)) as [E |]; [| lia].
      exfalso. apply Hrem.
      replace (r - left_sample) with (c * step) by lia.
      apply Z.mod_mul. lia. }
    destruct (Z.to_nat c) as [| [| k]] eqn:Ek; [lia | lia |].
    rewrite cut_snoc. unfold cut at 1. simpl seq. simpl map at 2.
    rewrite <- seq_shift, !map_map. cbn [map app].
    apply stack_uneven.
    intros Heq. apply (f_equal Z.of_nat) in Heq.
    rewrite window_length in Heq.
    rewrite (@window_length_inside A samples (left_sample + Z.of_nat 0 * step))
      in Heq by (fold n; nia).
    fold n in Heq. unfold clamp in Heq.
    replace (Z.of_nat (S k)) with (c - 1) in Heq by lia.
    destruct (left_sample + (c - 1) * step + step <? 0) eqn:E1; [lia |].
    destruct (left_sample + (c - 1) * step <? 0) eqn:E2; [lia |].
    lia.
Qed.

End Samples.

(** Thirty-two samples in sixteen windows of two; thirty-five samples give
    eighteen windows when the recording goes on, and nothing when it ends
    with the clip. *)
Example all_windows_of_35_samples :
  option_map (@length _) (all_windows (seq 0 40) 0 32 16) = Some 16%nat
  /\ option_map (@length _) (all_windows (seq 0 40) 0 35 16) = Some 18%nat
  /\ all_windows (seq 0 35) 0 35 16 = None.
Proof. vm_compute. repeat split. Qed.

Lemma all_windows_partition_the_clip_witness :
  exists ws,
    all_windows (seq 0 40) 4 36 16 = Some ws
    /\ Z.of_nat (length ws) = 16
    /\ Forall (fun w => Z.of_nat (length w)
                        = (Z.min 36 (Z.of_nat (length (seq 0 40))) - 4) / 16) ws
    /\ concat ws = slice (seq 0 40) 4 (Z.min 36 (Z.of_nat (length (seq 0 40)))).
Proof.
  apply (@all_windows_partition_the_clip nat (seq 0 40) 4 36 16);
    simpl; try lia; reflexivity.
Defined.

Lemma all_windows_with_a_remainder_witness :
  (forall ws, all_windows (seq 0 35) 0 35 16 = Some ws -> 16 < Z.of_nat (length ws))
  /\ (Z.of_nat (length (seq 0 35)) <= 35 ->
      (Z.min 35 (Z.of_nat (length (seq 0 35))) - 0)
        mod ((Z.min 35 (Z.of_nat (length (seq 0 35))) - 0) / 16) <> 0 ->
      all_windows (seq 0 35) 0 35 16 = None).
Proof.
  apply (@all_windows_with_a_remainder nat (seq 0 35) 0 35 16);
    simpl; try lia; discriminate.
Defined.

End AudioAll.

(* ------------------------------------------------------------------ *)
(** * [Spectrogram._specgram]: the time axis of what it returns *)

Module SpecgramLength.
Import AudioWindow.
Local Open Scope Z_scope.

Section Frames.
(** An entry of the time axis (a column of the mel spectrogram, a frame of
    the filter bank) and the one [F.pad] adds. *)
Variable A : Type.
Variable zero : A.

(** On the time axis ([-2] for ['beats'], [-1] otherwise):
<<
    if spec.shape[-2] != self.length:
        expand = self.length - spec.shape[-2]
        spec = spec[:,:self.length,:] if spec.shape[-2] > self.length else  torch.nn.functional.pad(spec, pad=(0, 0, 0, expand))
>> *)
Definition fit (length_ : Z) (spec : list A) : list A :=
  let shape := Z.of_nat (length spec) in
  if negb (shape =? length_) then
    let expand := length_ - shape in
    if shape >? length_ then slice_to spec length_
    else spec ++ repeat zero (Z.to_nat expand)
  else spec.

Lemma firstn_repeat (j k : nat) :
  (j <= k)%nat -> firstn j (repeat zero k) = repeat zero j.
Proof.
  revert k. induction j as [| j IH]; intros [| k] H; simpl; try reflexivity; [lia |].
  rewrite IH by lia. reflexivity.
Qed.

Lemma firstn_padded (k : nat) (xs : list A) :
  (length xs <= k)%nat ->
  firstn k (xs ++ repeat zero k) = xs ++ repeat zero (k - length xs).
Proof.
  intros H. rewrite firstn_app.
  rewrite firstn_all2 by assumption. f_equal.
  apply firstn_repeat. lia.
Qed.

(** X21.  Whatever the length of the sound, the time axis [_specgram] returns has
    exactly [self.length] entries: those of the spectrogram followed by
    zeros, cut after [self.length]. *)
Theorem specgram_has_the_configured_length (length_ : Z) (spec : list A) :
  0 <= length_ ->
  fit length_ spec
  = firstn (Z.to_nat length_) (spec ++ repeat zero (Z.to_nat length_))
  /\ Z.of_nat (length (fit length_ spec)) = length_.
Proof.
  intros H.
  assert (E : fit length_ spec
              = firstn (Z.to_nat length_) (spec ++ repeat zero (Z.to_nat length_))).
  { unfold fit. destruct (Z.of_nat (length spec) =? length_) eqn:E1; simpl.
    - apply Z.eqb_eq in E1. rewrite firstn_padded by lia.
      replace (Z.to_nat length_ - length spec)%nat with 0%nat by lia.
      simpl. now rewrite app_nil_r.
    - apply Z.eqb_neq in E1.
      destruct (Z.of_nat (length spec) >? length_) eqn:E2.
      + unfold slice_to, slice. rewrite !clamp_inside by lia.
        rewrite Z.sub_0_r. simpl skipn.
        rewrite firstn_app.
        replace (Z.to_nat length_ - length spec)%nat with 0%nat by lia.
        simpl. now rewrite app_nil_r.
      + rewrite firstn_padded by lia. do 2 f_equal. lia. }
  split; [exact E |].
  rewrite E, length_firstn, length_app, repeat_length. lia.
Qed.

End Frames.

Lemma specgram_has_the_configured_length_witness :
  fit 0%nat 4 [1; 2; 3; 4; 5; 6]%nat
  = firstn (Z.to_nat 4) ([1; 2; 3; 4; 5; 6]%nat ++ repeat 0%nat (Z.to_nat 4))
  /\ Z.of_nat (length (fit 0%nat 4 [1; 2; 3; 4; 5; 6]%nat)) = 4.
Proof.
  apply (@specgram_has_the_configured_length nat 0%nat 4 [1; 2; 3; 4; 5; 6]%nat).
  lia.
Defined.

End SpecgramLength.
